(** * Student Database dashboard: the aggregation core of [src/App.jsx]

    A shallow embedding of the functions of [App.jsx] that carry logic
    ([calcGPAForStudent], [calculateEnrollmentByMajor], the
    [filteredStudents] memo and the [CourseAttendance] component) together
    with the pieces of JavaScript they rely on: strings, the IEEE 754
    quotient behind [toFixed], plain objects used as maps, [Set], and the
    global [window.__GRADES_FOR_APP] accessor.  The functions are given
    twice: on values, and then ([Mem]) on references into a memory of
    objects, where what a call reads, creates and assigns to is explicit.

    Conventions.
    - A CSV field is text or absent: [option string], [None] standing for
      [undefined].  [a === b] on such values is equality.
    - Text is ASCII.  [toUpperCase], [toLowerCase] and [trim] are the
      JavaScript functions on strings whose code units are all below 128
      ([is_ascii]); on such strings the standard changes the case of the
      letters A-Z and a-z only and removes TAB, LF, VT, FF, CR and SPACE
      only.  What these functions do to other code units (U+00A0 is
      white space, [toUpperCase] turns U+00DF into two letters) is
      outside this development: [is_ascii] is assumed of the text where
      a result says what trimming and case folding do to it (the
      attendance buckets, the contract of the search filter).
    - Arrays are lists; counters that only ever hold integers are [Z]. *)

From Stdlib Require Import ZArith QArith Lia String Ascii.
From stdpp Require Import base decidable option list sorting gmap strings.

Local Open Scope Z_scope.

(* ===================================================================== *)
(** ** JavaScript strings *)
(* ===================================================================== *)

Module JsString.

Local Open Scope nat_scope.

(** The code units of ASCII, and the strings made of them: the domain on
    which the functions below are the JavaScript ones. *)
Definition is_ascii_char (c : ascii) : bool := nat_of_ascii c <? 128.

Fixpoint is_ascii (s : string) : bool :=
  match s with
  | EmptyString => true
  | String c s' => is_ascii_char c && is_ascii s'
  end.

(** A text field that may be absent. *)
Definition is_ascii_field (v : option string) : bool :=
  match v with
  | None => true
  | Some s => is_ascii s
  end.

Definition is_upper (c : ascii) : bool :=
  let n := nat_of_ascii c in (65 <=? n) && (n <=? 90).

Definition is_lower (c : ascii) : bool :=
  let n := nat_of_ascii c in (97 <=? n) && (n <=? 122).

Definition upper_char (c : ascii) : ascii :=
  if is_lower c then ascii_of_nat (nat_of_ascii c - 32) else c.

Definition lower_char (c : ascii) : ascii :=
  if is_upper c then ascii_of_nat (nat_of_ascii c + 32) else c.

(** The white space and line terminators of ECMAScript below 128:
    TAB, LF, VT, FF, CR and SPACE. *)
Definition is_white (c : ascii) : bool :=
  let n := nat_of_ascii c in ((9 <=? n) && (n <=? 13)) || (n =? 32).

Fixpoint map_chars (f : ascii → ascii) (s : string) : string :=
  match s with
  | EmptyString => EmptyString
  | String c s' => String (f c) (map_chars f s')
  end.

(** [s.toUpperCase()], for [s] in ASCII *)
Definition toUpperCase : string → string := map_chars upper_char.

(** [s.toLowerCase()], for [s] in ASCII *)
Definition toLowerCase : string → string := map_chars lower_char.

Fixpoint trimStart (s : string) : string :=
  match s with
  | EmptyString => EmptyString
  | String c s' => if is_white c then trimStart s' else s
  end.

Fixpoint trimEnd (s : string) : string :=
  match s with
  | EmptyString => EmptyString
  | String c s' =>
      match trimEnd s' with
      | EmptyString => if is_white c then EmptyString else String c EmptyString
      | t => String c t
      end
  end.

(** [s.trim()], for [s] in ASCII *)
Definition trim (s : string) : string := trimEnd (trimStart s).

(** [s.includes(q)]: [q] occurs in [s] at some position. *)
Fixpoint includes (s q : string) : bool :=
  String.prefix q s ||
  match s with
  | EmptyString => false
  | String _ s' => includes s' q
  end.

(** [!s] on a string: only the empty string is falsy. *)
Definition falsy (s : string) : bool :=
  match s with EmptyString => true | _ => false end.

(** [v || d] where [v] is a text field that may be absent. *)
Definition or_default (v : option string) (d : string) : string :=
  match v with
  | None => d
  | Some s => if falsy s then d else s
  end.

End JsString.

Import JsString.

(* ===================================================================== *)
(** ** The numbers of [calcGPAForStudent] *)
(* ===================================================================== *)

(** [totalPoints] and [count] only ever hold integers (sums of 0..4 and of
    1), which binary64 represents exactly below 2^53, so they are [Z].  The
    quotient [totalPoints / count] is a genuine binary64 division: the
    double nearest to the exact quotient, ties to even.  [toFixed(2)] then
    works on the exact value of that double, and unary [+] reads the
    printed decimal back as the nearest double.  Exponent range is not
    modelled (the quotients here lie between 2^-53 and 4). *)

Module Binary64.

(** A non-negative finite double: [mant * 2 ^ expo]. *)
Record t : Set := mk { mant : Z; expo : Z }.

Definition zero : t := mk 0 0.

(** Nearest integer to [a / b], ties to even ([0 <= a], [0 < b]). *)
Definition round_half_even (a b : Z) : Z :=
  let q := a / b in
  let r := a mod b in
  if 2 * r <? b then q
  else if b <? 2 * r then q + 1
  else if Z.even q then q else q + 1.

(** [floor (log2 (a / b))] for positive [a] and [b]. *)
Definition ilog2_ratio (a b : Z) : Z :=
  if b <=? a then Z.log2 (a / b) else - Z.log2_up ((b + a - 1) / a).

(** [a / (b * 2 ^ e)] as a fraction of integers. *)
Definition scale (a b e : Z) : Z * Z :=
  if 0 <=? e then (a, b * 2 ^ e) else (a * 2 ^ (- e), b).

(** A mantissa rounded up to 2^53 is renormalised. *)
Definition normalize (x : t) : t :=
  if mant x =? 2 ^ 53 then mk (2 ^ 52) (expo x + 1) else x.

(** The double nearest to the rational [a / b] ([0 <= a], [0 < b]). *)
Definition of_ratio (a b : Z) : t :=
  if a =? 0 then zero
  else
    let e := ilog2_ratio a b - 52 in
    let '(n, d) := scale a b e in
    normalize (mk (round_half_even n d) e).

(** [x / y] for two integer-valued doubles. *)
Definition div_int (p c : Z) : t := of_ratio p c.

(** The exact value of a double as a fraction of integers. *)
Definition fraction (x : t) : Z * Z := scale (mant x) 1 (- expo x).

Definition to_Q (x : t) : Q :=
  let '(n, d) := fraction x in Qmake n (Z.to_pos d).

(** A decimal numeral with two fraction digits, as [toFixed(2)] prints
    it: ["3.50"] is [Decimal2 350]. *)
Record decimal2 : Set := Decimal2 { hundredths : Z }.

(** [x.toFixed(2)]: "let n be an integer for which n / 100 - x is as
    close to zero as possible; if there are two such n, pick the larger",
    that is [floor (100 * x + 1/2)]. *)
Definition toFixed2 (x : t) : decimal2 :=
  let '(n, d) := fraction x in
  Decimal2 ((200 * n + d) / (2 * d)).

(** Unary [+] on the printed numeral. *)
Definition Number (s : decimal2) : t := of_ratio (hundredths s) 100.

End Binary64.

(* ===================================================================== *)
(** ** Records *)
(* ===================================================================== *)

Record Student : Set := mkStudent {
  s_student_id : option string;
  s_name : option string;
  s_major : option string;
  s_year : option string
}.

Record Course : Set := mkCourse {
  c_course_code : option string;
  c_name : option string;
  c_instructor : option string
}.

Record GradeRecord : Set := mkGrade {
  g_student_id : option string;
  g_course_code : option string;
  g_grade : option string
}.

Record AttendanceRecord : Set := mkAttendance {
  a_student_id : option string;
  a_date : option string;
  a_attendance_status : option string
}.

#[global] Instance Student_eq_dec : EqDecision Student.
Proof. solve_decision. Defined.
#[global] Instance GradeRecord_eq_dec : EqDecision GradeRecord.
Proof. solve_decision. Defined.
#[global] Instance AttendanceRecord_eq_dec : EqDecision AttendanceRecord.
Proof. solve_decision. Defined.

(* ===================================================================== *)
(** ** GPA *)
(* ===================================================================== *)

(** [const gradePoints = { A: 4.0, B: 3.0, C: 2.0, D: 1.0, F: 0.0 }] *)
Definition gradePoints : list (string * Z) :=
  [("A", 4); ("B", 3); ("C", 2); ("D", 1); ("F", 0)]%string.

(** The properties [gradePoints] inherits from [Object.prototype]; the
    [in] operator sees them too. *)
Definition objectPrototypeNames : list string :=
  ["constructor"; "__defineGetter__"; "__defineSetter__"; "hasOwnProperty";
   "__lookupGetter__"; "__lookupSetter__"; "isPrototypeOf";
   "propertyIsEnumerable"; "toString"; "valueOf"; "__proto__";
   "toLocaleString"]%string.

Fixpoint assoc {V : Type} (k : string) (l : list (string * V)) : option V :=
  match l with
  | [] => None
  | (k', v) :: l' => if String.eqb k k' then Some v else assoc k l'
  end.

(** What [letter in gradePoints] followed by [gradePoints[letter]] give. *)
Inductive property : Set :=
| OwnPoints (p : Z)
| Inherited
| Missing.

Definition gradePoints_get (letter : string) : property :=
  match assoc letter gradePoints with
  | Some p => OwnPoints p
  | None => if bool_decide (letter ∈ objectPrototypeNames) then Inherited else Missing
  end.

(** The accumulators of the loop of [calcGPAForStudent].  [totalPoints]
    stops being a number once an inherited property is added to it. *)
Module GpaLoop.
Record acc : Set := mk { totalPoints : option Z; count : Z }.

Definition init : acc := mk (Some 0) 0.

Definition step (a : acc) (r : GradeRecord) : acc :=
  let letter := toUpperCase (or_default (g_grade r) "") in
  match gradePoints_get letter with
  | OwnPoints p => mk (Z.add p <$> totalPoints a) (count a + 1)
  | Inherited => mk None (count a + 1)
  | Missing => a
  end.
End GpaLoop.

(** The result of [calcGPAForStudent]: [null], a number, or the [NaN] that
    a non-numeric [totalPoints] would end in. *)
Inductive gpa : Set :=
| Null
| Num (x : Binary64.t)
| NaN.

Definition calcGPAForStudent (studentId : option string) (grades : list GradeRecord) : gpa :=
  let recs := List.filter (λ g, bool_decide (g_student_id g = studentId)) grades in
  if Z.of_nat (length recs) =? 0 then Null
  else
    let a := fold_left GpaLoop.step recs GpaLoop.init in
    if GpaLoop.count a =? 0 then Null
    else match GpaLoop.totalPoints a with
         | Some p => Num (Binary64.Number (Binary64.toFixed2 (Binary64.div_int p (GpaLoop.count a))))
         | None => NaN
         end.

(* ===================================================================== *)
(** ** Plain objects used as maps *)
(* ===================================================================== *)

Module JsObject.

Inductive value : Set :=
| VNum (n : Z)
| VStr (s : string).

(** The own properties of an object literal [{}] that only ever gets
    string keys, in creation order. *)
Definition t : Set := list (string * value).

Definition empty : t := [].

(** What reading [o[k]] finds: an own property, a method inherited from
    [Object.prototype], the prototype itself (through the [__proto__]
    accessor), or [undefined]. *)
Inductive read : Set :=
| ROwn (v : value)
| RMethod (name : string)
| RPrototype
| RUndefined.

Definition get (o : t) (k : string) : read :=
  match assoc k o with
  | Some v => ROwn v
  | None =>
      if String.eqb k "__proto__" then RPrototype
      else if bool_decide (k ∈ objectPrototypeNames) then RMethod k
      else RUndefined
  end.

(** The source text a built-in method converts to. *)
Definition method_text (name : string) : string :=
  ("function " ++ (if String.eqb name "constructor" then "Object" else name)
     ++ "() { [native code] }")%string.

(** [(r || 0) + 1] *)
Definition or_zero_plus_one (r : read) : value :=
  match r with
  | ROwn (VNum n) => VNum (n + 1)
  | ROwn (VStr s) => if falsy s then VNum 1 else VStr (s ++ "1")
  | RMethod name => VStr (method_text name ++ "1")
  | RPrototype => VStr "[object Object]1"
  | RUndefined => VNum 1
  end.

Fixpoint replace {V : Type} (k : string) (v : V) (o : list (string * V))
  : list (string * V) :=
  match o with
  | [] => []
  | (k', v') :: o' =>
      if String.eqb k k' then (k', v) :: o' else (k', v') :: replace k v o'
  end.

(** [o[k] = v]: an existing own property keeps its place, a new one goes
    last; the [__proto__] setter ignores a value that is not an object. *)
Definition set (o : t) (k : string) (v : value) : t :=
  if String.eqb k "__proto__" then o
  else match assoc k o with
       | Some _ => replace k v o
       | None => o ++ [(k, v)]
       end.

Definition is_digit (c : ascii) : bool :=
  let n := nat_of_ascii c in ((48 <=? n) && (n <=? 57))%nat.

Fixpoint digits_value (acc : Z) (s : string) : option Z :=
  match s with
  | EmptyString => Some acc
  | String c s' =>
      if is_digit c
      then digits_value (10 * acc + Z.of_nat (nat_of_ascii c - 48)) s'
      else None
  end.

(** A key is an array index when it is the canonical decimal numeral of
    an integer from 0 to 2^32 - 2. *)
Definition array_index (k : string) : option Z :=
  match k with
  | EmptyString => None
  | String c rest =>
      if (String.eqb k "0") then Some 0
      else if Ascii.eqb c "0" then None
      else match digits_value 0 k with
           | Some n => if n <=? 2 ^ 32 - 2 then Some n else None
           | None => None
           end
  end.

Definition is_index (k : string) : bool :=
  match array_index k with Some _ => true | None => false end.

Definition index_or_zero (k : string) : Z := default 0 (array_index k).

Fixpoint insert_sorted (p : string * value) (l : t) : t :=
  match l with
  | [] => [p]
  | q :: l' =>
      if index_or_zero p.1 <=? index_or_zero q.1 then p :: l
      else q :: insert_sorted p l'
  end.

Definition sort_by_index (l : t) : t := foldr insert_sorted [] l.

(** [Object.entries(o)]: array-index keys first, in ascending numeric
    order, then the other keys in creation order. *)
Definition entries (o : t) : t :=
  sort_by_index (List.filter (λ p, is_index p.1) o)
    ++ List.filter (λ p, negb (is_index p.1)) o.

End JsObject.

(* ===================================================================== *)
(** ** Enrollment by major *)
(* ===================================================================== *)

Record MajorCount : Set := mkMajorCount { major : string; count : JsObject.value }.

Definition enrollment_step (map : JsObject.t) (s : Student) : JsObject.t :=
  let m := or_default (s_major s) "Undeclared" in
  JsObject.set map m (JsObject.or_zero_plus_one (JsObject.get map m)).

Definition calculateEnrollmentByMajor (students : list Student) : list MajorCount :=
  let map := fold_left enrollment_step students JsObject.empty in
  List.map (λ '(major, count), mkMajorCount major count) (JsObject.entries map).

(* ===================================================================== *)
(** ** Search filter *)
(* ===================================================================== *)

(** How a piece of code completes: normally, or by throwing the
    [TypeError] of a property read on [undefined]. *)
Inductive completion (A : Type) : Type :=
| Normal (a : A)
| TypeError.
Arguments Normal {A} a.
Arguments TypeError {A}.

Definition bind {A B : Type} (c : completion A) (k : A → completion B) : completion B :=
  match c with
  | Normal a => k a
  | TypeError => TypeError
  end.

(** [array.filter(cb)] with a callback that may throw. *)
Fixpoint filter_throwing {A : Type} (cb : A → completion bool) (l : list A)
  : completion (list A) :=
  match l with
  | [] => Normal []
  | x :: l' =>
      bind (cb x) (λ keep,
      bind (filter_throwing cb l') (λ rest,
      Normal (if keep then x :: rest else rest)))
  end.

(** The callback of the filter: [s.student_id.toLowerCase()] throws on a
    student without [student_id]. *)
Definition matches (q : string) (s : Student) : completion bool :=
  match s_student_id s with
  | None => TypeError
  | Some id =>
      Normal (includes (toLowerCase id) q
              || includes (toLowerCase (or_default (s_name s) "")) q)
  end.

(** The verdict of the callback when it completes. *)
Definition matchesb (q : string) (s : Student) : bool :=
  match matches q s with
  | Normal b => b
  | TypeError => false
  end.

(** The [filteredStudents] memo, as a function of its two dependencies. *)
Definition filteredStudents (students : list Student) (search : string)
  : completion (list Student) :=
  let q := toLowerCase (trim search) in
  if falsy q then Normal students
  else filter_throwing (matches q) students.

(* ===================================================================== *)
(** ** The [window] global and code that runs against it *)
(* ===================================================================== *)

(** The one property of [window] the program touches.  [None] is
    [undefined], the state of a page that never stored anything there. *)
Record Window : Set := mkWindow {
  __internal_grades_for_app : option (list GradeRecord)
}.

(** A computation that may read and write [window]. *)
Definition Eff (A : Type) : Type := Window → A * Window.

#[global] Instance Eff_ret : MRet Eff := λ A a w, (a, w).

#[global] Instance Eff_bind : MBind Eff :=
  λ A B k m w, let '(a, w') := m w in k a w'.

(** The accessor pair installed by [exposeGradesGlobally]:
    [get() { return window.__internal_grades_for_app || []; }] and
    [set(v) { window.__internal_grades_for_app = v; }]. *)
Definition get___GRADES_FOR_APP : Eff (list GradeRecord) :=
  λ w, (default [] (__internal_grades_for_app w), w).

Definition set___GRADES_FOR_APP (v : list GradeRecord) : Eff unit :=
  λ w, (tt, mkWindow (Some v)).

(** The page as [exposeGradesGlobally] leaves it when the module is
    evaluated: the accessor is defined, nothing is stored. *)
Definition initial_window : Window := mkWindow None.

(* ===================================================================== *)
(** ** Course attendance *)
(* ===================================================================== *)

Record Stats : Set := mkStats { Present : Z; Absent : Z; Other : Z }.

Record Props : Set := mkProps {
  courseCode : option string;
  attendance : list AttendanceRecord;
  students : list Student
}.

(** What the component computes before it builds markup. *)
Record AttendanceView : Set := mkView {
  enrolledStudentIds : gset (option string);
  enrolled : list Student;
  stats : Stats;
  total : Z;
  sample : list Student
}.

(** [for (const g of globalGrades)
       if (g.course_code === courseCode) enrolledStudentIds.add(g.student_id);] *)
Definition enroll_step (code : option string) (ids : gset (option string)) (g : GradeRecord)
  : gset (option string) :=
  if bool_decide (g_course_code g = code) then {[ g_student_id g ]} ∪ ids else ids.

Definition build_enrolled (code : option string) (globalGrades : list GradeRecord)
  : gset (option string) :=
  fold_left (enroll_step code) globalGrades ∅.

(** The body of the tally loop. *)
Definition tally_step (ids : gset (option string)) (st : Stats) (a : AttendanceRecord) : Stats :=
  if negb (bool_decide (a_student_id a ∈ ids)) then st
  else
    let s := trim (or_default (a_attendance_status a) "") in
    if String.eqb (toLowerCase s) "present"
    then mkStats (Present st + 1) (Absent st) (Other st)
    else if String.eqb (toLowerCase s) "absent"
    then mkStats (Present st) (Absent st + 1) (Other st)
    else mkStats (Present st) (Absent st) (Other st + 1).

Definition tally (ids : gset (option string)) (att : list AttendanceRecord) : Stats :=
  fold_left (tally_step ids) att (mkStats 0 0 0).

(** Everything in [CourseAttendance] after the grade records are in hand. *)
Definition attendance_view (globalGrades : list GradeRecord) (p : Props) : AttendanceView :=
  let ids := build_enrolled (courseCode p) globalGrades in
  let enrolled := List.filter (λ s, bool_decide (s_student_id s ∈ ids)) (students p) in
  let st := tally ids (attendance p) in
  mkView ids enrolled st (Present st + Absent st + Other st) (take 10 enrolled).

(** [function CourseAttendance({ courseCode, attendance, students })]:
    the grade records are [window.__GRADES_FOR_APP || []], and the getter
    always hands out an array, which is truthy. *)
Definition CourseAttendance (p : Props) : Eff AttendanceView :=
  globalGrades ← get___GRADES_FOR_APP;
  mret (attendance_view globalGrades p).

(* ===================================================================== *)
(** ** The [App] component *)
(* ===================================================================== *)

Module App.

(** The [useState] cells. *)
Record state : Set := mkState {
  students : list Student;
  courses : list Course;
  grades : list GradeRecord;
  attendance : list AttendanceRecord;
  selectedStudent : option Student;
  selectedCourse : option string;
  search : string;
  loading : bool
}.

Definition initial : state := mkState [] [] [] [] None None "" true.

(** Everything that makes the component run code: the two outcomes of
    [loadAll] and the four handlers of the markup. *)
Inductive event : Set :=
| LoadAllDone (s : list Student) (c : list Course)
              (g : list GradeRecord) (a : list AttendanceRecord)
| LoadAllFailed
| SearchChanged (v : string)
| ClearClicked
| RowClicked (s : Student)
| CourseChanged (v : string).

Definition handle (ev : event) (st : state) : Eff state :=
  match ev with
  | LoadAllDone s c g a =>
      mret (mkState s c g a (selectedStudent st) (selectedCourse st) (search st) false)
  | LoadAllFailed =>
      mret (mkState (students st) (courses st) (grades st) (attendance st)
             (selectedStudent st) (selectedCourse st) (search st) false)
  | SearchChanged v =>
      mret (mkState (students st) (courses st) (grades st) (attendance st)
             (selectedStudent st) (selectedCourse st) v (loading st))
  | ClearClicked =>
      mret (mkState (students st) (courses st) (grades st) (attendance st)
             (selectedStudent st) (selectedCourse st) "" (loading st))
  | RowClicked s =>
      mret (mkState (students st) (courses st) (grades st) (attendance st)
             (Some s) (selectedCourse st) (search st) (loading st))
  | CourseChanged v =>
      mret (mkState (students st) (courses st) (grades st) (attendance st)
             (selectedStudent st) (Some v) (search st) (loading st))
  end.

(** [{selectedCourse ? <CourseAttendance courseCode={selectedCourse}
      attendance={attendance} students={students} /> : ...}],
    reached only once [loading] is false. *)
Definition render_course_attendance (st : state) : Eff (option AttendanceView) :=
  if loading st then mret None
  else match selectedCourse st with
       | None => mret None
       | Some code =>
           if falsy code then mret None
           else v ← CourseAttendance (mkProps (Some code) (attendance st) (students st));
                mret (Some v)
       end.

(** What one render pass computes for the markup: the two memos, the
    body of the table ([filteredStudents.slice(0, 200)] with the GPA
    cell), the GPA of [StudentDetail] and the attendance panel. *)
Record page : Set := mkPage {
  filtered : completion (list Student);
  enrollmentData : list MajorCount;
  rows : completion (list (Student * gpa));
  detail : option gpa;
  courseAttendance : option AttendanceView
}.

Definition render (st : state) : Eff page :=
  let filtered := filteredStudents (students st) (search st) in
  let enrollmentData := calculateEnrollmentByMajor (students st) in
  let rows :=
    bind filtered (λ l,
      Normal (List.map (λ s, (s, calcGPAForStudent (s_student_id s) (grades st)))
                       (take 200 l))) in
  let detail :=
    (λ s, calcGPAForStudent (s_student_id s) (grades st)) <$> selectedStudent st in
  panel ← render_course_attendance st;
  mret (mkPage filtered enrollmentData rows detail panel).

(** One step of the running page: an event is handled, then the page is
    rendered again. *)
Definition step (ev : event) (cfg : state * Window) : state * Window :=
  let '(st, w) := cfg in
  let '(st', w') := handle ev st w in
  let '(_, w'') := render st' w' in
  (st', w'').

Inductive reachable : state * Window → Prop :=
| reach_init : reachable (initial, initial_window)
| reach_step ev cfg : reachable cfg → reachable (step ev cfg).

End App.

(* ===================================================================== *)
(** ** The four aggregators as calls against the page *)
(* ===================================================================== *)

Inductive call : Set :=
| ComputeGPA (studentId : option string) (gradeRecords : list GradeRecord)
| EnrollmentByMajor (students : list Student)
| CourseAttendanceOf (p : Props)
| FilterStudents (students : list Student) (query : string).

Inductive output : Set :=
| OutGPA (g : gpa)
| OutEnrollment (l : list MajorCount)
| OutAttendance (v : AttendanceView)
| OutFiltered (c : completion (list Student)).

Definition invoke (c : call) : Eff output :=
  match c with
  | ComputeGPA studentId gradeRecords =>
      mret (OutGPA (calcGPAForStudent studentId gradeRecords))
  | EnrollmentByMajor students =>
      mret (OutEnrollment (calculateEnrollmentByMajor students))
  | CourseAttendanceOf p =>
      v ← CourseAttendance p; mret (OutAttendance v)
  | FilterStudents students query =>
      mret (OutFiltered (filteredStudents students query))
  end.

(* ===================================================================== *)
(** ** The contracts in the words of the specification *)
(* ===================================================================== *)

(** These definitions follow the prose contracts, not the code; the
    theorems below compare the code with them. *)

Module Spec.

Fixpoint Zsum (l : list Z) : Z :=
  match l with
  | [] => 0
  | x :: l' => x + Zsum l'
  end.

(** "single letter, case-insensitive: A/B/C/D/F" *)
Definition letters : list string := ["A"; "B"; "C"; "D"; "F"]%string.

(** The grade letter of a record, upper-cased; a record without a grade
    has none. *)
Definition letter_of (r : GradeRecord) : string :=
  toUpperCase (default ""%string (g_grade r)).

(** "the fixed points table {A:4.0, B:3.0, C:2.0, D:1.0, F:0.0}" *)
Definition points_of_letter (l : string) : option Z :=
  if String.eqb l "A" then Some 4
  else if String.eqb l "B" then Some 3
  else if String.eqb l "C" then Some 2
  else if String.eqb l "D" then Some 1
  else if String.eqb l "F" then Some 0
  else None.

(** "Filters gradeRecords to those matching studentId ... looks it up
    in the fixed points table; records with no match are skipped". *)
Definition surviving_points (studentId : option string) (gradeRecords : list GradeRecord)
  : list Z :=
  omap (λ r, points_of_letter (letter_of r))
       (List.filter (λ g, bool_decide (g_student_id g = studentId)) gradeRecords).

(** [floor (100 * p / c + 1/2)]: for a non-negative mean [p / c], the
    number of hundredths nearest to it, a tie going away from zero. *)
Definition round_half_away_hundredths (p c : Z) : Z := (200 * p + c) / (2 * c).

(** The mean [p / c] lies exactly halfway between two hundredths. *)
Definition halfway (p c : Z) : Prop := (200 * p + c) mod (2 * c) = 0.

(** "the arithmetic mean of surviving points, rounded to 2 decimal
    places using standard round-half-away-from-zero". *)
Definition computeGPA (studentId : option string) (gradeRecords : list GradeRecord) : gpa :=
  match surviving_points studentId gradeRecords with
  | [] => Null
  | pts =>
      Num (Binary64.Number (Binary64.Decimal2
             (round_half_away_hundredths (Zsum pts) (Z.of_nat (length pts)))))
  end.

(** "a missing/empty major is coalesced into the literal category
    Undeclared" *)
Definition major_of (s : Student) : string :=
  match s_major s with
  | None => "Undeclared"
  | Some m => if String.eqb m "" then "Undeclared" else m
  end.

(** The distinct elements of a list in the order of their first
    occurrence. *)
Fixpoint first_occurrences (l : list string) : list string :=
  match l with
  | [] => []
  | x :: l' => x :: List.filter (λ y, negb (String.eqb y x)) (first_occurrences l')
  end.

Definition occurrences (x : string) (l : list string) : Z :=
  Z.of_nat (length (List.filter (String.eqb x) l)).

(** "Output order is insertion order of first occurrence of each major
    in the input sequence"; "count is the number of students in that
    group". *)
Definition enrollmentByMajor (students : list Student) : list MajorCount :=
  let majors := List.map major_of students in
  List.map (λ m, mkMajorCount m (JsObject.VNum (occurrences m majors)))
           (first_occurrences majors).

(** "the set of student_id values appearing in any gradeRecords entry
    whose course_code equals the given courseCode" *)
Definition enrolled_in (courseCode : option string) (gradeRecords : list GradeRecord)
  (id : option string) : Prop :=
  ∃ g, g ∈ gradeRecords ∧ g_course_code g = courseCode ∧ g_student_id g = id.

(** "trim and case-fold attendance_status: exact match present ->
    Present bucket, exact match absent -> Absent bucket, anything else
    (including empty string) -> Other bucket" *)
Inductive bucket : Set := BPresent | BAbsent | BOther.

Definition bucket_of (a : AttendanceRecord) : bucket :=
  let s := toLowerCase (trim (default ""%string (a_attendance_status a))) in
  if String.eqb s "present" then BPresent
  else if String.eqb s "absent" then BAbsent
  else BOther.

Definition bucket_eqb (x y : bucket) : bool :=
  match x, y with
  | BPresent, BPresent | BAbsent, BAbsent | BOther, BOther => true
  | _, _ => false
  end.

(** The number of attendance records of enrolled students that fall in
    a bucket. *)
Definition counted (ids : gset (option string)) (b : bucket) (att : list AttendanceRecord) : Z :=
  Z.of_nat (length (List.filter
    (λ a, bool_decide (a_student_id a ∈ ids) && bucket_eqb (bucket_of a) b) att)).

(** "Empty/whitespace-only query" *)
Fixpoint whitespace_only (q : string) : Prop :=
  match q with
  | EmptyString => True
  | String c q' => is_white c = true ∧ whitespace_only q'
  end.

(** "contains the query as a case-insensitive substring" *)
Definition contains_ci (s q : string) : Prop :=
  ∃ pre mid post, s = (pre ++ mid ++ post)%string ∧ toLowerCase mid = toLowerCase q.

(** "a student matches if its student_id OR name contains the query" *)
Definition student_matches (q : string) (s : Student) : Prop :=
  (∃ id, s_student_id s = Some id ∧ contains_ci id q)
  ∨ (∃ n, s_name s = Some n ∧ contains_ci n q).

End Spec.

(* ===================================================================== *)
(** ** Sample data *)
(* ===================================================================== *)

Module Sample.
Local Open Scope string_scope.

(** The two records of the specification's GPA example. *)
Definition grades_A_B : list GradeRecord :=
  [mkGrade (Some "S1") (Some "C1") (Some "A");
   mkGrade (Some "S1") (Some "C2") (Some "B")].

(** Forty graded courses of one student: three D and thirty-seven F, a
    mean of 3/40 = 0.075. *)
Definition grades_3D_37F : list GradeRecord :=
  replicate 3 (mkGrade (Some "S1") (Some "C") (Some "D"))
    ++ replicate 37 (mkGrade (Some "S1") (Some "C") (Some "F")).

(** Eight graded courses of one student: one D and seven F, a mean of
    1/8 = 0.125, which a double holds exactly. *)
Definition grades_1D_7F : list GradeRecord :=
  mkGrade (Some "S1") (Some "C") (Some "d")
    :: replicate 7 (mkGrade (Some "S1") (Some "C") (Some "F")).

(** Every grade of the student is unrecognised. *)
Definition grades_z : list GradeRecord :=
  [mkGrade (Some "S1") (Some "C1") (Some "z");
   mkGrade (Some "S1") (Some "C2") (Some "z");
   mkGrade (Some "S2") (Some "C1") (Some "A")].

(** A small data set: two students, one of them graded in course C1. *)
Definition students : list Student :=
  [mkStudent (Some "S1") (Some "Ann Lee") (Some "CS") (Some "2");
   mkStudent (Some "S2") None (Some "7") (Some "1")].

Definition courses : list Course :=
  [mkCourse (Some "C1") (Some "Logic") (Some "Kim")].

Definition grades : list GradeRecord :=
  [mkGrade (Some "S1") (Some "C1") (Some "A")].

Definition attendance : list AttendanceRecord :=
  [mkAttendance (Some "S1") (Some "2024-01-01") (Some " present ");
   mkAttendance (Some "S1") (Some "2024-01-02") (Some "ABSENT");
   mkAttendance (Some "S1") (Some "2024-01-03") (Some "tardy");
   mkAttendance (Some "S2") (Some "2024-01-01") (Some "Present")].

Definition props : Props := mkProps (Some "C1") attendance students.

(** The page after the four files have loaded and course C1 has been
    chosen in the selector. *)
Definition loaded_C1 : App.state * Window :=
  App.step (App.CourseChanged "C1")
    (App.step (App.LoadAllDone students courses grades attendance)
       (App.initial, initial_window)).

(** A page on which something did store the grade records. *)
Definition window_with_grades : Window := mkWindow (Some grades).

(** The three students of the specification's enrollment example. *)
Definition students_CS_CS_empty : list Student :=
  [mkStudent (Some "S1") None (Some "CS") None;
   mkStudent (Some "S2") None (Some "CS") None;
   mkStudent (Some "S3") None (Some "") None].

(** A student whose row lacks the [student_id] column. *)
Definition students_missing_id : list Student :=
  [mkStudent (Some "S1") (Some "Ann Lee") (Some "CS") (Some "2");
   mkStudent None (Some "Bo") (Some "CS") (Some "1")].
End Sample.

(* ===================================================================== *)
(** ** Auxiliary notions *)
(* ===================================================================== *)

(** The total of an attendance output, 0 for the other outputs. *)
Definition output_total (o : output) : Z :=
  match o with
  | OutAttendance v => total v
  | _ => 0
  end.

(** An object all of whose values are numbers. *)
Definition numbers (l : list (string * Z)) : JsObject.t :=
  List.map (λ p, (p.1, JsObject.VNum p.2)) l.

(** The counting loop of [calculateEnrollmentByMajor] on such an object. *)
Definition bump (l : list (string * Z)) (m : string) : list (string * Z) :=
  match assoc m l with
  | Some n => JsObject.replace m (n + 1) l
  | None => l ++ [(m, 1)]
  end.

Definition entry_of (p : string * JsObject.value) : MajorCount :=
  mkMajorCount p.1 p.2.

(** Ascending numeric order of the keys of two entries. *)
Definition index_le (p q : string * JsObject.value) : Prop :=
  JsObject.index_or_zero p.1 ≤ JsObject.index_or_zero q.1.

(** Ascending numeric order of the majors of two groups. *)
Definition major_index_le (g h : MajorCount) : Prop :=
  JsObject.index_or_zero (major g) ≤ JsObject.index_or_zero (major h).

(** The major of a group is an array index. *)
Definition indexed_major (g : MajorCount) : bool := JsObject.is_index (major g).

(** A grade record with the case of its letter changed by [f]. *)
Definition recase (f : string → string) (r : GradeRecord) : GradeRecord :=
  mkGrade (g_student_id r) (g_course_code r) (f <$> g_grade r).

(* ===================================================================== *)
(** ** The student detail panel *)
(* ===================================================================== *)

(** [l.slice(-n)]: the last [n] elements, all of them when there are
    fewer. *)
Definition slice_last {A : Type} (n : nat) (l : list A) : list A :=
  drop (length l - n) l.

Module Detail.

(** The props of [StudentDetail]. *)
Record props : Set := mkProps {
  student : Student;
  grades : list GradeRecord;
  courses : list Course;
  attendance : list AttendanceRecord
}.

(** One row of the grades table: the code, the name that follows the dash
    (none when [c.name] is falsy) and the grade. *)
Record grade_row : Set := mkRow {
  row_course_code : option string;
  row_course_name : option string;
  row_grade : option string
}.

Record view : Set := mkView {
  sGrades : list GradeRecord;
  gpa_shown : gpa;
  grade_rows : list grade_row;
  recent : list AttendanceRecord
}.

(** [courses.find((x) => x.course_code === g.course_code) || {}] followed
    by the test [c.name ? ... : ""]. *)
Definition course_name (courses : list Course) (g : GradeRecord) : option string :=
  match List.find (λ x, bool_decide (c_course_code x = g_course_code g)) courses with
  | Some c =>
      match c_name c with
      | Some n => if falsy n then None else Some n
      | None => None
      end
  | None => None
  end.

End Detail.

(** [function StudentDetail({ student, grades, courses, attendance })] *)
Definition StudentDetail (p : Detail.props) : Detail.view :=
  let id := s_student_id (Detail.student p) in
  let sGrades := List.filter (λ g, bool_decide (g_student_id g = id)) (Detail.grades p) in
  let gpa := calcGPAForStudent id (Detail.grades p) in
  Detail.mkView sGrades gpa
    (List.map (λ g, Detail.mkRow (g_course_code g)
                      (Detail.course_name (Detail.courses p) g) (g_grade g)) sGrades)
    (rev (slice_last 10
            (List.filter (λ a, bool_decide (a_student_id a = id)) (Detail.attendance p)))).

(* ===================================================================== *)
(** ** Loading the four files *)
(* ===================================================================== *)

(** A row as the CSV parser hands it out with [header: true]: an object
    with one text property per column present in the row.  None of the
    nine column names read below is a name objects inherit, so [r.column]
    is the own property or [undefined]. *)
Definition to_student (r : gmap string string) : Student :=
  mkStudent (r !! "student_id"%string) (r !! "name"%string)
            (r !! "major"%string) (r !! "year"%string).

Definition to_course (r : gmap string string) : Course :=
  mkCourse (r !! "course_code"%string) (r !! "name"%string) (r !! "instructor"%string).

Definition to_grade (r : gmap string string) : GradeRecord :=
  mkGrade (r !! "student_id"%string) (r !! "course_code"%string) (r !! "grade"%string).

Definition to_attendance (r : gmap string string) : AttendanceRecord :=
  mkAttendance (r !! "student_id"%string) (r !! "date"%string)
               (r !! "attendance_status"%string).

(** The state updates of [loadAll] once the four parses have resolved. *)
Definition loadAll_resolved (s c g a : list (gmap string string)) : App.event :=
  App.LoadAllDone (List.map to_student s) (List.map to_course c)
                  (List.map to_grade g) (List.map to_attendance a).

(* ===================================================================== *)
(** ** Further auxiliary notions *)
(* ===================================================================== *)

(** The number of elements of [l] equal to [x]. *)
Definition occurrences_nat (x : string) (l : list string) : nat :=
  length (List.filter (String.eqb x) l).

(** [k] times the digit 1. *)
Fixpoint ones (k : nat) : string :=
  match k with
  | O => ""
  | S k' => ones k' ++ "1"
  end.

(** What the counting loop of [calculateEnrollmentByMajor] holds for a
    major seen [k] times: the number [k], or, when the major names a
    method that objects inherit, the text of that method followed by [k]
    ones. *)
Definition count_value (m : string) (k : nat) : JsObject.value :=
  if bool_decide (m ∈ objectPrototypeNames)
  then JsObject.VStr (JsObject.method_text m ++ ones k)
  else JsObject.VNum (Z.of_nat k).

Definition is_proto (m : string) : bool := String.eqb m "__proto__".

(** The major is not the name of a property that objects inherit. *)
Definition not_inherited (m : string) : bool :=
  negb (bool_decide (m ∈ objectPrototypeNames)).

(** The counting object that the loop ends with, as a function of the
    majors of the students. *)
Definition counting_object (majors : list string) : JsObject.t :=
  List.map (λ m, (m, count_value m (occurrences_nat m majors)))
           (Spec.first_occurrences (List.filter (λ m, negb (is_proto m)) majors)).

(** The count of a group when it is a number, 0 otherwise. *)
Definition count_number (g : MajorCount) : Z :=
  match count g with
  | JsObject.VNum n => n
  | JsObject.VStr _ => 0
  end.

(** The GPA that a list of grade points yields. *)
Definition gpa_of_points (pts : list Z) : gpa :=
  match pts with
  | [] => Null
  | _ :: _ =>
      Num (Binary64.Number (Binary64.toFixed2
             (Binary64.div_int (Spec.Zsum pts) (Z.of_nat (length pts)))))
  end.

(** The query as the filter uses it. *)
Definition normalized (query : string) : string := toLowerCase (trim query).

(** The string is empty or begins with a character that is not white
    space. *)
Definition starts_black (s : string) : Prop :=
  match s with
  | EmptyString => True
  | String c _ => is_white c = false
  end.

(** Component-wise sum of two tallies. *)
Definition stats_add (x y : Stats) : Stats :=
  mkStats (Present x + Present y) (Absent x + Absent y) (Other x + Other y).

(* ===================================================================== *)
(** ** White space and letter case, as the specification means them *)
(* ===================================================================== *)

(** The notions the specification uses for text ("trimmed",
    "case-insensitive", "whitespace-only"), written out on the
    characters themselves, with the white space characters and the
    pairs of letters listed one by one.  Nothing here calls [trim],
    [toLowerCase] or [toUpperCase]: the results below compare what the
    code computes with these. *)

Module Text.

Local Open Scope char_scope.

(** TAB, LF, VT, FF, CR and SPACE. *)
Definition white_space : list ascii :=
  ["009"; "010"; "011"; "012"; "013"; " "].

(** The capital letters and, in the same order, the small letters. *)
Definition capital_letters : string := "ABCDEFGHIJKLMNOPQRSTUVWXYZ".

Definition small_letters : string := "abcdefghijklmnopqrstuvwxyz".

(** Each capital letter with its small letter. *)
Definition letter_pairs : list (ascii * ascii) :=
  zip (list_ascii_of_string capital_letters) (list_ascii_of_string small_letters).

(** The same character, or the same letter in the other case. *)
Definition same_letter (c d : ascii) : Prop :=
  c = d ∨ (c, d) ∈ letter_pairs ∨ (d, c) ∈ letter_pairs.

(** Equal without regard to case: the same length, and the same letter
    at each position. *)
Fixpoint same_letters (s t : string) : Prop :=
  match s, t with
  | EmptyString, EmptyString => True
  | String c s', String d t' => same_letter c d ∧ same_letters s' t'
  | _, _ => False
  end.

(** Made of white space only (the empty string included). *)
Fixpoint all_white (s : string) : Prop :=
  match s with
  | EmptyString => True
  | String c s' => c ∈ white_space ∧ all_white s'
  end.

(** Neither the first nor the last character is white space. *)
Definition no_white_ends (s : string) : Prop :=
  (∀ c rest, s = String c rest → c ∉ white_space)
  ∧ (∀ init c, s = (init ++ String c EmptyString)%string → c ∉ white_space).

(** [core] is [s] without its leading and trailing white space. *)
Definition trimmed_to (s core : string) : Prop :=
  ∃ pre post, s = (pre ++ core ++ post)%string
              ∧ all_white pre ∧ all_white post ∧ no_white_ends core.

(** [q] occurs in [s] without regard to case. *)
Definition contains (s q : string) : Prop :=
  ∃ pre mid post, s = (pre ++ mid ++ post)%string ∧ same_letters mid q.

(** "a student matches if its student_id OR name contains the query as
    a case-insensitive substring" *)
Definition student_matches (q : string) (s : Student) : Prop :=
  (∃ id, s_student_id s = Some id ∧ contains id q)
  ∨ (∃ n, s_name s = Some n ∧ contains n q).

(** The status text of an attendance record, empty when the column is
    missing. *)
Definition status_of (a : AttendanceRecord) : string :=
  default ""%string (a_attendance_status a).

(** "trim and case-fold attendance_status: exact match present ->
    Present bucket, exact match absent -> Absent bucket, anything else
    (including empty string) -> Other bucket" *)
Definition status_is (b : Spec.bucket) (status : string) : Prop :=
  ∃ core, trimmed_to status core
          ∧ match b with
            | Spec.BPresent => same_letters core "present"
            | Spec.BAbsent => same_letters core "absent"
            | Spec.BOther => ¬ same_letters core "present" ∧ ¬ same_letters core "absent"
            end.

(** The number of records of students in [ids] that [classify] puts in
    bucket [b]. *)
Definition counted (ids : gset (option string)) (classify : AttendanceRecord → Spec.bucket)
  (b : Spec.bucket) (att : list AttendanceRecord) : Z :=
  Z.of_nat (length (List.filter
    (λ a, bool_decide (a_student_id a ∈ ids) && Spec.bucket_eqb (classify a) b) att)).

End Text.

(* ===================================================================== *)
(** ** The aggregators on objects in memory *)
(* ===================================================================== *)

(** The functions above take their arguments by value.  In the program
    an argument is a reference to an array of objects that the caller
    keeps using, and [window] is shared by all the code of the page.
    This section gives the four aggregators once more, statement by
    statement, against a memory of objects: a property read is a [load],
    an assignment to a property is a [store], and a literal, [new] or a
    built-in that returns a new array is an [alloc].  What a function
    reads and writes is then what its run does to the memory. *)

Module Mem.

(** An object, by what the program keeps in it: a row of one of the CSV
    files, an array of references, the plain object [map], an element
    [{ major, count }] of the enrollment result, a [Set], the object
    [stats], an element [{ name, value }] of [chartData]. *)
Inductive cell : Type :=
| CStudent (s : Student)
| CGrade (g : GradeRecord)
| CAttendance (a : AttendanceRecord)
| CArray (elems : list nat)
| CMap (o : JsObject.t)
| CMajorCount (g : MajorCount)
| CSet (ids : gset (option string))
| CStats (st : Stats)
| CDatum (name : string) (value : Z).

(** The memory: the objects, a reference being a position in the list,
    and the property [window.__internal_grades_for_app], a reference to
    an array or [undefined]. *)
Record t : Type := mk {
  cells : list cell;
  internal_grades : option nat
}.

(** A run from a memory completes normally or throws, and leaves a
    memory; [None] is a run that went wrong on an object of the wrong
    kind or on a reference to nothing. *)
Definition M (A : Type) : Type := t → option (completion A * t).

#[global] Instance M_ret : MRet M := λ A a m, Some (Normal a, m).

#[global] Instance M_bind : MBind M :=
  λ A B k x m,
    match x m with
    | Some (Normal a, m') => k a m'
    | Some (TypeError, m') => Some (TypeError, m')
    | None => None
    end.

Definition fail {A : Type} : M A := λ _, None.

(** A pure piece of code that may throw. *)
Definition lift {A : Type} (c : completion A) : M A := λ m, Some (c, m).

(** A new object. *)
Definition alloc (c : cell) : M nat :=
  λ m, Some (Normal (length (cells m)), mk (cells m ++ [c]) (internal_grades m)).

Definition load (l : nat) : M cell :=
  λ m, match cells m !! l with
       | Some c => Some (Normal c, m)
       | None => None
       end.

(** An assignment to a property of an object. *)
Definition store (l : nat) (c : cell) : M unit :=
  λ m, match cells m !! l with
       | Some _ => Some (Normal tt, mk (<[l := c]> (cells m)) (internal_grades m))
       | None => None
       end.

Definition student (c : cell) : option Student :=
  match c with CStudent s => Some s | _ => None end.

Definition grade (c : cell) : option GradeRecord :=
  match c with CGrade g => Some g | _ => None end.

Definition attendance_record (c : cell) : option AttendanceRecord :=
  match c with CAttendance a => Some a | _ => None end.

Definition array (c : cell) : option (list nat) :=
  match c with CArray e => Some e | _ => None end.

Definition map_object (c : cell) : option JsObject.t :=
  match c with CMap o => Some o | _ => None end.

Definition set (c : cell) : option (gset (option string)) :=
  match c with CSet s => Some s | _ => None end.

Definition stats_object (c : cell) : option Stats :=
  match c with CStats st => Some st | _ => None end.

(** Reading an object of a given kind through a reference. *)
Definition read {X : Type} (kind : cell → option X) (l : nat) : M X :=
  c ← load l;
  match kind c with
  | Some x => mret x
  | None => fail
  end.

(** [for (const x of elems) body], the variables that the body updates
    being [s]. *)
Fixpoint for_of {S : Type} (body : S → nat → M S) (s : S) (elems : list nat) : M S :=
  match elems with
  | [] => mret s
  | l :: rest => s' ← body s l; for_of body s' rest
  end.

Fixpoint filterM (cb : nat → M bool) (elems : list nat) : M (list nat) :=
  match elems with
  | [] => mret []
  | l :: rest =>
      cb l ≫= λ keep : bool,
      kept ← filterM cb rest;
      mret (if keep then l :: kept else kept)
  end.

(** [arr.filter(cb)]: a new array of the references that [cb] keeps. *)
Definition array_filter (arr : nat) (cb : nat → M bool) : M nat :=
  elems ← read array arr;
  kept ← filterM cb elems;
  alloc (CArray kept).

(** New objects, one after the other. *)
Fixpoint allocs (cs : list cell) : M (list nat) :=
  match cs with
  | [] => mret []
  | c :: rest => l ← alloc c; ls ← allocs rest; mret (l :: ls)
  end.

(** The getter of [window.__GRADES_FOR_APP]:
    [return window.__internal_grades_for_app || [];] *)
Definition get___GRADES_FOR_APP : M nat :=
  λ m, match internal_grades m with
       | Some l => Some (Normal l, m)
       | None => alloc (CArray []) m
       end.

(** What [calcGPAForStudent] returns after its loop. *)
Definition gpa_result (a : GpaLoop.acc) : gpa :=
  if GpaLoop.count a =? 0 then Null
  else match GpaLoop.totalPoints a with
       | Some p => Num (Binary64.Number (Binary64.toFixed2 (Binary64.div_int p (GpaLoop.count a))))
       | None => NaN
       end.

(** [function calcGPAForStudent(studentId, grades)] *)
Definition calcGPAForStudent (studentId : option string) (grades : nat) : M gpa :=
  recs ← array_filter grades
           (λ l, g ← read grade l; mret (bool_decide (g_student_id g = studentId)));
  elems ← read array recs;
  if Z.of_nat (length elems) =? 0 then mret Null
  else
    a ← for_of (λ a l, r ← read grade l; mret (GpaLoop.step a r)) GpaLoop.init elems;
    mret (gpa_result a).

(** [function calculateEnrollmentByMajor(students)] *)
Definition calculateEnrollmentByMajor (students : nat) : M nat :=
  map ← alloc (CMap JsObject.empty);
  elems ← read array students;
  _ ← for_of (λ _ l,
               s ← read student l;
               o ← read map_object map;
               store map (CMap (enrollment_step o s)))
             tt elems;
  o ← read map_object map;
  objs ← allocs ((λ '(major, count), CMajorCount (mkMajorCount major count))
                   <$> JsObject.entries o);
  alloc (CArray objs).

(** The [filteredStudents] memo.  With a blank query the result is the
    array [students] itself. *)
Definition filteredStudents (students : nat) (search : string) : M nat :=
  let q := toLowerCase (trim search) in
  if falsy q then mret students
  else array_filter students (λ l, s ← read student l; lift (matches q s)).

(** What [CourseAttendance] has computed when it builds its markup. *)
Record view : Set := mkView {
  r_enrolledStudentIds : nat;
  r_enrolled : nat;
  r_stats : nat;
  r_total : Z;
  r_chartData : nat;
  r_sample : nat
}.

(** [function CourseAttendance({ courseCode, attendance, students })],
    with the [enrolled.slice(0, 10)] of its markup. *)
Definition CourseAttendance (courseCode : option string) (attendance students : nat) : M view :=
  ids ← alloc (CSet ∅);
  globalGrades ← get___GRADES_FOR_APP;
  gs ← read array globalGrades;
  _ ← for_of (λ _ l,
               g ← read grade l;
               if bool_decide (g_course_code g = courseCode)
               then e ← read set ids; store ids (CSet ({[ g_student_id g ]} ∪ e))
               else mret tt)
             tt gs;
  enrolled ← array_filter students
               (λ l, s ← read student l;
                     e ← read set ids;
                     mret (bool_decide (s_student_id s ∈ e)));
  stats ← alloc (CStats (mkStats 0 0 0));
  records ← read array attendance;
  _ ← for_of (λ _ l,
               a ← read attendance_record l;
               e ← read set ids;
               if negb (bool_decide (a_student_id a ∈ e)) then mret tt
               else st ← read stats_object stats; store stats (CStats (tally_step e st a)))
             tt records;
  st ← read stats_object stats;
  d1 ← alloc (CDatum "Present" (Present st));
  d2 ← alloc (CDatum "Absent" (Absent st));
  d3 ← alloc (CDatum "Other" (Other st));
  chart ← alloc (CArray [d1; d2; d3]);
  e ← read array enrolled;
  shown ← alloc (CArray (take 10 e));
  mret (mkView ids enrolled stats (Present st + Absent st + Other st) chart shown).

(** The array at [l] holds references to objects that are, in order,
    the values [xs], each stored as [kind] says. *)
Definition array_of {X : Type} (kind : X → cell) (m : t) (l : nat) (xs : list X) : Prop :=
  ∃ elems, cells m !! l = Some (CArray elems)
           ∧ Forall2 (λ e x, cells m !! e = Some (kind x)) elems xs.

(** The grade records that [window.__GRADES_FOR_APP] gives: those of
    the stored array, none when nothing is stored. *)
Definition global_grades (m : t) (gs : list GradeRecord) : Prop :=
  match internal_grades m with
  | Some l => array_of CGrade m l gs
  | None => gs = []
  end.

(** Every object of [m] is in [m'] at the same place, with the same
    content, and [window.__internal_grades_for_app] is the same. *)
Definition unchanged (m m' : t) : Prop :=
  internal_grades m' = internal_grades m ∧ cells m `prefix_of` cells m'.

(** The view in memory holds what [v] says. *)
Definition view_of (m : t) (r : view) (v : AttendanceView) : Prop :=
  cells m !! r_enrolledStudentIds r = Some (CSet (enrolledStudentIds v))
  ∧ array_of CStudent m (r_enrolled r) (enrolled v)
  ∧ cells m !! r_stats r = Some (CStats (stats v))
  ∧ r_total r = total v
  ∧ array_of CStudent m (r_sample r) (sample v).

End Mem.

(** A memory that holds the sample data: the two students and their
    array, the one grade record and its array, the four attendance
    records and their array; the page has stored the grade records. *)
Definition sample_memory : Mem.t :=
  Mem.mk
    ((Mem.CStudent <$> Sample.students) ++ [Mem.CArray [0; 1]]
     ++ (Mem.CGrade <$> Sample.grades) ++ [Mem.CArray [3]]
     ++ (Mem.CAttendance <$> Sample.attendance) ++ [Mem.CArray [5; 6; 7; 8]])%nat
    (Some 4%nat).

(** The same memory on a page that has stored nothing. *)
Definition sample_memory_unset : Mem.t :=
  Mem.mk (Mem.cells sample_memory) None.
(* ===================================================================== *)
(** * Properties *)
(* ===================================================================== *)

(** Case analysis on membership in a list that is written out: [tac]
    is run on each element in turn. *)
Ltac each_member H tac :=
  repeat (apply elem_of_cons in H as [-> | H]; [tac |]);
  try (by apply elem_of_nil in H).

(** ** Strings *)

Section StringFacts.

Lemma upper_char_idem c : upper_char (upper_char c) = upper_char c.
Proof. destruct c as [[] [] [] [] [] [] [] []]; reflexivity. Qed.

Lemma lower_char_idem c : lower_char (lower_char c) = lower_char c.
Proof. destruct c as [[] [] [] [] [] [] [] []]; reflexivity. Qed.

Lemma upper_lower_char c : upper_char (lower_char c) = upper_char c.
Proof. destruct c as [[] [] [] [] [] [] [] []]; reflexivity. Qed.

Lemma lower_upper_char c : lower_char (upper_char c) = lower_char c.
Proof. destruct c as [[] [] [] [] [] [] [] []]; reflexivity. Qed.

Lemma map_chars_compose f g s : map_chars f (map_chars g s) = map_chars (f ∘ g) s.
Proof. induction s as [|c s IH]; simpl; [done | by rewrite IH]. Qed.

Lemma map_chars_ext f g s : (∀ c, f c = g c) → map_chars f s = map_chars g s.
Proof. intros E. induction s as [|c s IH]; simpl; [done | by rewrite E, IH]. Qed.

Lemma map_chars_app f s1 s2 :
  map_chars f (s1 ++ s2)%string = (map_chars f s1 ++ map_chars f s2)%string.
Proof. induction s1 as [|c s1 IH]; simpl; [done | by rewrite IH]. Qed.

Lemma map_chars_length f s : String.length (map_chars f s) = String.length s.
Proof. induction s as [|c s IH]; simpl; [done | by rewrite IH]. Qed.

Lemma toUpperCase_idem s : toUpperCase (toUpperCase s) = toUpperCase s.
Proof.
  unfold toUpperCase. rewrite map_chars_compose.
  apply map_chars_ext. intros c. apply upper_char_idem.
Qed.

Lemma toLowerCase_idem s : toLowerCase (toLowerCase s) = toLowerCase s.
Proof.
  unfold toLowerCase. rewrite map_chars_compose.
  apply map_chars_ext. intros c. apply lower_char_idem.
Qed.

(** Upper-casing forgets the case of its argument. *)
Lemma toUpperCase_toLowerCase s : toUpperCase (toLowerCase s) = toUpperCase s.
Proof.
  unfold toUpperCase, toLowerCase. rewrite map_chars_compose.
  apply map_chars_ext. intros c. apply upper_lower_char.
Qed.

Lemma toLowerCase_toUpperCase s : toLowerCase (toUpperCase s) = toLowerCase s.
Proof.
  unfold toUpperCase, toLowerCase. rewrite map_chars_compose.
  apply map_chars_ext. intros c. apply lower_upper_char.
Qed.

(** No inherited property name survives upper-casing, so the test
    [letter in gradePoints] only ever sees the five own keys. *)
Lemma toUpperCase_not_inherited s : toUpperCase s ∉ objectPrototypeNames.
Proof.
  intros Hin.
  assert (Hfix : toUpperCase (toUpperCase s) = toUpperCase s) by apply toUpperCase_idem.
  revert Hfix. generalize dependent (toUpperCase s). intros u Hin.
  unfold objectPrototypeNames in Hin.
  each_member Hin ltac:(by vm_compute).
Qed.

Lemma prefix_correct q s :
  String.prefix q s = true ↔ ∃ post, s = (q ++ post)%string.
Proof.
  revert s. induction q as [|c q IH]; intros [|c' s]; simpl.
  - split; eauto.
  - split; eauto.
  - split; [done | by intros [? ?]].
  - destruct (Ascii.ascii_dec c c') as [-> | Hne].
    + rewrite IH. split; intros [post H]; exists post; [by rewrite H |].
      change (String c' s = String c' (q +:+ post)) in H. congruence.
    + split; [done | intros [post H]].
      change (String c' s = String c (q +:+ post)) in H. congruence.
Qed.

Lemma includes_nil q : includes "" q = String.prefix q "".
Proof. unfold includes. apply orb_false_r. Qed.

Lemma includes_cons c s q :
  includes (String c s) q = String.prefix q (String c s) || includes s q.
Proof. reflexivity. Qed.

(** [includes] is the substring relation. *)
Lemma includes_correct s q :
  includes s q = true ↔ ∃ pre post, s = (pre ++ q ++ post)%string.
Proof.
  induction s as [|c s IH].
  - rewrite includes_nil, prefix_correct. split.
    + intros [post H]. by exists ""%string, post.
    + intros [pre [post H]]. destruct pre; [by exists post | done].
  - rewrite includes_cons, orb_true_iff, IH, prefix_correct. split.
    + intros [[post H] | [pre [post H]]].
      * by exists ""%string, post.
      * exists (String c pre), post. by rewrite H.
    + intros [pre [post H]]. destruct pre as [|c' pre].
      * left. by exists post.
      * right. exists pre, post.
        change (String c s = String c' (pre +:+ q +:+ post)) in H. congruence.
Qed.

End StringFacts.

(** ** Binary64 *)

Section Binary64Facts.

Import Binary64.

Lemma pow2_pos k : 0 ≤ k → 0 < 2 ^ k.
Proof. intros. by apply Z.pow_pos_nonneg. Qed.

Lemma pow2_succ k : 0 ≤ k → 2 ^ (k + 1) = 2 * 2 ^ k.
Proof. intros. rewrite Z.pow_add_r by lia. lia. Qed.

(** The rounded quotient is within half a unit of the exact one. *)
Lemma round_half_even_error a b :
  0 ≤ a → 0 < b →
  - b ≤ 2 * (round_half_even a b * b - a) ≤ b.
Proof.
  intros Ha Hb. unfold round_half_even.
  pose proof (Z.div_mod a b ltac:(lia)) as Hdm.
  pose proof (Z.mod_pos_bound a b Hb) as Hr.
  repeat case_match; rewrite ?Z.ltb_lt, ?Z.ltb_ge in *; nia.
Qed.

Lemma round_half_even_nonneg a b : 0 ≤ a → 0 < b → 0 ≤ round_half_even a b.
Proof.
  intros Ha Hb. unfold round_half_even.
  pose proof (Z.div_pos a b Ha Hb).
  repeat case_match; lia.
Qed.

(** [ilog2_ratio] locates the quotient between two powers of two: scaled
    by it, the quotient has exactly 53 significant bits. *)
Lemma ilog2_ratio_scale a b :
  0 < a → 0 < b →
  let '(n, d) := scale a b (ilog2_ratio a b - 52) in
  0 < d ∧ 2 ^ 52 * d ≤ n < 2 ^ 53 * d.
Proof.
  intros Ha Hb. unfold ilog2_ratio, scale.
  destruct (Z.leb_spec b a) as [Hle | Hlt].
  - assert (Hq : 0 < a / b) by (apply Z.div_str_pos; lia).
    pose proof (Z.log2_spec (a / b) Hq) as [Hlo Hhi].
    pose proof (Z.log2_nonneg (a / b)) as HL.
    set (L := Z.log2 (a / b)) in *.
    rewrite <- Z.add_1_r in Hhi. rewrite (pow2_succ L HL) in Hhi.
    assert (HbL : 2 ^ L * b ≤ a).
    { pose proof (Z.mul_div_le a b Hb). nia. }
    assert (HbU : a < 2 * 2 ^ L * b).
    { pose proof (Z.div_mod a b ltac:(lia)). pose proof (Z.mod_pos_bound a b Hb). nia. }
    pose proof (pow2_pos L HL) as HpL.
    destruct (Z.leb_spec 0 (L - 52)) as [He | He].
    + pose proof (pow2_pos (L - 52) He) as Hp.
      assert (E : 2 ^ L = 2 ^ 52 * 2 ^ (L - 52)).
      { rewrite <- Z.pow_add_r by lia. f_equal. lia. }
      change (2 ^ 53) with (2 * 2 ^ 52). split; [lia | nia].
    + assert (Hk : 0 ≤ - (L - 52)) by lia.
      pose proof (pow2_pos _ Hk) as Hp.
      assert (E : 2 ^ 52 = 2 ^ L * 2 ^ (- (L - 52))).
      { rewrite <- Z.pow_add_r by lia. f_equal. lia. }
      change (2 ^ 53) with (2 * 2 ^ 52). rewrite E. split; [lia | nia].
  - set (x := (b + a - 1) / a).
    assert (Hx : 1 < x).
    { unfold x. pose proof (Z.div_le_lower_bound (b + a - 1) a 2 Ha ltac:(lia)). lia. }
    pose proof (Z.log2_up_spec x Hx) as [Hlo Hhi].
    assert (Hj : 0 < Z.log2_up x) by (apply Z.log2_up_pos; lia).
    set (j := Z.log2_up x) in *.
    assert (Hceil : a * x ≤ b + a - 1 < a * x + a).
    { unfold x. pose proof (Z.div_mod (b + a - 1) a ltac:(lia)).
      pose proof (Z.mod_pos_bound (b + a - 1) a Ha). lia. }
    replace (Z.pred j) with (j - 1) in Hlo by lia.
    assert (Ej : 2 ^ j = 2 * 2 ^ (j - 1)).
    { rewrite <- (pow2_succ (j - 1)) by lia. f_equal. lia. }
    pose proof (pow2_pos (j - 1) ltac:(lia)) as Hp.
    destruct (Z.leb_spec 0 (- j - 52)) as [He | He]; [lia |].
    replace (- (- j - 52)) with (52 + j) by lia.
    rewrite Z.pow_add_r by lia. change (2 ^ 53) with (2 * 2 ^ 52).
    split; [lia | nia].
Qed.

(** The double nearest to [a / b], below 2^52: a fraction [m / 2^K] whose
    distance from [a / b] is at most half a unit in the last place. *)
Lemma of_ratio_fraction a b :
  0 < a → 0 < b → a < 2 ^ 52 * b →
  ∃ m K, fraction (of_ratio a b) = (m, 2 ^ K) ∧ 0 ≤ K ∧ 0 ≤ m ∧
         - b ≤ 2 * (m * b - a * 2 ^ K) ≤ b ∧ 2 ^ 51 * b ≤ a * 2 ^ K
         ∧ 2 ^ 52 ≤ m < 2 ^ 53.
Proof.
  intros Ha Hb Hlt. unfold of_ratio.
  destruct (Z.eqb_spec a 0) as [-> | _]; [lia |].
  pose proof (ilog2_ratio_scale a b Ha Hb) as Hs.
  set (e := ilog2_ratio a b - 52) in *.
  unfold scale in Hs.
  destruct (Z.leb_spec 0 e) as [He | He].
  { destruct Hs as [_ [Hs _]]. pose proof (pow2_pos e He). nia. }
  unfold scale. destruct (Z.leb_spec 0 e) as [? | _]; [lia |].
  destruct Hs as [_ [Hlo Hhi]].
  set (K := - e) in *. assert (HK : 0 < K) by lia.
  pose proof (pow2_pos K ltac:(lia)) as HpK.
  pose proof (round_half_even_error (a * 2 ^ K) b ltac:(nia) Hb) as Herr.
  pose proof (round_half_even_nonneg (a * 2 ^ K) b ltac:(nia) Hb) as Hm.
  set (m := round_half_even (a * 2 ^ K) b) in *.
  unfold normalize, fraction, scale. cbn [mant expo].
  destruct (Z.eqb_spec m (2 ^ 53)) as [Em | Em]; cbn [mant expo].
  - destruct (Z.leb_spec 0 (- (e + 1))) as [_ | ?]; [| lia].
    exists (2 ^ 52), (K - 1).
    assert (EK : 2 ^ K = 2 * 2 ^ (K - 1)).
    { rewrite <- (pow2_succ (K - 1)) by lia. f_equal. lia. }
    replace (- (e + 1)) with (K - 1) by lia.
    rewrite Z.mul_1_l. change (2 ^ 53) with (2 * 2 ^ 52) in *.
    change (2 ^ 52) with (2 * 2 ^ 51) in *.
    repeat split; try lia; nia.
  - destruct (Z.leb_spec 0 (- e)) as [_ | ?]; [| lia].
    exists m, K. fold K. rewrite Z.mul_1_l.
    assert (Hm52 : 2 ^ 52 ≤ m ≤ 2 ^ 53) by nia.
    change (2 ^ 52) with (2 * 2 ^ 51) in *.
    repeat split; try lia; nia.
Qed.

Lemma fraction_zero : fraction zero = (0, 2 ^ 0).
Proof. reflexivity. Qed.

(** [toFixed(2)] of a fraction [m / 2^K]. *)
Lemma toFixed2_fraction x m K :
  fraction x = (m, 2 ^ K) →
  hundredths (toFixed2 x) = (200 * m + 2 ^ K) / (2 * 2 ^ K).
Proof. intros E. unfold toFixed2. by rewrite E. Qed.

Lemma to_Q_fraction x m K :
  fraction x = (m, 2 ^ K) → to_Q x = Qmake m (Z.to_pos (2 ^ K)).
Proof. intros E. unfold to_Q. by rewrite E. Qed.

End Binary64Facts.

(** ** GPA *)

Section GpaFacts.

Import Binary64.

Lemma or_default_empty v : or_default v "" = default ""%string v.
Proof. by destruct v as [[|c s]|]. Qed.

Lemma assoc_gradePoints l : assoc l gradePoints = Spec.points_of_letter l.
Proof.
  unfold gradePoints, Spec.points_of_letter. simpl.
  repeat (destruct (String.eqb l _); [done |]). done.
Qed.

(** After upper-casing, the [in] test and the table lookup see exactly
    the five letters. *)
Lemma gradePoints_get_letter r :
  gradePoints_get (toUpperCase (or_default (g_grade r) "")) =
  match Spec.points_of_letter (Spec.letter_of r) with
  | Some p => OwnPoints p
  | None => Missing
  end.
Proof.
  unfold gradePoints_get, Spec.letter_of.
  rewrite or_default_empty, assoc_gradePoints.
  destruct (Spec.points_of_letter _); [done |].
  rewrite bool_decide_eq_false_2; [done | apply toUpperCase_not_inherited].
Qed.

Lemma gpa_step_letter a r :
  GpaLoop.step a r =
  match Spec.points_of_letter (Spec.letter_of r) with
  | Some p => GpaLoop.mk (Z.add p <$> GpaLoop.totalPoints a) (GpaLoop.count a + 1)
  | None => a
  end.
Proof.
  unfold GpaLoop.step. rewrite gradePoints_get_letter.
  by destruct (Spec.points_of_letter _).
Qed.

Lemma gpa_loop recs t c :
  fold_left GpaLoop.step recs (GpaLoop.mk (Some t) c) =
  let pts := omap (λ r, Spec.points_of_letter (Spec.letter_of r)) recs in
  GpaLoop.mk (Some (t + Spec.Zsum pts)) (c + Z.of_nat (length pts)).
Proof.
  cbv zeta. revert t c. induction recs as [|r recs IH]; intros t c.
  - cbn. f_equal; [f_equal |]; lia.
  - cbn [fold_left omap list_omap]. rewrite gpa_step_letter.
    destruct (Spec.points_of_letter (Spec.letter_of r)) as [p|].
    + cbn [GpaLoop.totalPoints GpaLoop.count fmap option_fmap option_map].
      rewrite IH. cbn [Spec.Zsum length]. rewrite Nat2Z.inj_succ.
      f_equal; [f_equal |]; lia.
    + apply IH.
Qed.

(** [calcGPAForStudent] in closed form. *)
Lemma calcGPAForStudent_closed studentId grades :
  calcGPAForStudent studentId grades =
  match Spec.surviving_points studentId grades with
  | [] => Null
  | pts => Num (Number (toFixed2 (div_int (Spec.Zsum pts) (Z.of_nat (length pts)))))
  end.
Proof.
  unfold calcGPAForStudent, Spec.surviving_points, GpaLoop.init.
  set (recs := List.filter _ grades).
  rewrite gpa_loop. cbn [GpaLoop.count GpaLoop.totalPoints]. cbv zeta.
  destruct recs as [|r recs]; [done |].
  destruct (Z.eqb_spec (Z.of_nat (length (r :: recs))) 0) as [E | _].
  { simpl in E. lia. }
  rewrite !Z.add_0_l.
  destruct (omap _ (r :: recs)) as [|p pts]; [done |].
  destruct (Z.eqb_spec (Z.of_nat (length (p :: pts))) 0) as [E | _]; [| done].
  simpl in E. lia.
Qed.

Lemma points_of_letter_range l p : Spec.points_of_letter l = Some p → 0 ≤ p ≤ 4.
Proof.
  unfold Spec.points_of_letter.
  repeat (destruct (String.eqb l _); [intros [= <-]; lia |]). done.
Qed.

Lemma points_of_letter_some l :
  is_Some (Spec.points_of_letter l) ↔ l ∈ Spec.letters.
Proof.
  unfold Spec.points_of_letter, Spec.letters. split.
  - intros [p H]. revert H.
    repeat match goal with
           | |- context [String.eqb l ?s] =>
               destruct (String.eqb_spec l s) as [-> | ?];
               [intros _; rewrite !elem_of_cons; auto 10 |]
           end.
    done.
  - intros H. each_member H ltac:(by eexists).
Qed.

Lemma Zsum_range (f : GradeRecord → option Z) recs :
  (∀ r p, f r = Some p → 0 ≤ p ≤ 4) →
  0 ≤ Spec.Zsum (omap f recs) ≤ 4 * Z.of_nat (length (omap f recs)).
Proof.
  intros Hf. induction recs as [|r recs IH]; [simpl; lia |].
  cbn [omap list_omap]. destruct (f r) as [p|] eqn:E; [| done].
  specialize (Hf r p E). cbn [Spec.Zsum length]. rewrite Nat2Z.inj_succ. lia.
Qed.

Lemma surviving_points_range studentId grades :
  0 ≤ Spec.Zsum (Spec.surviving_points studentId grades)
    ≤ 4 * Z.of_nat (length (Spec.surviving_points studentId grades)).
Proof.
  apply Zsum_range. intros r p. apply points_of_letter_range.
Qed.

Lemma surviving_points_length studentId grades :
  (length (Spec.surviving_points studentId grades) ≤ length grades)%nat.
Proof.
  unfold Spec.surviving_points.
  induction grades as [|g grades IH]; [done |].
  cbn [List.filter]. destruct (bool_decide _); cbn [omap list_omap length].
  - destruct (Spec.points_of_letter _); cbn [length]; lia.
  - lia.
Qed.

(** A record contributes a point value exactly when it belongs to the
    student and carries one of the five letters. *)
Lemma surviving_points_nil studentId grades :
  Spec.surviving_points studentId grades = [] ↔
  ¬ ∃ r, r ∈ grades ∧ g_student_id r = studentId ∧ Spec.letter_of r ∈ Spec.letters.
Proof.
  unfold Spec.surviving_points. induction grades as [|g grades IH]; simpl.
  - split; [| done]. intros _ (r & Hr & _). by apply elem_of_nil in Hr.
  - destruct (bool_decide_reflect (g_student_id g = studentId)) as [Hid | Hid]; simpl.
    + destruct (Spec.points_of_letter (Spec.letter_of g)) as [p|] eqn:Ep.
      * split; [done |]. intros Hn. exfalso. apply Hn. exists g.
        split; [left | split; [done |]]. apply points_of_letter_some. by eexists.
      * rewrite IH. split; intros Hn (r & Hr & Hrid & Hl); apply Hn.
        -- apply elem_of_cons in Hr as [-> | Hr]; [| by exists r].
           apply points_of_letter_some in Hl as [p Hp]. congruence.
        -- exists r. split; [by right | done].
    + rewrite IH. split; intros Hn (r & Hr & Hrid & Hl); apply Hn.
      * apply elem_of_cons in Hr as [-> | Hr]; [done | by exists r].
      * exists r. split; [by right | done].
Qed.

End GpaFacts.

(** ** Rounding to hundredths *)

Section RoundingFacts.

Import Binary64.

(** A quotient of at most 4 rounds to a double of at most 4. *)
Lemma of_ratio_le_4 a b :
  0 ≤ a → 0 < b → a ≤ 4 * b →
  ∃ m K, fraction (of_ratio a b) = (m, 2 ^ K) ∧ 0 ≤ K ∧ 0 ≤ m ≤ 4 * 2 ^ K.
Proof.
  intros Ha Hb Hle.
  destruct (Z.eq_dec a 0) as [-> | Hne].
  { exists 0, 0. split; [reflexivity | split; [lia |]]. simpl. lia. }
  destruct (of_ratio_fraction a b) as (m & K & E & HK & Hm & Herr & _); [lia | lia | lia |].
  exists m, K. pose proof (pow2_pos K HK). repeat split; try done. nia.
Qed.

(** What the specification calls rounding half away from zero: the
    unique number of hundredths within half a hundredth of the mean,
    the upper one at a tie. *)
Lemma round_half_away_hundredths_spec p c :
  0 < c →
  let k := Spec.round_half_away_hundredths p c in
  (2 * k - 1) * c ≤ 200 * p < (2 * k + 1) * c.
Proof.
  intros Hc. cbv zeta. unfold Spec.round_half_away_hundredths.
  pose proof (Z.div_mod (200 * p + c) (2 * c) ltac:(lia)).
  pose proof (Z.mod_pos_bound (200 * p + c) (2 * c) ltac:(lia)).
  nia.
Qed.

(** [toFixed(2)] of the binary64 quotient against the exact rounding of
    the mean: equal away from the halfway points, and never more than
    one hundredth below at them. *)
Lemma toFixed2_div_int p c :
  0 ≤ p → 0 < c → 100 * p < 2 ^ 51 →
  let n := hundredths (toFixed2 (div_int p c)) in
  let k := Spec.round_half_away_hundredths p c in
  k - 1 ≤ n ≤ k ∧ (¬ Spec.halfway p c → n = k).
Proof.
  intros Hp Hc Hsmall. cbv zeta. unfold div_int.
  pose proof (round_half_away_hundredths_spec p c Hc) as Hk. cbv zeta in Hk.
  assert (Hhalf : ¬ Spec.halfway p c →
            (2 * Spec.round_half_away_hundredths p c - 1) * c < 200 * p).
  { unfold Spec.halfway, Spec.round_half_away_hundredths. intros Hn.
    pose proof (Z.div_mod (200 * p + c) (2 * c) ltac:(lia)).
    pose proof (Z.mod_pos_bound (200 * p + c) (2 * c) ltac:(lia)).
    nia. }
  set (k := Spec.round_half_away_hundredths p c) in *.
  destruct (Z.eq_dec p 0) as [-> | Hne].
  { assert (k = 0) as ->.
    { unfold k, Spec.round_half_away_hundredths.
      apply Z.div_small. lia. }
    change (hundredths (toFixed2 (of_ratio 0 c))) with 0. lia. }
  destruct (of_ratio_fraction p c) as (m & K & E & HK & Hm & Herr & Hlow & _); [lia | lia | |].
  { change (2 ^ 52) with (2 * 2 ^ 51). nia. }
  rewrite (toFixed2_fraction _ m K E).
  pose proof (pow2_pos K HK) as HT. set (T := 2 ^ K) in *.
  assert (HTc : 100 * c < T) by nia.
  assert (Hup : 200 * m < (2 * k + 1) * T).
  { assert (200 * m * c < (2 * k + 1) * T * c) by nia. nia. }
  assert (Hlo : (2 * k - 3) * T ≤ 200 * m).
  { assert ((2 * k - 3) * T * c ≤ 200 * m * c) by nia. nia. }
  split.
  - split.
    + apply Z.div_le_lower_bound; lia.
    + assert ((200 * m + T) / (2 * T) < k + 1); [| lia].
      apply Z.div_lt_upper_bound; lia.
  - intros Hn. specialize (Hhalf Hn).
    assert (Hlo' : (2 * k - 1) * T ≤ 200 * m).
    { assert ((2 * k - 1) * T * c ≤ 200 * m * c) by nia. nia. }
    apply Z.le_antisymm.
    + assert ((200 * m + T) / (2 * T) < k + 1); [| lia].
      apply Z.div_lt_upper_bound; lia.
    + apply Z.div_le_lower_bound; lia.
Qed.

(** The double nearest the mean, as a fraction [m / 2^K]: it is within
    half a unit in the last place of the mean, it is the mean itself
    when the mean is a multiple of 1/8, and at a halfway mean
    [toFixed(2)] gives the upper hundredth exactly when the double is
    not below the mean. *)
Lemma div_int_nearest p c :
  0 ≤ p → 0 < c → 100 * p < 2 ^ 51 →
  ∃ m K, fraction (div_int p c) = (m, 2 ^ K) ∧ 0 ≤ K
         ∧ - c ≤ 2 * (m * c - p * 2 ^ K) ≤ c
         ∧ (0 < p → 2 ^ 52 ≤ m < 2 ^ 53)
         ∧ ((8 * p) mod c = 0 → m * c = p * 2 ^ K)
         ∧ (Spec.halfway p c →
            (hundredths (toFixed2 (div_int p c)) = Spec.round_half_away_hundredths p c
             ↔ p * 2 ^ K ≤ m * c)).
Proof.
  intros Hp Hc Hsmall.
  destruct (toFixed2_div_int p c Hp Hc Hsmall) as [Hb _].
  pose proof (round_half_away_hundredths_spec p c Hc) as Hk. cbv zeta in Hk.
  unfold div_int in *.
  destruct (Z.eq_dec p 0) as [-> | Hne].
  { exists 0, 0. split; [reflexivity |]. split; [lia |]. split; [lia |].
    split; [lia |]. split; [lia |]. unfold Spec.halfway. intros Hh.
    rewrite Z.mod_small in Hh by lia. lia. }
  destruct (of_ratio_fraction p c) as (m & K & E & HK & Hm & Herr & Hlow & Hnorm);
    [lia | lia | |].
  { change (2 ^ 52) with (2 * 2 ^ 51). nia. }
  exists m, K. split; [exact E |]. split; [exact HK |]. split; [exact Herr |].
  split; [done |].
  pose proof (pow2_pos K HK) as HT.
  split.
  - intros Hdiv.
    assert (H3 : 3 ≤ K).
    { destruct (Z.le_gt_cases 3 K) as [? | Hlt]; [done |].
      pose proof (Z.pow_le_mono_r 2 K 2 ltac:(lia) ltac:(lia)) as Hpow.
      change (2 ^ 2) with 4 in Hpow. nia. }
    apply Z.mod_divide in Hdiv; [| lia]. destruct Hdiv as [j Hj].
    replace K with (3 + (K - 3)) in * by lia.
    rewrite Z.pow_add_r in * by lia. change (2 ^ 3) with 8 in *.
    pose proof (pow2_pos (K - 3) ltac:(lia)) as HU.
    set (U := 2 ^ (K - 3)) in *.
    assert (Ht : m - j * U = 0).
    { assert (Hd : m * c - p * (8 * U) = c * (m - j * U)) by nia.
      rewrite Hd in Herr. nia. }
    nia.
  - unfold Spec.halfway. intros Hh.
    rewrite (toFixed2_fraction _ m K E) in *.
    set (T := 2 ^ K) in *.
    set (k := Spec.round_half_away_hundredths p c) in *.
    assert (Hexact : 200 * p + c = 2 * c * k).
    { unfold k, Spec.round_half_away_hundredths.
      pose proof (Z.div_mod (200 * p + c) (2 * c) ltac:(lia)). lia. }
    split.
    + intros En.
      pose proof (Z.mul_div_le (200 * m + T) (2 * T) ltac:(lia)) as Hle.
      rewrite En in Hle. nia.
    + intros Hle. apply Z.le_antisymm; [lia |].
      apply Z.div_le_lower_bound; [lia |].
      assert ((2 * k - 1) * T * c ≤ 200 * m * c) by nia. nia.
Qed.

End RoundingFacts.

(** ** Search filter *)

Section FilterFacts.

Lemma falsy_true s : falsy s = true ↔ s = ""%string.
Proof. destruct s; split; done. Qed.

Lemma map_chars_empty f s : map_chars f s = ""%string ↔ s = ""%string.
Proof. destruct s; split; done. Qed.

Lemma trimEnd_empty s : trimEnd s = ""%string ↔ Spec.whitespace_only s.
Proof.
  induction s as [|c s IH]; [done |].
  cbn [trimEnd Spec.whitespace_only]. rewrite <- IH.
  destruct (trimEnd s); destruct (is_white c); split; (done || by intros []).
Qed.

Lemma trimStart_whitespace_only s :
  Spec.whitespace_only (trimStart s) ↔ Spec.whitespace_only s.
Proof.
  induction s as [|c s IH]; [done |].
  cbn [trimStart]. destruct (is_white c) eqn:E.
  - rewrite IH. cbn [Spec.whitespace_only]. rewrite E. tauto.
  - done.
Qed.

(** [trim] leaves nothing exactly of the white-space-only strings. *)
Lemma trim_empty s : trim s = ""%string ↔ Spec.whitespace_only s.
Proof. unfold trim. by rewrite trimEnd_empty, trimStart_whitespace_only. Qed.

Lemma query_falsy search :
  falsy (toLowerCase (trim search)) = true ↔ Spec.whitespace_only search.
Proof. unfold toLowerCase. by rewrite falsy_true, map_chars_empty, trim_empty. Qed.

(** A mapped string splits where its image does. *)
Lemma map_chars_split f s a b :
  map_chars f s = (a ++ b)%string →
  ∃ s1 s2, s = (s1 ++ s2)%string ∧ map_chars f s1 = a ∧ map_chars f s2 = b.
Proof.
  revert s. induction a as [|c a IH]; intros s H.
  - by exists ""%string, s.
  - destruct s as [|c' s]; [done |].
    change (String (f c') (map_chars f s) = String c (a +:+ b)) in H.
    injection H as Hc Hs. destruct (IH s Hs) as (s1 & s2 & -> & <- & <-).
    exists (String c' s1), s2. by rewrite <- Hc.
Qed.

(** The test of the callback is the case-insensitive substring relation. *)
Lemma includes_contains_ci s q :
  includes (toLowerCase s) (toLowerCase q) = true ↔ Spec.contains_ci s q.
Proof.
  rewrite includes_correct. unfold Spec.contains_ci. split.
  - intros (pre' & post' & H).
    apply map_chars_split in H as (pre & rest & -> & <- & H).
    apply map_chars_split in H as (mid & post & -> & Hmid & <-).
    by exists pre, mid, post.
  - intros (pre & mid & post & -> & H).
    exists (toLowerCase pre), (toLowerCase post).
    unfold toLowerCase in *. by rewrite !map_chars_app, H.
Qed.

Lemma includes_empty_string q : q ≠ ""%string → includes "" q = false.
Proof. intros H. rewrite includes_nil. by destruct q. Qed.

Lemma contains_ci_empty q : q ≠ ""%string → ¬ Spec.contains_ci "" q.
Proof.
  intros Hq (pre & mid & post & H & Hm).
  destruct pre; [| done]. destruct mid; [| done].
  destruct q; [done | discriminate Hm].
Qed.

Lemma matchesb_spec search s :
  ¬ Spec.whitespace_only search →
  is_Some (s_student_id s) →
  matchesb (toLowerCase (trim search)) s = true ↔ Spec.student_matches (trim search) s.
Proof.
  intros Hq [id Hid]. assert (Hne : trim search ≠ ""%string) by by rewrite trim_empty.
  unfold matchesb, matches, Spec.student_matches. rewrite Hid.
  rewrite orb_true_iff, !includes_contains_ci. split.
  - intros [H | H]; [left; by exists id |].
    destruct (s_name s) as [[|c n]|]; cbn [or_default falsy] in H.
    + by apply contains_ci_empty in H.
    + right. by eexists.
    + by apply contains_ci_empty in H.
  - intros [(id' & [= <-] & H) | (n & Hn & H)]; [by left |].
    right. rewrite Hn. destruct n; [by apply contains_ci_empty in H | done].
Qed.

Lemma matches_normal q s :
  is_Some (s_student_id s) → matches q s = Normal (matchesb q s).
Proof. intros [id Hid]. unfold matchesb, matches. by rewrite Hid. Qed.

Lemma matches_throws q s : matches q s = TypeError ↔ s_student_id s = None.
Proof. unfold matches. by destruct (s_student_id s). Qed.

(** When the callback never throws, [filter] is the list filter. *)
Lemma filter_throwing_normal {A} (cb : A → completion bool) (f : A → bool) l :
  (∀ x, x ∈ l → cb x = Normal (f x)) →
  filter_throwing cb l = Normal (List.filter f l).
Proof.
  induction l as [|x l IH]; intros H; [done |].
  cbn [filter_throwing List.filter].
  rewrite (H x) by left. rewrite IH by (intros y Hy; apply H; by right).
  cbn [bind]. by destruct (f x).
Qed.

(** [filter] throws exactly when the callback throws on some element. *)
Lemma filter_throwing_throws {A} (cb : A → completion bool) l :
  filter_throwing cb l = TypeError ↔ ∃ x, x ∈ l ∧ cb x = TypeError.
Proof.
  induction l as [|x l IH]; cbn [filter_throwing].
  - split; [done |]. intros (x & Hx & _). by apply elem_of_nil in Hx.
  - destruct (cb x) as [b|] eqn:E; cbn [bind].
    + destruct (filter_throwing cb l) as [r|] eqn:Er; cbn [bind].
      * split; [done |]. intros (y & Hy & Hcb).
        apply elem_of_cons in Hy as [-> | Hy]; [congruence |].
        destruct IH as [_ IH]. discriminate IH. by exists y.
      * split; [| done]. intros _. destruct IH as [IH _].
        destruct (IH eq_refl) as (y & Hy & Hcb). exists y. split; [by right | done].
    + split; [| done]. intros _. exists x. split; [left | done].
Qed.

End FilterFacts.

(** ** Course attendance *)

Section AttendanceFacts.

Implicit Types (ids : gset (option string)) (att : list AttendanceRecord).

Lemma elem_of_fold_enroll code grades acc id :
  id ∈ fold_left (enroll_step code) grades acc ↔
  id ∈ acc ∨ Spec.enrolled_in code grades id.
Proof.
  revert acc. induction grades as [|g grades IH]; intros acc; cbn [fold_left].
  - split; [by left |]. intros [H | (g & Hg & _)]; [done | by apply elem_of_nil in Hg].
  - rewrite IH. unfold enroll_step, Spec.enrolled_in.
    destruct (bool_decide_reflect (g_course_code g = code)) as [Hc | Hc].
    + rewrite elem_of_union, elem_of_singleton. split.
      * intros [[-> | H] | (g' & Hg' & Hc' & Hid)].
        -- right. exists g. split; [left | done].
        -- by left.
        -- right. exists g'. split; [by right | done].
      * intros [H | (g' & Hg' & Hc' & Hid)]; [by left; right |].
        apply elem_of_cons in Hg' as [-> | Hg']; [by left; left |].
        right. by exists g'.
    + split.
      * intros [H | (g' & Hg' & Hc' & Hid)]; [by left |].
        right. exists g'. split; [by right | done].
      * intros [H | (g' & Hg' & Hc' & Hid)]; [by left |].
        apply elem_of_cons in Hg' as [-> | Hg']; [done |].
        right. by exists g'.
Qed.

(** The enrolled set holds exactly the ids graded in the course, among
    the grade records the loop is run on. *)
Lemma elem_of_build_enrolled code grades id :
  id ∈ build_enrolled code grades ↔ Spec.enrolled_in code grades id.
Proof.
  unfold build_enrolled. rewrite elem_of_fold_enroll. split; [| by right].
  intros [H | H]; [| done]. by apply not_elem_of_empty in H.
Qed.

Lemma build_enrolled_nil code : build_enrolled code [] = ∅.
Proof. reflexivity. Qed.

(** One round of the tally loop, by bucket. *)
Lemma tally_step_bucket ids st a :
  tally_step ids st a =
  if bool_decide (a_student_id a ∈ ids) then
    match Spec.bucket_of a with
    | Spec.BPresent => mkStats (Present st + 1) (Absent st) (Other st)
    | Spec.BAbsent => mkStats (Present st) (Absent st + 1) (Other st)
    | Spec.BOther => mkStats (Present st) (Absent st) (Other st + 1)
    end
  else st.
Proof.
  unfold tally_step, Spec.bucket_of. rewrite or_default_empty.
  destruct (bool_decide _); cbn [negb]; [| done].
  by repeat destruct (String.eqb _ _).
Qed.

Lemma counted_cons ids b a att :
  Spec.counted ids b (a :: att) =
  (if bool_decide (a_student_id a ∈ ids) && Spec.bucket_eqb (Spec.bucket_of a) b
   then 1 else 0) + Spec.counted ids b att.
Proof.
  unfold Spec.counted. cbn [List.filter].
  destruct (_ && _); [cbn [length]; rewrite Nat2Z.inj_succ; lia | lia].
Qed.

Lemma tally_fold ids att st :
  fold_left (tally_step ids) att st =
  mkStats (Present st + Spec.counted ids Spec.BPresent att)
          (Absent st + Spec.counted ids Spec.BAbsent att)
          (Other st + Spec.counted ids Spec.BOther att).
Proof.
  revert st. induction att as [|a att IH]; intros st.
  - destruct st as [x y z]. cbn [fold_left Present Absent Other].
    change (Spec.counted ids _ []) with 0. by rewrite !Z.add_0_r.
  - cbn [fold_left]. rewrite IH, tally_step_bucket, !counted_cons.
    destruct (bool_decide _); cbn [andb].
    + destruct (Spec.bucket_of a); cbn [Spec.bucket_eqb Present Absent Other];
        f_equal; lia.
    + f_equal; lia.
Qed.

Lemma tally_counted ids att :
  tally ids att =
  mkStats (Spec.counted ids Spec.BPresent att)
          (Spec.counted ids Spec.BAbsent att)
          (Spec.counted ids Spec.BOther att).
Proof. unfold tally. by rewrite tally_fold. Qed.

(** Every record of an enrolled student falls in exactly one bucket. *)
Lemma counted_total ids att :
  Spec.counted ids Spec.BPresent att + Spec.counted ids Spec.BAbsent att
    + Spec.counted ids Spec.BOther att
  = Z.of_nat (length (List.filter (λ a, bool_decide (a_student_id a ∈ ids)) att)).
Proof.
  induction att as [|a att IH]; [done |].
  rewrite !counted_cons. cbn [List.filter].
  destruct (bool_decide _); cbn [andb length].
  - rewrite Nat2Z.inj_succ, <- IH. destruct (Spec.bucket_of a); cbn; lia.
  - lia.
Qed.

Lemma counted_app ids b att1 att2 :
  Spec.counted ids b (att1 ++ att2) = Spec.counted ids b att1 + Spec.counted ids b att2.
Proof.
  unfold Spec.counted. rewrite List.filter_app, length_app. lia.
Qed.

Lemma counted_empty b att : Spec.counted ∅ b att = 0.
Proof.
  induction att as [|a att IH]; [done |].
  rewrite counted_cons, IH.
  rewrite bool_decide_eq_false_2 by apply not_elem_of_empty. done.
Qed.

Lemma filter_enrolled_empty (l : list Student) :
  List.filter (λ s, bool_decide (s_student_id s ∈ (∅ : gset (option string)))) l = [].
Proof.
  induction l as [|s l IH]; [done |].
  cbn [List.filter]. by rewrite bool_decide_eq_false_2 by apply not_elem_of_empty.
Qed.

(** With no grade records in hand the whole view is empty. *)
Lemma attendance_view_nil p :
  attendance_view [] p = mkView ∅ [] (mkStats 0 0 0) 0 [].
Proof.
  unfold attendance_view. rewrite build_enrolled_nil, filter_enrolled_empty.
  rewrite tally_counted, !counted_empty. reflexivity.
Qed.

End AttendanceFacts.

(** ** The running page *)

Section AppFacts.

(** The accessor pair: what the setter stores is what the getter hands
    out. *)
Lemma get_after_set g w :
  (get___GRADES_FOR_APP (set___GRADES_FOR_APP g w).2).1 = g.
Proof. reflexivity. Qed.

Lemma handle_window ev st w : (App.handle ev st w).2 = w.
Proof. by destruct ev. Qed.

Lemma CourseAttendance_window p w : (CourseAttendance p w).2 = w.
Proof. reflexivity. Qed.

Lemma render_panel_window st w : (App.render_course_attendance st w).2 = w.
Proof.
  unfold App.render_course_attendance.
  destruct (App.loading st); [done |].
  destruct (App.selectedCourse st) as [code|]; [| done].
  by destruct (falsy code).
Qed.

Lemma render_window st w : (App.render st w).2 = w.
Proof.
  unfold App.render, mbind, Eff_bind.
  pose proof (render_panel_window st w) as Hr.
  by destruct (App.render_course_attendance st w) as [v w'].
Qed.

(** No step of the page stores anything in [window]. *)
Lemma step_window ev cfg : (App.step ev cfg).2 = cfg.2.
Proof.
  destruct cfg as [st w]. unfold App.step.
  pose proof (handle_window ev st w) as Hh.
  destruct (App.handle ev st w) as [st' w']. cbn [snd] in Hh. subst w'.
  pose proof (render_window st' w) as Hr.
  by destruct (App.render st' w) as [v w''].
Qed.

Lemma reachable_window cfg : App.reachable cfg → cfg.2 = initial_window.
Proof.
  induction 1 as [|ev cfg _ IH]; [done |]. by rewrite step_window.
Qed.

End AppFacts.

(** ** Objects as maps *)

Section ObjectFacts.

Implicit Types (l : list (string * Z)) (ms : list string) (o : JsObject.t).

Lemma major_of_or_default s : or_default (s_major s) "Undeclared" = Spec.major_of s.
Proof. unfold or_default, Spec.major_of. by destruct (s_major s) as [[|c m]|]. Qed.

Lemma assoc_numbers k l : assoc k (numbers l) = JsObject.VNum <$> assoc k l.
Proof.
  induction l as [|[k' n] l IH]; [done |].
  cbn [numbers List.map assoc fst snd]. destruct (String.eqb k k'); [done | apply IH].
Qed.

Lemma replace_numbers k n l :
  JsObject.replace k (JsObject.VNum n) (numbers l) = numbers (JsObject.replace k n l).
Proof.
  induction l as [|[k' n'] l IH]; [done |].
  cbn [numbers List.map JsObject.replace fst snd].
  destruct (String.eqb k k'); [done |]. cbn [List.map fst snd]. f_equal. apply IH.
Qed.

Lemma numbers_app l1 l2 : numbers (l1 ++ l2) = numbers l1 ++ numbers l2.
Proof. apply List.map_app. Qed.

(** On an object of numbers and a key that [Object.prototype] does not
    have, one round of the loop is [bump]. *)
Lemma enrollment_step_numbers l s :
  Spec.major_of s ∉ objectPrototypeNames →
  enrollment_step (numbers l) s = numbers (bump l (Spec.major_of s)).
Proof.
  intros Hm. unfold enrollment_step. rewrite major_of_or_default.
  set (m := Spec.major_of s) in *.
  assert (Hp : String.eqb m "__proto__" = false).
  { apply String.eqb_neq. intros ->. apply Hm. unfold objectPrototypeNames.
    rewrite !elem_of_cons. auto 20. }
  unfold JsObject.get, JsObject.set, bump.
  rewrite Hp, assoc_numbers.
  destruct (assoc m l) as [n|]; cbn [fmap option_fmap option_map JsObject.or_zero_plus_one].
  - apply replace_numbers.
  - rewrite bool_decide_eq_false_2 by done.
    cbn [JsObject.or_zero_plus_one]. by rewrite numbers_app.
Qed.

Lemma enrollment_loop_numbers students l :
  (∀ s, s ∈ students → Spec.major_of s ∉ objectPrototypeNames) →
  fold_left enrollment_step students (numbers l) =
  numbers (fold_left bump (List.map Spec.major_of students) l).
Proof.
  revert l. induction students as [|s students IH]; intros l H; [done |].
  cbn [fold_left List.map]. rewrite enrollment_step_numbers by (apply H; left).
  apply IH. intros s' Hs'. apply H. by right.
Qed.

(** *** First occurrences and counts *)

Lemma elem_of_List_filter {A} (f : A → bool) (x : A) (xs : list A) :
  x ∈ List.filter f xs ↔ x ∈ xs ∧ f x = true.
Proof. rewrite !list_elem_of_In. apply List.filter_In. Qed.

Lemma elem_of_first_occurrences k ms : k ∈ Spec.first_occurrences ms ↔ k ∈ ms.
Proof.
  induction ms as [|x ms IH]; [done |].
  cbn [Spec.first_occurrences]. rewrite !elem_of_cons, elem_of_List_filter, IH.
  destruct (String.eqb_spec k x) as [-> | Hne]; [tauto |].
  split; [tauto |]. intros [? | ?]; [tauto | by right].
Qed.

Lemma NoDup_List_filter {A} (f : A → bool) (xs : list A) :
  NoDup xs → NoDup (List.filter f xs).
Proof.
  induction 1 as [|x xs Hx _ IH]; [constructor |].
  cbn [List.filter]. destruct (f x); [| done].
  constructor; [| done]. rewrite elem_of_List_filter. tauto.
Qed.

Lemma NoDup_first_occurrences ms : NoDup (Spec.first_occurrences ms).
Proof.
  induction ms as [|x ms IH]; [constructor |].
  cbn [Spec.first_occurrences]. constructor.
  - rewrite elem_of_List_filter. intros [_ H]. by rewrite String.eqb_refl in H.
  - by apply NoDup_List_filter.
Qed.

Lemma first_occurrences_snoc ms m :
  Spec.first_occurrences (ms ++ [m]) =
  if bool_decide (m ∈ ms) then Spec.first_occurrences ms
  else Spec.first_occurrences ms ++ [m].
Proof.
  induction ms as [|x ms IH]; [done |].
  cbn [app Spec.first_occurrences]. rewrite IH.
  destruct (bool_decide_reflect (m ∈ ms)) as [Hin | Hin].
  - rewrite bool_decide_eq_true_2 by (by right). done.
  - rewrite List.filter_app. cbn [List.filter].
    destruct (String.eqb_spec m x) as [-> | Hne]; cbn [negb].
    + rewrite bool_decide_eq_true_2 by left. by rewrite app_nil_r.
    + rewrite bool_decide_eq_false_2; [done |].
      rewrite elem_of_cons. tauto.
Qed.

Lemma occurrences_snoc k ms m :
  Spec.occurrences k (ms ++ [m]) =
  Spec.occurrences k ms + (if String.eqb k m then 1 else 0).
Proof.
  unfold Spec.occurrences. rewrite List.filter_app, length_app. cbn [List.filter].
  destruct (String.eqb k m); cbn [length]; lia.
Qed.

Lemma occurrences_not_in k ms : k ∉ ms → Spec.occurrences k ms = 0.
Proof.
  intros Hk. unfold Spec.occurrences.
  induction ms as [|x ms IH]; [done |].
  cbn [List.filter]. apply not_elem_of_cons in Hk as [Hne Hk].
  destruct (String.eqb_spec k x); [done | by apply IH].
Qed.

Lemma assoc_tabulate (f : string → Z) m keys :
  assoc m (List.map (λ k, (k, f k)) keys) =
  if bool_decide (m ∈ keys) then Some (f m) else None.
Proof.
  induction keys as [|k keys IH]; [done |].
  cbn [List.map assoc]. destruct (String.eqb_spec m k) as [-> | Hne].
  - by rewrite bool_decide_eq_true_2 by left.
  - rewrite IH. destruct (bool_decide_reflect (m ∈ keys)) as [Hin | Hin].
    + by rewrite bool_decide_eq_true_2 by (by right).
    + rewrite bool_decide_eq_false_2; [done |]. rewrite elem_of_cons. tauto.
Qed.

Lemma replace_absent (f : string → Z) m v keys :
  m ∉ keys →
  JsObject.replace m v (List.map (λ k, (k, f k)) keys) = List.map (λ k, (k, f k)) keys.
Proof.
  induction keys as [|k keys IH]; intros Hm; [done |].
  apply not_elem_of_cons in Hm as [Hne Hm].
  cbn [List.map JsObject.replace]. destruct (String.eqb_spec m k); [done |].
  f_equal. by apply IH.
Qed.

Lemma replace_tabulate (f g : string → Z) m keys :
  NoDup keys → m ∈ keys →
  (∀ k, k ≠ m → g k = f k) →
  JsObject.replace m (g m) (List.map (λ k, (k, f k)) keys) = List.map (λ k, (k, g k)) keys.
Proof.
  intros Hnd Hin Hg. induction Hnd as [|k keys Hk Hnd IH]; [by apply elem_of_nil in Hin |].
  cbn [List.map JsObject.replace]. destruct (String.eqb_spec m k) as [-> | Hne].
  - f_equal. apply List.map_ext_in. intros k' Hk'. apply list_elem_of_In in Hk'.
    rewrite Hg; [done |]. by intros ->.
  - apply elem_of_cons in Hin as [-> | Hin]; [done |].
    rewrite (Hg k) by done. f_equal. by apply IH.
Qed.

(** The counting loop builds the distinct majors in the order of their
    first occurrence, each with the number of its students. *)
Lemma bump_loop ms :
  fold_left bump ms [] =
  List.map (λ k, (k, Spec.occurrences k ms)) (Spec.first_occurrences ms).
Proof.
  induction ms as [|m ms IH] using rev_ind; [done |].
  rewrite fold_left_app, IH. cbn [fold_left]. unfold bump.
  rewrite assoc_tabulate, first_occurrences_snoc.
  rewrite (bool_decide_ext _ (m ∈ ms)) by apply elem_of_first_occurrences.
  destruct (bool_decide_reflect (m ∈ ms)) as [Hin | Hin].
  - rewrite <- (replace_tabulate (λ k, Spec.occurrences k ms)
                 (λ k, Spec.occurrences k (ms ++ [m])) m).
    + f_equal. by rewrite occurrences_snoc, String.eqb_refl.
    + apply NoDup_first_occurrences.
    + by apply elem_of_first_occurrences.
    + intros k Hk. rewrite occurrences_snoc.
      destruct (String.eqb_spec k m); [done | lia].
  - rewrite List.map_app. cbn [List.map]. f_equal.
    + apply List.map_ext_in. intros k Hk.
      rewrite <- list_elem_of_In, elem_of_first_occurrences in Hk.
      rewrite occurrences_snoc.
      destruct (String.eqb_spec k m) as [-> | ?]; [done | f_equal; lia].
    + by rewrite occurrences_snoc, String.eqb_refl, occurrences_not_in.
Qed.

(** The object at the end of the loop of [calculateEnrollmentByMajor]. *)
Lemma enrollment_loop students :
  (∀ s, s ∈ students → Spec.major_of s ∉ objectPrototypeNames) →
  List.map entry_of (fold_left enrollment_step students JsObject.empty)
  = Spec.enrollmentByMajor students.
Proof.
  intros H. change JsObject.empty with (numbers []).
  rewrite enrollment_loop_numbers by done. rewrite bump_loop.
  unfold Spec.enrollmentByMajor, numbers.
  by rewrite !List.map_map.
Qed.

(** *** The order of [Object.entries] *)

Lemma insert_sorted_perm p o : JsObject.insert_sorted p o ≡ₚ p :: o.
Proof.
  induction o as [|q o IH]; [done |].
  cbn [JsObject.insert_sorted]. destruct (_ <=? _); [done |].
  rewrite IH. apply perm_swap.
Qed.

Lemma sort_by_index_perm o : JsObject.sort_by_index o ≡ₚ o.
Proof.
  induction o as [|p o IH]; [done |].
  cbn [JsObject.sort_by_index foldr]. rewrite insert_sorted_perm.
  by constructor.
Qed.

Lemma insert_sorted_sorted p o :
  StronglySorted index_le o → StronglySorted index_le (JsObject.insert_sorted p o).
Proof.
  induction 1 as [|q o Hs IH Hq]; [repeat constructor |].
  cbn [JsObject.insert_sorted].
  destruct (Z.leb_spec (JsObject.index_or_zero p.1) (JsObject.index_or_zero q.1)) as [Hle | Hlt].
  - constructor; [by constructor |]. constructor; [done |].
    eapply Forall_impl; [exact Hq |]. unfold index_le. intros r Hr. lia.
  - constructor; [done |]. rewrite insert_sorted_perm.
    constructor; [unfold index_le; lia | done].
Qed.

Lemma sort_by_index_sorted o : StronglySorted index_le (JsObject.sort_by_index o).
Proof.
  induction o as [|p o IH]; [constructor |].
  cbn [JsObject.sort_by_index foldr]. by apply insert_sorted_sorted.
Qed.

Lemma map_entry_of_filter (f : string → bool) o :
  List.map entry_of (List.filter (λ p, f p.1) o)
  = List.filter (λ g, f (major g)) (List.map entry_of o).
Proof.
  induction o as [|p o IH]; [done |].
  cbn [List.filter List.map]. change (major (entry_of p)) with p.1.
  destruct (f p.1); cbn [List.map]; by rewrite IH.
Qed.

Lemma filter_all {A} (f : A → bool) (xs : list A) :
  (∀ x, x ∈ xs → f x = true) → List.filter f xs = xs.
Proof.
  induction xs as [|x xs IH]; intros H; [done |].
  cbn [List.filter]. rewrite (H x) by left. f_equal. apply IH.
  intros y Hy. apply H. by right.
Qed.

Lemma filter_none {A} (f : A → bool) (xs : list A) :
  (∀ x, x ∈ xs → f x = false) → List.filter f xs = [].
Proof.
  induction xs as [|x xs IH]; intros H; [done |].
  cbn [List.filter]. rewrite (H x) by left. apply IH.
  intros y Hy. apply H. by right.
Qed.

Lemma StronglySorted_map_entry_of o :
  StronglySorted index_le o → StronglySorted major_index_le (List.map entry_of o).
Proof.
  induction 1 as [|p o Hs IH Hp]; [constructor |].
  cbn [List.map]. constructor; [done |].
  rewrite List.Forall_map. eapply Forall_impl; [exact Hp | done].
Qed.

Lemma calculateEnrollmentByMajor_entries students :
  calculateEnrollmentByMajor students =
  List.map entry_of
    (JsObject.entries (fold_left enrollment_step students JsObject.empty)).
Proof.
  unfold calculateEnrollmentByMajor. apply List.map_ext. by intros [k v].
Qed.

Lemma elem_of_enrollmentByMajor g students :
  g ∈ Spec.enrollmentByMajor students →
  ∃ s, s ∈ students ∧ major g = Spec.major_of s.
Proof.
  unfold Spec.enrollmentByMajor. rewrite list_elem_of_In, List.in_map_iff.
  intros (m & <- & Hm). rewrite <- list_elem_of_In, elem_of_first_occurrences in Hm.
  rewrite list_elem_of_In, List.in_map_iff in Hm. destruct Hm as (s & <- & Hs).
  exists s. by rewrite list_elem_of_In.
Qed.

End ObjectFacts.

(** ** Text: the code's string functions against the character tables *)

(** On strings that are written out: the last character, found by
    peeling the characters before it off [E : s = init ++ String c ""],
    is not white space. *)
Ltac last_not_white init E :=
  destruct init as [|? init];
  [ first [ discriminate E | injection E as <-; compute_done ]
  | injection E as _ E;
    first [ by destruct init | last_not_white init E ] ].

(** [core] is [pre ++ core ++ post] without its white space, all three
    written out. *)
Ltac trimmed_by pre post :=
  exists pre, post;
  split; [reflexivity |];
  split; [repeat split; compute_done |];
  split; [repeat split; compute_done |];
  split;
  [ let c := fresh "c" in let rest := fresh "rest" in
    intros c rest [= <- _]; compute_done
  | let init := fresh "init" in let c := fresh "c" in let E := fresh "E" in
    intros init c E; last_not_white init E ].

Section TextFacts.

Lemma trimStart_map f s :
  (∀ c, is_white (f c) = is_white c) →
  trimStart (map_chars f s) = map_chars f (trimStart s).
Proof.
  intros Hf. induction s as [|c s IH]; [done |].
  cbn [map_chars trimStart]. rewrite Hf. by destruct (is_white c).
Qed.

Lemma trimEnd_map f s :
  (∀ c, is_white (f c) = is_white c) →
  trimEnd (map_chars f s) = map_chars f (trimEnd s).
Proof.
  intros Hf. induction s as [|c s IH]; [done |].
  cbn [map_chars trimEnd]. rewrite IH, Hf.
  destruct (trimEnd s); cbn [map_chars]; [by destruct (is_white c) | done].
Qed.

Lemma trim_map f s :
  (∀ c, is_white (f c) = is_white c) → trim (map_chars f s) = map_chars f (trim s).
Proof. intros Hf. unfold trim. by rewrite trimStart_map, trimEnd_map. Qed.

Lemma is_white_upper c : is_white (upper_char c) = is_white c.
Proof. destruct c as [[] [] [] [] [] [] [] []]; reflexivity. Qed.

Lemma is_white_lower c : is_white (lower_char c) = is_white c.
Proof. destruct c as [[] [] [] [] [] [] [] []]; reflexivity. Qed.

Lemma trimEnd_cons c s :
  trimEnd (String c s) =
  match trimEnd s with
  | EmptyString => if is_white c then EmptyString else String c EmptyString
  | t => String c t
  end.
Proof. reflexivity. Qed.

Lemma trimEnd_idem s : trimEnd (trimEnd s) = trimEnd s.
Proof.
  induction s as [|c s IH]; [done |].
  rewrite (trimEnd_cons c s). destruct (trimEnd s) as [|d t] eqn:E.
  - destruct (is_white c) eqn:Ec; [done |]. rewrite trimEnd_cons. cbn [trimEnd].
    by rewrite Ec.
  - by rewrite trimEnd_cons, IH.
Qed.

Lemma trimStart_starts_black s : starts_black (trimStart s).
Proof.
  induction s as [|c s IH]; [done |].
  cbn [trimStart]. by destruct (is_white c) eqn:E.
Qed.

Lemma trimStart_black s : starts_black s → trimStart s = s.
Proof. destruct s as [|c s]; [done |]. cbn [starts_black trimStart]. by intros ->. Qed.

Lemma trimEnd_starts_black s : starts_black s → starts_black (trimEnd s).
Proof.
  destruct s as [|c s]; [done |]. cbn [starts_black trimEnd]. intros Hc.
  destruct (trimEnd s); [by rewrite Hc | done].
Qed.

(** Trimming twice is trimming once. *)
Lemma trim_idem s : trim (trim s) = trim s.
Proof.
  unfold trim.
  rewrite (trimStart_black (trimEnd (trimStart s)))
    by apply trimEnd_starts_black, trimStart_starts_black.
  apply trimEnd_idem.
Qed.

(** *** White space *)

Lemma white_space_is_white c : c ∈ Text.white_space ↔ is_white c = true.
Proof.
  split.
  - intros H. unfold Text.white_space in H. each_member H ltac:(reflexivity).
  - destruct c as [[] [] [] [] [] [] [] []]; intros H; try discriminate H;
      unfold Text.white_space; rewrite !elem_of_cons; tauto.
Qed.

Lemma all_white_whitespace_only s : Text.all_white s ↔ Spec.whitespace_only s.
Proof.
  induction s as [|c s IH]; [done |].
  cbn [Text.all_white Spec.whitespace_only]. by rewrite IH, white_space_is_white.
Qed.

Lemma trimStart_white s : Spec.whitespace_only s → trimStart s = ""%string.
Proof.
  induction s as [|c s IH]; [done |].
  cbn [Spec.whitespace_only trimStart]. intros [-> H]. by apply IH.
Qed.

Lemma trimStart_app_white pre s :
  Spec.whitespace_only pre → trimStart (pre ++ s)%string = trimStart s.
Proof.
  induction pre as [|c pre IH]; [done |].
  cbn [Spec.whitespace_only]. intros [Hc H].
  change (trimStart (String c (pre +:+ s)) = trimStart s).
  cbn [trimStart]. rewrite Hc. by apply IH.
Qed.

Lemma trimEnd_app_white s post :
  Spec.whitespace_only post → trimEnd (s ++ post)%string = trimEnd s.
Proof.
  intros Hpost. induction s as [|c s IH].
  - by apply trimEnd_empty.
  - change (trimEnd (String c (s +:+ post)) = trimEnd (String c s)).
    by rewrite !trimEnd_cons, IH.
Qed.

(** The white space [trimStart] removes. *)
Lemma trimStart_split s :
  ∃ pre, s = (pre ++ trimStart s)%string ∧ Spec.whitespace_only pre.
Proof.
  induction s as [|c s (pre & IH & Hpre)]; [by exists ""%string |].
  cbn [trimStart]. destruct (is_white c) eqn:Ec.
  - exists (String c pre). split; [| done].
    change (String c s = String c (pre +:+ trimStart s)). by rewrite <- IH.
  - by exists ""%string.
Qed.

(** The white space [trimEnd] removes. *)
Lemma trimEnd_split s :
  ∃ post, s = (trimEnd s ++ post)%string ∧ Spec.whitespace_only post.
Proof.
  induction s as [|c s (post & IH & Hpost)]; [by exists ""%string |].
  rewrite trimEnd_cons. destruct (trimEnd s) as [|d t] eqn:Et.
  - destruct (is_white c) eqn:Ec.
    + exists (String c s). split; [done |]. split; [done |]. by apply trimEnd_empty.
    + exists s. split; [done |]. by apply trimEnd_empty.
  - exists post. split; [| done].
    change (String c s = String c (String d t +:+ post)). by rewrite <- IH.
Qed.

(** What [trimEnd] leaves does not end in white space. *)
Lemma trimEnd_last s init c :
  trimEnd s = (init ++ String c "")%string → is_white c = false.
Proof.
  revert init. induction s as [|a s IH]; intros init.
  - by destruct init.
  - rewrite trimEnd_cons. destruct (trimEnd s) as [|d t] eqn:Et.
    + destruct (is_white a) eqn:Ea; [by destruct init |].
      destruct init as [|b init]; [by intros [= <-] |].
      intros [= _ H]. by destruct init.
    + destruct init as [|b init]; [done |].
      intros [= _ H]. by apply (IH init).
Qed.

(** A string that does not end in white space is left alone by
    [trimEnd]. *)
Lemma trimEnd_fixed s :
  (∀ init c, s = (init ++ String c "")%string → is_white c = false) → trimEnd s = s.
Proof.
  induction s as [|a s IH]; [done |]. intros H.
  rewrite trimEnd_cons. destruct s as [|b s].
  - cbn [trimEnd]. by rewrite (H ""%string a).
  - rewrite IH; [done |].
    intros init c E. apply (H (String a init) c).
    change (String a (String b s) = String a (init +:+ String c "")). by rewrite E.
Qed.

Lemma no_white_ends_trim s : Text.no_white_ends (trim s).
Proof.
  split.
  - intros c rest E.
    pose proof (trimEnd_starts_black _ (trimStart_starts_black s)) as H.
    fold (trim s) in H. rewrite E in H. cbn [starts_black] in H.
    rewrite white_space_is_white. by rewrite H.
  - intros init c E. apply trimEnd_last in E.
    rewrite white_space_is_white. by rewrite E.
Qed.

(** [trim] removes the leading and trailing white space, and what it
    returns is the only string that is the argument without it. *)
Lemma trimmed_to_trim s : Text.trimmed_to s (trim s).
Proof.
  destruct (trimStart_split s) as (pre & Hpre & Hw).
  destruct (trimEnd_split (trimStart s)) as (post & Hpost & Hw').
  exists pre, post. split; [| split; [| split]].
  - unfold trim. by rewrite <- Hpost.
  - by apply all_white_whitespace_only.
  - by apply all_white_whitespace_only.
  - apply no_white_ends_trim.
Qed.

Lemma trimmed_to_unique s core : Text.trimmed_to s core → core = trim s.
Proof.
  intros (pre & post & -> & Hpre & Hpost & Hfirst & Hlast).
  apply all_white_whitespace_only in Hpre, Hpost.
  unfold trim. rewrite trimStart_app_white by done.
  destruct core as [|c core].
  - change (("" ++ post)%string) with post.
    by rewrite trimStart_white.
  - assert (Hc : is_white c = false).
    { specialize (Hfirst c core eq_refl). rewrite white_space_is_white in Hfirst.
      by destruct (is_white c). }
    change (String c core = trimEnd (trimStart (String c (core +:+ post)))).
    cbn [trimStart]. rewrite Hc.
    change (String c (core +:+ post)) with (String c core +:+ post)%string.
    rewrite trimEnd_app_white by done.
    symmetry. apply trimEnd_fixed. intros init d E.
    specialize (Hlast init d E). rewrite white_space_is_white in Hlast.
    by destruct (is_white d).
Qed.

(** *** Letter case *)

Lemma lower_char_pair c d : (c, d) ∈ Text.letter_pairs → lower_char c = d ∧ lower_char d = d.
Proof.
  intros H.
  cbv [Text.letter_pairs Text.capital_letters Text.small_letters
       zip zip_with list_ascii_of_string] in H.
  repeat (apply elem_of_cons in H as [[= -> ->] | H]; [by split |]).
  by apply elem_of_nil in H.
Qed.

Lemma upper_pair c : is_upper c = true → (c, lower_char c) ∈ Text.letter_pairs.
Proof.
  destruct c as [[] [] [] [] [] [] [] []]; intros H; try discriminate H; compute_done.
Qed.

Lemma lower_char_not_upper c : is_upper c = false → lower_char c = c.
Proof. unfold lower_char. by intros ->. Qed.

Lemma upper_lower_char_upper c : is_upper c = true → upper_char (lower_char c) = c.
Proof. destruct c as [[] [] [] [] [] [] [] []]; intros H; try discriminate H; reflexivity. Qed.

Lemma lower_char_inj_upper c d :
  is_upper c = true → is_upper d = true → lower_char c = lower_char d → c = d.
Proof.
  intros Hc Hd E.
  by rewrite <- (upper_lower_char_upper c Hc), <- (upper_lower_char_upper d Hd), E.
Qed.

(** Two characters are the same letter exactly when [toLowerCase] sends
    them to the same character. *)
Lemma same_letter_lower_char c d : Text.same_letter c d ↔ lower_char c = lower_char d.
Proof.
  split.
  - intros [-> | [H | H]]; [done | |]; apply lower_char_pair in H as [H1 H2]; congruence.
  - intros E. destruct (is_upper c) eqn:Hc, (is_upper d) eqn:Hd.
    + left. by apply lower_char_inj_upper.
    + right. left. rewrite (lower_char_not_upper d Hd) in E. rewrite <- E.
      by apply upper_pair.
    + right. right. rewrite (lower_char_not_upper c Hc) in E. rewrite E.
      by apply upper_pair.
    + left. by rewrite (lower_char_not_upper c Hc), (lower_char_not_upper d Hd) in E.
Qed.

Lemma same_letters_toLowerCase s t : Text.same_letters s t ↔ toLowerCase s = toLowerCase t.
Proof.
  revert t. induction s as [|c s IH]; intros [|d t]; try done.
  cbn [Text.same_letters]. rewrite IH, same_letter_lower_char.
  unfold toLowerCase. cbn [map_chars]. split.
  - by intros [-> ->].
  - by intros [= -> ->].
Qed.

Lemma contains_contains_ci s q : Text.contains s q ↔ Spec.contains_ci s q.
Proof.
  unfold Text.contains, Spec.contains_ci.
  split; intros (pre & mid & post & E & H); exists pre, mid, post;
    (split; [done |]); by apply same_letters_toLowerCase.
Qed.

Lemma student_matches_equiv q s : Text.student_matches q s ↔ Spec.student_matches q s.
Proof.
  unfold Text.student_matches, Spec.student_matches.
  split; (intros [(x & E & H) | (x & E & H)]; [left | right]; exists x;
          (split; [done |]); by apply contains_contains_ci).
Qed.

(** *** The status of an attendance record *)

Lemma status_is_bucket_of a b :
  Text.status_is b (Text.status_of a) ↔ Spec.bucket_of a = b.
Proof.
  unfold Text.status_is, Spec.bucket_of. fold (Text.status_of a).
  set (s := Text.status_of a).
  assert (Hp : Text.same_letters (trim s) "present" ↔ toLowerCase (trim s) = "present"%string)
    by apply same_letters_toLowerCase.
  assert (Ha : Text.same_letters (trim s) "absent" ↔ toLowerCase (trim s) = "absent"%string)
    by apply same_letters_toLowerCase.
  split.
  - intros (core & Ht & H). apply trimmed_to_unique in Ht as ->.
    destruct b.
    + apply Hp in H. by rewrite H.
    + apply Ha in H. by rewrite H.
    + destruct H as [H1 H2].
      destruct (String.eqb_spec (toLowerCase (trim s)) "present") as [E | _];
        [by apply Hp in E |].
      destruct (String.eqb_spec (toLowerCase (trim s)) "absent") as [E | _];
        [by apply Ha in E | done].
  - intros <-. exists (trim s). split; [apply trimmed_to_trim |].
    destruct (String.eqb_spec (toLowerCase (trim s)) "present") as [E | E1];
      [by apply Hp |].
    destruct (String.eqb_spec (toLowerCase (trim s)) "absent") as [E | E2];
      [by apply Ha |].
    split; [by rewrite Hp | by rewrite Ha].
Qed.

Lemma counted_classify ids classify b att :
  (∀ a, a ∈ att → Text.status_is (classify a) (Text.status_of a)) →
  Text.counted ids classify b att = Spec.counted ids b att.
Proof.
  intros H. unfold Text.counted, Spec.counted. do 2 f_equal.
  induction att as [|a att IH]; [done |].
  cbn [List.filter].
  rewrite (proj1 (status_is_bucket_of a (classify a)) (H a ltac:(left))).
  rewrite IH; [done |]. intros a' Ha'. apply H. by right.
Qed.

End TextFacts.

(** ** Runs against the memory *)

Section MemFacts.

Lemma bind_normal {A B} (p : Mem.M A) (k : A → Mem.M B) m a m' :
  p m = Some (Normal a, m') → (p ≫= k) m = k a m'.
Proof. intros E. unfold mbind, Mem.M_bind. by rewrite E. Qed.

Lemma bind_throw {A B} (p : Mem.M A) (k : A → Mem.M B) m m' :
  p m = Some (TypeError, m') → (p ≫= k) m = Some (TypeError, m').
Proof. intros E. unfold mbind, Mem.M_bind. by rewrite E. Qed.

Lemma read_run {X} (kind : Mem.cell → option X) l m c x :
  Mem.cells m !! l = Some c → kind c = Some x →
  Mem.read kind l m = Some (Normal x, m).
Proof.
  intros Hl Hk. unfold Mem.read.
  rewrite (bind_normal _ _ m c m) by (unfold Mem.load; by rewrite Hl).
  by rewrite Hk.
Qed.

(** One read of a run, justified by what the memory holds. *)
Ltac read_step H :=
  match type of H with
  | _ !! ?l = _ =>
      match goal with
      | |- context [Mem.read ?kind l ≫= _] =>
          rewrite (bind_normal _ _ _ _ _ (read_run kind l _ _ _ H eq_refl))
      end
  end.

Lemma store_run l c m c0 :
  Mem.cells m !! l = Some c0 →
  Mem.store l c m = Some (Normal tt, Mem.mk (<[l := c]> (Mem.cells m)) (Mem.internal_grades m)).
Proof. intros Hl. unfold Mem.store. by rewrite Hl. Qed.

Lemma lookup_new {A} (l : list A) (x : A) (rest : list A) :
  (l ++ x :: rest) !! length l = Some x.
Proof. by apply list_lookup_middle. Qed.

Lemma insert_new {A} (l : list A) (x y : A) (rest : list A) :
  <[length l := y]> (l ++ x :: rest) = l ++ y :: rest.
Proof.
  rewrite insert_app_r_alt by lia. by rewrite Nat.sub_diag.
Qed.

Lemma unchanged_app m extra :
  Mem.unchanged m (Mem.mk (Mem.cells m ++ extra) (Mem.internal_grades m)).
Proof. split; [done |]. by exists extra. Qed.

Lemma unchanged_refl m : Mem.unchanged m m.
Proof. split; [done |]. by exists []; rewrite app_nil_r. Qed.

(** A loop whose body only reads. *)
Lemma for_of_pure {S X} (body : S → nat → Mem.M S) (step : S → X → S)
  (P : nat → X → Prop) m elems xs s :
  Forall2 P elems xs →
  (∀ s l x, P l x → body s l m = Some (Normal (step s x), m)) →
  Mem.for_of body s elems m = Some (Normal (fold_left step xs s), m).
Proof.
  intros Hall Hbody. revert s.
  induction Hall as [|l x elems xs Hx _ IH]; intros s; [done |].
  cbn [Mem.for_of fold_left].
  rewrite (bind_normal _ _ m (step s x) m) by by apply Hbody.
  apply IH.
Qed.

(** A loop whose body reads and assigns to one object [inj s], which
    the function created after the objects [base]. *)
Lemma for_of_store {S X} (body : unit → nat → Mem.M unit) (step : S → X → S)
  (inj : S → Mem.cell) (P : nat → X → Prop) base rest g elems xs s :
  Forall2 P elems xs →
  (∀ s l x, P l x →
     body tt l (Mem.mk (base ++ inj s :: rest) g)
     = Some (Normal tt, Mem.mk (base ++ inj (step s x) :: rest) g)) →
  Mem.for_of body tt elems (Mem.mk (base ++ inj s :: rest) g)
  = Some (Normal tt, Mem.mk (base ++ inj (fold_left step xs s) :: rest) g).
Proof.
  intros Hall Hbody. revert s.
  induction Hall as [|l x elems xs Hx _ IH]; intros s; [done |].
  cbn [Mem.for_of fold_left].
  rewrite (bind_normal _ _ _ tt (Mem.mk (base ++ inj (step s x) :: rest) g))
    by by apply Hbody.
  apply IH.
Qed.

(** [filter] with a callback that only reads. *)
Lemma filterM_run {X} (P : nat → X → Prop) cb (c : X → completion bool) m elems xs :
  Forall2 P elems xs →
  (∀ l x, P l x → cb l m = Some (c x, m)) →
  ∃ r, Mem.filterM cb elems m = Some (r, m)
       ∧ match r, filter_throwing c xs with
         | Normal kept, Normal ys => Forall2 P kept ys
         | TypeError, TypeError => True
         | _, _ => False
         end.
Proof.
  intros Hall Hcb.
  induction Hall as [|l x elems xs Hp _ (r & Hr & IH)].
  - exists (Normal []). split; [done |]. constructor.
  - cbn [Mem.filterM filter_throwing]. specialize (Hcb l x Hp).
    destruct (c x) as [keep|] eqn:Ec.
    + rewrite (bind_normal _ _ m keep m) by done.
      destruct r as [kept|].
      * rewrite (bind_normal _ _ m kept m) by done.
        destruct (filter_throwing c xs) as [ys|]; [| done].
        exists (Normal (if keep then l :: kept else kept)). split; [done |].
        cbn [bind]. destruct keep; [by constructor | done].
      * rewrite (bind_throw _ _ m m) by done.
        exists TypeError. split; [done |].
        by destruct (filter_throwing c xs).
    + rewrite (bind_throw _ _ m m) by done.
      exists TypeError. by split.
Qed.

Lemma array_filter_run {X} (P : nat → X → Prop) cb (c : X → completion bool)
  m arr elems xs :
  Mem.cells m !! arr = Some (Mem.CArray elems) →
  Forall2 P elems xs →
  (∀ l x, P l x → cb l m = Some (c x, m)) →
  match filter_throwing c xs with
  | Normal ys =>
      ∃ kept, Mem.array_filter arr cb m
              = Some (Normal (length (Mem.cells m)),
                      Mem.mk (Mem.cells m ++ [Mem.CArray kept]) (Mem.internal_grades m))
              ∧ Forall2 P kept ys
  | TypeError => Mem.array_filter arr cb m = Some (TypeError, m)
  end.
Proof.
  intros Harr Hall Hcb. unfold Mem.array_filter.
  read_step Harr.
  destruct (filterM_run P cb c m elems xs Hall Hcb) as (r & Hr & Hrel).
  destruct r as [kept|], (filter_throwing c xs) as [ys|]; try done.
  - exists kept. split; [| done].
    by rewrite (bind_normal _ _ m kept m).
  - by rewrite (bind_throw _ _ m m).
Qed.

(** The same when the callback does not throw. *)
Lemma array_filter_run_normal {X} (P : nat → X → Prop) cb (f : X → bool)
  m arr elems xs :
  Mem.cells m !! arr = Some (Mem.CArray elems) →
  Forall2 P elems xs →
  (∀ l x, P l x → cb l m = Some (Normal (f x), m)) →
  ∃ kept, Mem.array_filter arr cb m
          = Some (Normal (length (Mem.cells m)),
                  Mem.mk (Mem.cells m ++ [Mem.CArray kept]) (Mem.internal_grades m))
          ∧ Forall2 P kept (List.filter f xs).
Proof.
  intros Harr Hall Hcb.
  pose proof (array_filter_run P cb (λ x, Normal (f x)) m arr elems xs Harr Hall Hcb) as H.
  by rewrite (filter_throwing_normal _ f) in H.
Qed.

Lemma allocs_run cs m :
  Mem.allocs cs m
  = Some (Normal (seq (length (Mem.cells m)) (length cs)),
          Mem.mk (Mem.cells m ++ cs) (Mem.internal_grades m)).
Proof.
  revert m. induction cs as [|c cs IH]; intros m.
  - cbn [Mem.allocs length seq]. rewrite app_nil_r. by destruct m.
  - cbn [Mem.allocs length seq].
    rewrite (bind_normal _ _ m (length (Mem.cells m))
               (Mem.mk (Mem.cells m ++ [c]) (Mem.internal_grades m))) by done.
    rewrite (bind_normal _ _ _ _ _ (IH _)).
    cbn [Mem.cells Mem.internal_grades].
    rewrite length_app, <- app_assoc. cbn [length app].
    by rewrite Nat.add_1_r.
Qed.

(** [calcGPAForStudent] on an array of grade records: the value is that
    of the function on the records, and the memory is the one before the
    call followed by the array [recs]. *)
Lemma calcGPAForStudent_run studentId grades gs m :
  Mem.array_of Mem.CGrade m grades gs →
  ∃ m', Mem.calcGPAForStudent studentId grades m
        = Some (Normal (calcGPAForStudent studentId gs), m')
        ∧ Mem.unchanged m m'.
Proof.
  intros (elems & Harr & Hall). unfold Mem.calcGPAForStudent.
  set (f := λ g : GradeRecord, bool_decide (g_student_id g = studentId)).
  match goal with
  | |- context [Mem.array_filter grades ?cb] =>
      destruct (array_filter_run_normal
                  (λ l g, Mem.cells m !! l = Some (Mem.CGrade g)) cb f
                  m grades elems gs Harr Hall) as (kept & Hrun & Hkept)
  end.
  { intros l g Hl. by read_step Hl. }
  rewrite (bind_normal _ _ _ _ _ Hrun).
  set (m1 := Mem.mk (Mem.cells m ++ [Mem.CArray kept]) (Mem.internal_grades m)).
  exists m1. split; [| apply unchanged_app].
  assert (Hrecs : Mem.cells m1 !! length (Mem.cells m) = Some (Mem.CArray kept))
    by apply lookup_new.
  read_step Hrecs.
  unfold calcGPAForStudent. fold f.
  rewrite (Forall2_length _ _ _ Hkept).
  destruct (Z.of_nat (length (List.filter f gs)) =? 0); [done |].
  assert (Hbody : ∀ (a : GpaLoop.acc) l g,
            Mem.cells m !! l = Some (Mem.CGrade g) →
            (r ← Mem.read Mem.grade l; mret (GpaLoop.step a r)) m1
            = Some (Normal (GpaLoop.step a g), m1)).
  { intros a l g Hl.
    assert (Hl1 : Mem.cells m1 !! l = Some (Mem.CGrade g)) by by apply lookup_app_l_Some.
    by read_step Hl1. }
  by rewrite (bind_normal _ _ _ _ _
                (for_of_pure _ GpaLoop.step _ m1 kept _ GpaLoop.init Hkept Hbody)).
Qed.

(** Objects created one after the other are found where they were
    put. *)
Lemma Forall2_seq_new {X} (kind : X → Mem.cell) (pre post : list Mem.cell) (xs : list X) :
  Forall2 (λ e x, (pre ++ (kind <$> xs) ++ post) !! e = Some (kind x))
          (seq (length pre) (length xs)) xs.
Proof.
  revert pre. induction xs as [|x xs IH]; intros pre; [constructor |].
  cbn [length seq fmap list_fmap app]. constructor.
  - apply lookup_new.
  - specialize (IH (pre ++ [kind x])).
    rewrite length_app, Nat.add_1_r in IH.
    eapply Forall2_impl; [exact IH |].
    intros e y He. cbn beta in He. by rewrite <- app_assoc in He.
Qed.

(** [calculateEnrollmentByMajor] on an array of students: the array it
    returns holds the groups that the function gives on the students,
    and the memory is the one before the call followed by [map], the
    new objects and the new array. *)
Lemma calculateEnrollmentByMajor_run students ss m :
  Mem.array_of Mem.CStudent m students ss →
  ∃ out m', Mem.calculateEnrollmentByMajor students m = Some (Normal out, m')
            ∧ Mem.unchanged m m'
            ∧ Mem.array_of Mem.CMajorCount m' out (calculateEnrollmentByMajor ss).
Proof.
  intros (elems & Harr & Hall). unfold Mem.calculateEnrollmentByMajor.
  set (g := Mem.internal_grades m). set (base := Mem.cells m) in *.
  rewrite (bind_normal _ _ m (length base) (Mem.mk (base ++ [Mem.CMap JsObject.empty]) g))
    by done.
  assert (Harr1 : Mem.cells (Mem.mk (base ++ [Mem.CMap JsObject.empty]) g) !! students
                  = Some (Mem.CArray elems)) by by apply lookup_app_l_Some.
  read_step Harr1.
  set (o := fold_left enrollment_step ss JsObject.empty).
  assert (Hbody : ∀ (o : JsObject.t) l s,
            base !! l = Some (Mem.CStudent s) →
            (s ← Mem.read Mem.student l;
             o ← Mem.read Mem.map_object (length base);
             Mem.store (length base) (Mem.CMap (enrollment_step o s)))
              (Mem.mk (base ++ Mem.CMap o :: []) g)
            = Some (Normal tt, Mem.mk (base ++ Mem.CMap (enrollment_step o s) :: []) g)).
  { intros o' l s Hl.
    assert (Hl1 : Mem.cells (Mem.mk (base ++ [Mem.CMap o']) g) !! l = Some (Mem.CStudent s))
      by by apply lookup_app_l_Some.
    read_step Hl1.
    assert (Hmap : Mem.cells (Mem.mk (base ++ [Mem.CMap o']) g) !! length base
                   = Some (Mem.CMap o')) by apply lookup_new.
    read_step Hmap.
    rewrite (store_run _ _ _ _ Hmap). cbn [Mem.cells Mem.internal_grades].
    by rewrite insert_new. }
  rewrite (bind_normal _ _ _ _ _
             (for_of_store _ enrollment_step Mem.CMap _ base [] g elems ss
                JsObject.empty Hall Hbody)).
  fold o.
  assert (Hmap : Mem.cells (Mem.mk (base ++ [Mem.CMap o]) g) !! length base
                 = Some (Mem.CMap o)) by apply lookup_new.
  read_step Hmap.
  set (groups := List.map (λ '(major, count), mkMajorCount major count) (JsObject.entries o)).
  assert (Hcs : ((λ '(major, count), Mem.CMajorCount (mkMajorCount major count))
                   <$> JsObject.entries o) = Mem.CMajorCount <$> groups).
  { unfold groups. rewrite <- list_fmap_compose.
    apply list_fmap_ext. by intros _ [major count] _. }
  rewrite Hcs.
  rewrite (bind_normal _ _ _ _ _ (allocs_run _ _)).
  cbn [Mem.cells Mem.internal_grades]. rewrite length_fmap.
  set (locs := seq (length (base ++ [Mem.CMap o])) (length groups)).
  eexists _, _. split; [reflexivity |]. split.
  - split; [done |]. cbn [Mem.cells]. rewrite <- !app_assoc. by eexists.
  - exists locs. cbn [Mem.cells]. split; [apply lookup_new |].
    pose proof (Forall2_seq_new Mem.CMajorCount (base ++ [Mem.CMap o]) [Mem.CArray locs] groups)
      as H.
    eapply Forall2_impl; [exact H |].
    intros e x He. cbn beta in He. by rewrite app_assoc in He.
Qed.

(** The [filteredStudents] memo on an array of students: it completes
    as the function does on the students, with an array of the students
    that the function returns, which for a blank query is the array it
    was given; the memory is the one before the call, followed by the
    new array if there is one. *)
Lemma filteredStudents_run students ss search m :
  Mem.array_of Mem.CStudent m students ss →
  ∃ r m', Mem.filteredStudents students search m = Some (r, m')
          ∧ Mem.unchanged m m'
          ∧ match r, filteredStudents ss search with
            | Normal out, Normal ys => Mem.array_of Mem.CStudent m' out ys
            | TypeError, TypeError => True
            | _, _ => False
            end.
Proof.
  intros Hss. unfold Mem.filteredStudents, filteredStudents.
  destruct (falsy (toLowerCase (trim search))).
  { exists (Normal students), m. split; [done |]. split; [apply unchanged_refl | done]. }
  set (q := toLowerCase (trim search)).
  destruct Hss as (elems & Harr & Hall).
  match goal with
  | |- context [Mem.array_filter students ?cb] =>
      pose proof (array_filter_run
                    (λ l s, Mem.cells m !! l = Some (Mem.CStudent s)) cb (matches q)
                    m students elems ss Harr Hall) as Hrun
  end.
  destruct (filter_throwing (matches q) ss) as [ys|].
  - destruct Hrun as (kept & Hrun & Hkept).
    { intros l s Hl. by read_step Hl. }
    eexists _, _. split; [exact Hrun |]. split; [apply unchanged_app |].
    exists kept. cbn [Mem.cells]. split; [apply lookup_new |].
    eapply Forall2_impl; [exact Hkept |]. intros e x He. by apply lookup_app_l_Some.
  - exists TypeError, m. split; [| split; [apply unchanged_refl | done]].
    apply Hrun. intros l s Hl. by read_step Hl.
Qed.

(** What [window.__GRADES_FOR_APP] hands out: the stored array, or a new
    empty one. *)
Lemma get___GRADES_FOR_APP_run m gs (c : Mem.cell) :
  Mem.global_grades m gs →
  ∃ gl rest elems,
    Mem.get___GRADES_FOR_APP (Mem.mk (Mem.cells m ++ [c]) (Mem.internal_grades m))
    = Some (Normal gl, Mem.mk (Mem.cells m ++ c :: rest) (Mem.internal_grades m))
    ∧ (Mem.cells m ++ c :: rest) !! gl = Some (Mem.CArray elems)
    ∧ Forall2 (λ l x, Mem.cells m !! l = Some (Mem.CGrade x)) elems gs.
Proof.
  unfold Mem.global_grades, Mem.get___GRADES_FOR_APP. cbn [Mem.internal_grades].
  destruct (Mem.internal_grades m) as [gl|].
  - intros (elems & Harr & Hall). exists gl, [], elems.
    split; [done |]. split; [by apply lookup_app_l_Some | done].
  - intros ->. exists (length (Mem.cells m ++ [c])), [Mem.CArray []], [].
    split; [| split; [| constructor]].
    + unfold Mem.alloc. cbn [Mem.cells Mem.internal_grades].
      by rewrite <- app_assoc.
    + change (Mem.cells m ++ [c; Mem.CArray []])
        with (Mem.cells m ++ [c] ++ [Mem.CArray []]).
      rewrite app_assoc. apply lookup_new.
Qed.

Lemma alloc_run c m :
  Mem.alloc c m
  = Some (Normal (length (Mem.cells m)), Mem.mk (Mem.cells m ++ [c]) (Mem.internal_grades m)).
Proof. reflexivity. Qed.

(** Where an object is: it was there before, or it is the one just
    created, or it was created earlier in the run. *)
Ltac find_cell :=
  first [ eassumption
        | apply lookup_new
        | apply lookup_app_l_Some; find_cell ].

(** The next read, allocation or assignment of a run. *)
Ltac read_next :=
  match goal with
  | |- context [(Mem.read ?kind ?l ≫= ?k) ?m] =>
      erewrite (bind_normal (Mem.read kind l) k m _ m);
      [| eapply read_run; [cbn [Mem.cells]; find_cell | reflexivity]]
  end.

Ltac alloc_next :=
  rewrite (bind_normal _ _ _ _ _ (alloc_run _ _)); cbn [Mem.cells Mem.internal_grades].

(** [CourseAttendance] on arrays of attendance records and students:
    the view it builds is the one the function gives on the records, the
    students and the grade records that [window.__GRADES_FOR_APP] hands
    out, and the memory is the one before the call followed by the
    objects it created. *)
Lemma CourseAttendance_run code att studs records ss gs m :
  Mem.array_of Mem.CAttendance m att records →
  Mem.array_of Mem.CStudent m studs ss →
  Mem.global_grades m gs →
  ∃ r m', Mem.CourseAttendance code att studs m = Some (Normal r, m')
          ∧ Mem.unchanged m m'
          ∧ Mem.view_of m' r (attendance_view gs (mkProps code records ss)).
Proof.
  intros (aelems & Haarr & Haall) (selems & Hsarr & Hsall) Hg.
  unfold Mem.CourseAttendance.
  destruct (get___GRADES_FOR_APP_run m gs (Mem.CSet ∅) Hg)
    as (gl & rest & gelems & Hget & Hgl & Hgall).
  set (g0 := Mem.internal_grades m) in *. set (base := Mem.cells m) in *.
  rewrite (bind_normal _ _ m (length base) (Mem.mk (base ++ [Mem.CSet ∅]) g0)) by done.
  rewrite (bind_normal _ _ _ _ _ Hget).
  read_next.
  (* the loop that fills the set *)
  assert (Hbody1 : ∀ (e : gset (option string)) l x,
            base !! l = Some (Mem.CGrade x) →
            (g ← Mem.read Mem.grade l;
             if bool_decide (g_course_code g = code)
             then e ← Mem.read Mem.set (length base);
                  Mem.store (length base) (Mem.CSet ({[ g_student_id g ]} ∪ e))
             else mret tt)
              (Mem.mk (base ++ Mem.CSet e :: rest) g0)
            = Some (Normal tt, Mem.mk (base ++ Mem.CSet (enroll_step code e x) :: rest) g0)).
  { intros e l x Hl. read_next. unfold enroll_step.
    destruct (bool_decide (g_course_code x = code)); [| done].
    read_next.
    rewrite (store_run _ _ _ (Mem.CSet e)) by apply lookup_new.
    cbn [Mem.cells Mem.internal_grades]. by rewrite insert_new. }
  rewrite (bind_normal _ _ _ _ _
             (for_of_store _ (enroll_step code) Mem.CSet _ base rest g0 gelems gs ∅
                Hgall Hbody1)).
  fold (build_enrolled code gs). set (ids := build_enrolled code gs).
  (* the enrolled students *)
  set (f := λ s : Student, bool_decide (s_student_id s ∈ ids)).
  match goal with
  | |- context [Mem.array_filter studs ?cb] =>
      destruct (array_filter_run_normal
                  (λ l s, base !! l = Some (Mem.CStudent s)) cb f
                  (Mem.mk (base ++ Mem.CSet ids :: rest) g0) studs selems ss)
        as (kept & Hrun & Hkept)
  end.
  { cbn [Mem.cells]. find_cell. }
  { exact Hsall. }
  { intros l s Hl. read_next. read_next. done. }
  rewrite (bind_normal _ _ _ _ _ Hrun). cbn [Mem.cells Mem.internal_grades].
  (* the tally *)
  alloc_next. read_next.
  set (base' := (base ++ Mem.CSet ids :: rest) ++ [Mem.CArray kept]).
  assert (Hbody2 : ∀ (st : Stats) l a,
            base !! l = Some (Mem.CAttendance a) →
            (a ← Mem.read Mem.attendance_record l;
             e ← Mem.read Mem.set (length base);
             if negb (bool_decide (a_student_id a ∈ e)) then mret tt
             else st ← Mem.read Mem.stats_object (length base');
                  Mem.store (length base') (Mem.CStats (tally_step e st a)))
              (Mem.mk (base' ++ Mem.CStats st :: []) g0)
            = Some (Normal tt, Mem.mk (base' ++ Mem.CStats (tally_step ids st a) :: []) g0)).
  { intros st l a Hl. unfold base'. read_next. read_next. fold base'.
    destruct (negb (bool_decide (a_student_id a ∈ ids))) eqn:E.
    - unfold tally_step. by rewrite E.
    - read_next.
      rewrite (store_run _ _ _ (Mem.CStats st)) by apply lookup_new.
      cbn [Mem.cells Mem.internal_grades]. by rewrite insert_new. }
  rewrite (bind_normal _ _ _ _ _
             (for_of_store _ (tally_step ids) Mem.CStats _ base' [] g0 aelems records
                (mkStats 0 0 0) Haall Hbody2)).
  fold (tally ids records). set (st := tally ids records).
  read_next.
  alloc_next. alloc_next. alloc_next. alloc_next.
  unfold base'. read_next. alloc_next.
  eexists _, _. split; [reflexivity |]. split.
  - split; [done |]. cbn [Mem.cells]. rewrite <- !app_assoc. by eexists.
  - unfold Mem.view_of, attendance_view.
    cbn [Mem.r_enrolledStudentIds Mem.r_enrolled Mem.r_stats Mem.r_total Mem.r_sample
         enrolledStudentIds enrolled stats total sample courseCode attendance
         students Mem.cells].
    fold ids f st.
    split; [find_cell |]. split.
    { exists kept. split; [find_cell |].
      eapply Forall2_impl; [exact Hkept |]. intros e x He. cbn beta in He. find_cell. }
    split; [find_cell |]. split; [done |].
    exists (take 10 kept). split; [find_cell |].
    apply Forall2_take.
    eapply Forall2_impl; [exact Hkept |]. intros e x He. cbn beta in He. find_cell.
Qed.

End MemFacts.

(* ===================================================================== *)
(** * Main results *)
(* ===================================================================== *)

(** ** GPA *)

Section GpaClaims.

Import Binary64.

Lemma decimal2_eta d : Decimal2 (hundredths d) = d.
Proof. by destruct d. Qed.

Lemma letter_of_recase f r :
  (∀ s, toUpperCase (f s) = toUpperCase s) →
  Spec.letter_of (recase f r) = Spec.letter_of r.
Proof.
  intros Hf. unfold Spec.letter_of, recase. cbn [g_grade].
  destruct (g_grade r) as [s|]; [apply Hf | done].
Qed.

Lemma surviving_points_recase f studentId grades :
  (∀ s, toUpperCase (f s) = toUpperCase s) →
  Spec.surviving_points studentId (recase f <$> grades) =
  Spec.surviving_points studentId grades.
Proof.
  intros Hf. unfold Spec.surviving_points.
  induction grades as [|g grades IH]; [done |].
  cbn [fmap list_fmap List.filter]. change (g_student_id (recase f g)) with (g_student_id g).
  destruct (bool_decide _); [| apply IH].
  cbn [omap list_omap]. rewrite (letter_of_recase f g Hf).
  destruct (Spec.points_of_letter _); [f_equal |]; apply IH.
Qed.

(** C3: [computeGPA] returns [null] exactly when no record of the
    student carries a grade that upper-cases to one of A, B, C, D, F; in
    particular for the empty record list and when every grade of the
    student is unrecognised, and [null] is not the number 0. *)
Theorem calcGPAForStudent_null_iff (studentId : option string) (gradeRecords : list GradeRecord) :
  (calcGPAForStudent studentId gradeRecords = Null ↔
     ¬ ∃ r, r ∈ gradeRecords ∧ g_student_id r = studentId
            ∧ Spec.letter_of r ∈ Spec.letters)
  ∧ calcGPAForStudent studentId [] = Null
  ∧ ((∀ r, r ∈ gradeRecords → g_student_id r = studentId →
           Spec.letter_of r ∉ Spec.letters) →
     calcGPAForStudent studentId gradeRecords = Null)
  ∧ Null ≠ Num zero.
Proof.
  assert (Hiff : calcGPAForStudent studentId gradeRecords = Null ↔
            ¬ ∃ r, r ∈ gradeRecords ∧ g_student_id r = studentId
                   ∧ Spec.letter_of r ∈ Spec.letters).
  { rewrite <- surviving_points_nil, calcGPAForStudent_closed.
    by destruct (Spec.surviving_points studentId gradeRecords). }
  split; [exact Hiff |]. split; [done |]. split; [| done].
  intros Hall. apply Hiff. intros (r & Hr & Hid & Hl). by apply (Hall r).
Qed.

Lemma calcGPAForStudent_null_iff_witness :
  calcGPAForStudent (Some "S1"%string) Sample.grades_z = Null.
Proof.
  apply (calcGPAForStudent_null_iff (Some "S1"%string) Sample.grades_z).
  intros r Hr. unfold Sample.grades_z in Hr.
  each_member Hr ltac:(first [intros ?; discriminate | intros _; compute_done]).
Defined.

(** C9: a GPA that is not [null] is a number between 0.0 and 4.0. *)
Theorem calcGPAForStudent_range (studentId : option string) (gradeRecords : list GradeRecord) :
  calcGPAForStudent studentId gradeRecords ≠ Null →
  ∃ x, calcGPAForStudent studentId gradeRecords = Num x
       ∧ (0 <= to_Q x)%Q ∧ (to_Q x <= 4)%Q.
Proof.
  rewrite calcGPAForStudent_closed. unfold div_int.
  pose proof (surviving_points_range studentId gradeRecords) as Hrange.
  destruct (Spec.surviving_points studentId gradeRecords) as [|p0 pts]; [done |].
  intros _. set (P := Spec.Zsum (p0 :: pts)) in *.
  set (C := Z.of_nat (length (p0 :: pts))) in *.
  assert (HC : 0 < C) by (unfold C; simpl; lia).
  eexists. split; [reflexivity |].
  destruct (of_ratio_le_4 P C) as (m & K & E & HK & Hm); [lia | lia | lia |].
  pose proof (pow2_pos K HK) as HT.
  assert (Hn : 0 ≤ hundredths (toFixed2 (of_ratio P C)) ≤ 400).
  { rewrite (toFixed2_fraction _ m K E). split.
    - apply Z.div_pos; lia.
    - assert ((200 * m + 2 ^ K) / (2 * 2 ^ K) < 401); [| lia].
      apply Z.div_lt_upper_bound; lia. }
  unfold Number.
  destruct (of_ratio_le_4 (hundredths (toFixed2 (of_ratio P C))) 100)
    as (m' & K' & E' & HK' & Hm'); [lia | lia | lia |].
  rewrite (to_Q_fraction _ m' K' E').
  pose proof (pow2_pos K' HK') as HT'.
  unfold Qle. cbn [Qnum Qden]. rewrite Z2Pos.id by lia. lia.
Qed.

Lemma calcGPAForStudent_range_witness :
  ∃ x, calcGPAForStudent (Some "S1"%string) Sample.grades_A_B = Num x
       ∧ (0 <= to_Q x)%Q ∧ (to_Q x <= 4)%Q.
Proof.
  apply (calcGPAForStudent_range (Some "S1"%string) Sample.grades_A_B).
  by vm_compute.
Defined.

(** C4 (as amended): when some record of the student has a recognised
    letter, the GPA is the number printed by [toFixed(2)] for the double
    nearest the mean of the table's points, letters matched without
    regard to case.  That double is [m / 2^K] with [m] of 53 bits, within
    half a unit in the last place of the mean.  The result is the mean rounded half away from zero
    whenever the mean is not exactly halfway between two hundredths, and
    also at a halfway mean that is a multiple of 1/8, which a double
    holds exactly (0.125 gives 0.13).  At any halfway mean it is that
    rounding when the double is not below the mean, and one hundredth
    less when it is (0.075 gives 0.07). *)
Theorem calcGPAForStudent_mean (studentId : option string) (gradeRecords : list GradeRecord) :
  Z.of_nat (length gradeRecords) < 2 ^ 32 →
  Spec.surviving_points studentId gradeRecords ≠ [] →
  let pts := Spec.surviving_points studentId gradeRecords in
  let p := Spec.Zsum pts in
  let c := Z.of_nat (length pts) in
  let k := Spec.round_half_away_hundredths p c in
  let x := div_int p c in
  let n := hundredths (toFixed2 x) in
  calcGPAForStudent studentId gradeRecords = Num (Number (toFixed2 x))
  ∧ (∃ m K, fraction x = (m, 2 ^ K) ∧ 0 ≤ K
            ∧ - c ≤ 2 * (m * c - p * 2 ^ K) ≤ c
            ∧ (0 < p → 2 ^ 52 ≤ m < 2 ^ 53)
            ∧ (Spec.halfway p c → (n = k ↔ p * 2 ^ K ≤ m * c))
            ∧ (Spec.halfway p c → (n = k - 1 ↔ m * c < p * 2 ^ K)))
  ∧ k - 1 ≤ n ≤ k
  ∧ (¬ Spec.halfway p c → n = k)
  ∧ ((8 * p) mod c = 0 → n = k)
  ∧ calcGPAForStudent studentId (recase toLowerCase <$> gradeRecords)
    = calcGPAForStudent studentId gradeRecords
  ∧ calcGPAForStudent studentId (recase toUpperCase <$> gradeRecords)
    = calcGPAForStudent studentId gradeRecords.
Proof.
  intros Hlen Hne. cbv zeta.
  pose proof (surviving_points_range studentId gradeRecords) as Hrange.
  pose proof (surviving_points_length studentId gradeRecords) as Hcount.
  rewrite !calcGPAForStudent_closed.
  rewrite (surviving_points_recase toLowerCase) by apply toUpperCase_toLowerCase.
  rewrite (surviving_points_recase toUpperCase) by apply toUpperCase_idem.
  destruct (Spec.surviving_points studentId gradeRecords) as [|p0 pts] eqn:Epts; [done |].
  set (P := Spec.Zsum (p0 :: pts)) in *.
  set (C := Z.of_nat (length (p0 :: pts))) in *.
  assert (HC : 0 < C) by (unfold C; simpl; lia).
  assert (HCle : C < 2 ^ 32) by (unfold C; lia).
  assert (HP : 0 ≤ P) by lia.
  assert (Hsmall : 100 * P < 2 ^ 51).
  { change (2 ^ 51) with (2 ^ 19 * 2 ^ 32). lia. }
  destruct (toFixed2_div_int P C HP HC Hsmall) as [Hb Hh].
  destruct (div_int_nearest P C HP HC Hsmall) as (m & K & E & HK & Herr & Hnorm & Hrep & Htie).
  split; [reflexivity |].
  split.
  { exists m, K. split; [exact E |]. split; [exact HK |]. split; [exact Herr |].
    split; [exact Hnorm |]. split; [exact Htie |]. intros Hhalf. specialize (Htie Hhalf). lia. }
  split; [exact Hb |]. split; [exact Hh |].
  split; [| split; reflexivity].
  intros Hdiv. specialize (Hrep Hdiv).
  destruct (Z.eq_dec ((200 * P + C) mod (2 * C)) 0) as [Hhalf | Hhalf].
  - apply (Htie Hhalf). lia.
  - apply Hh. exact Hhalf.
Qed.

(** Two runs: grades A and B, mean 3.5, not a halfway mean; and one D
    among eight grades, the halfway mean 0.125, which is a multiple of
    1/8 and is printed as 0.13. *)
Lemma calcGPAForStudent_mean_witness :
  Z.of_nat (length Sample.grades_A_B) < 2 ^ 32
  ∧ Z.of_nat (length Sample.grades_1D_7F) < 2 ^ 32
  ∧ calcGPAForStudent (Some "S1"%string) Sample.grades_A_B = Num (Number (Decimal2 350))
  ∧ Spec.halfway 1 8
  ∧ calcGPAForStudent (Some "S1"%string) Sample.grades_1D_7F = Num (Number (Decimal2 13)).
Proof.
  assert (Hlen : Z.of_nat (length Sample.grades_A_B) < 2 ^ 32) by (vm_compute; reflexivity).
  assert (Hlen' : Z.of_nat (length Sample.grades_1D_7F) < 2 ^ 32) by (vm_compute; reflexivity).
  split; [exact Hlen |]. split; [exact Hlen' |].
  split; [| split; [by vm_compute |]].
  - pose proof (calcGPAForStudent_mean (Some "S1"%string) Sample.grades_A_B Hlen) as H.
    cbv zeta in H. destruct H as (E & _ & _ & Hh & _); [by vm_compute |].
    rewrite E, <- (decimal2_eta (toFixed2 _)), Hh; [by vm_compute | by vm_compute].
  - pose proof (calcGPAForStudent_mean (Some "S1"%string) Sample.grades_1D_7F Hlen') as H.
    cbv zeta in H. destruct H as (E & _ & _ & _ & Hrep & _); [by vm_compute |].
    rewrite E, <- (decimal2_eta (toFixed2 _)), Hrep; [by vm_compute | by vm_compute].
Defined.

(** C4 as stated fails: a mean of 3/40 = 0.075 is printed as 0.07, not
    as the 0.08 of rounding half away from zero, the double nearest to
    0.075 being slightly below it. *)
Lemma calcGPAForStudent_not_half_away :
  calcGPAForStudent (Some "S1"%string) Sample.grades_3D_37F = Num (Number (Decimal2 7))
  ∧ Spec.computeGPA (Some "S1"%string) Sample.grades_3D_37F = Num (Number (Decimal2 8))
  ∧ calcGPAForStudent (Some "S1"%string) Sample.grades_3D_37F
    ≠ Spec.computeGPA (Some "S1"%string) Sample.grades_3D_37F.
Proof. split; [by vm_compute | split; by vm_compute]. Qed.

(** The example of the specification: grades A and B give 3.5. *)
Example calcGPAForStudent_A_B :
  ∃ x, calcGPAForStudent (Some "S1"%string) Sample.grades_A_B = Num x
       ∧ (to_Q x == 7 # 2)%Q.
Proof.
  eexists. split; [by vm_compute |].
  by vm_compute.
Qed.

End GpaClaims.

(** ** Search filter *)

Section FilterClaims.

Lemma filter_sublist {A} (f : A → bool) l : sublist (List.filter f l) l.
Proof.
  induction l as [|x l IH]; [constructor |].
  cbn [List.filter]. destruct (f x); by constructor.
Qed.

Lemma filteredStudents_blank students query :
  Spec.whitespace_only query → filteredStudents students query = Normal students.
Proof.
  intros H. unfold filteredStudents.
  by rewrite (proj2 (query_falsy query) H).
Qed.

Lemma filteredStudents_not_blank students query :
  ¬ Spec.whitespace_only query →
  filteredStudents students query =
  filter_throwing (matches (toLowerCase (trim query))) students.
Proof.
  intros H. unfold filteredStudents.
  destruct (falsy (toLowerCase (trim query))) eqn:E; [| done].
  by apply query_falsy in E.
Qed.

Lemma filter_agree {A} (f g : A → bool) (l : list A) :
  (∀ x, x ∈ l → (f x = true ↔ g x = true)) → List.filter f l = List.filter g l.
Proof.
  intros H. induction l as [|x l IH]; [done |].
  cbn [List.filter]. rewrite IH by (intros y Hy; apply H; by right).
  specialize (H x ltac:(left)). destruct H as [H1 H2].
  destruct (f x), (g x); try done.
  - by specialize (H1 eq_refl).
  - by specialize (H2 eq_refl).
Qed.



(** The filter at work: the query is trimmed and matched without regard
    to case against the id and the name. *)
Example filteredStudents_ann :
  filteredStudents Sample.students " ANN " = Normal (take 1 Sample.students)
  ∧ filteredStudents Sample.students "s2" = Normal (drop 1 Sample.students).
Proof. split; by vm_compute. Qed.



End FilterClaims.

(** ** Course attendance *)

Section AttendanceClaims.



(** C1 (as amended): the enrolled set is exactly the set of [student_id]
    values of the records with the given course code among the grade
    records read from [window.__GRADES_FOR_APP] (none when nothing was
    stored there); the component has no grade-record argument. *)
Theorem CourseAttendance_enrolled (p : Props) (w : Window) :
  let v := (CourseAttendance p w).1 in
  ∀ id, id ∈ enrolledStudentIds v ↔
        Spec.enrolled_in (courseCode p) (default [] (__internal_grades_for_app w)) id.
Proof. cbv zeta. intros id. apply elem_of_build_enrolled. Qed.

(** C1 as stated fails: on the page as loaded, student S1 has a grade
    record for course C1 in the application's grade records, and is not in
    the enrolled set that the component builds for C1. *)
Lemma CourseAttendance_not_from_grade_records :
  App.reachable Sample.loaded_C1
  ∧ App.grades Sample.loaded_C1.1 = Sample.grades
  ∧ Spec.enrolled_in (Some "C1"%string) (App.grades Sample.loaded_C1.1) (Some "S1"%string)
  ∧ ∃ v, (App.render_course_attendance Sample.loaded_C1.1 Sample.loaded_C1.2).1 = Some v
         ∧ Some "S1"%string ∉ enrolledStudentIds v.
Proof.
  split; [repeat constructor |]. split; [reflexivity |]. split.
  - exists (mkGrade (Some "S1") (Some "C1") (Some "A"))%string.
    split; [left | done].
  - eexists. split; [reflexivity |]. apply not_elem_of_empty.
Qed.

(** C8: on every page the program can reach, nothing is stored in
    [window], the getter of [__GRADES_FOR_APP] hands out the empty array,
    and whatever its props the component computes an empty enrolled set
    and zero for Present, Absent, Other and the total. *)
Theorem CourseAttendance_always_empty (cfg : App.state * Window) :
  App.reachable cfg →
  cfg.2 = initial_window
  ∧ (get___GRADES_FOR_APP cfg.2).1 = []
  ∧ ∀ p, let v := (CourseAttendance p cfg.2).1 in
         enrolledStudentIds v = ∅ ∧ enrolled v = []
         ∧ stats v = mkStats 0 0 0 ∧ total v = 0.
Proof.
  intros Hr. apply reachable_window in Hr. rewrite Hr.
  split; [done |]. split; [done |]. intros p. cbv zeta.
  change (CourseAttendance p initial_window).1 with (attendance_view [] p).
  by rewrite attendance_view_nil.
Qed.

Lemma CourseAttendance_always_empty_witness :
  App.reachable Sample.loaded_C1
  ∧ total (CourseAttendance Sample.props Sample.loaded_C1.2).1 = 0.
Proof.
  assert (Hr : App.reachable Sample.loaded_C1) by repeat constructor.
  split; [exact Hr |].
  apply (CourseAttendance_always_empty Sample.loaded_C1 Hr).
Defined.

(** C2 (as amended): run against a memory of objects, every aggregator
    leaves each object that existed before the call as it was, the
    arrays and rows it was given and [window.__internal_grades_for_app]
    included: what it assigns to are objects it created itself.
    [computeGPA], [enrollmentByMajor] and [filterStudents] return what
    the rows reachable from their arguments determine, whatever else the
    memory and [window] hold.  [courseAttendance] returns what its
    arguments determine together with the grade records stored in
    [window.__GRADES_FOR_APP], none when nothing is stored. *)
Theorem aggregators_on_memory (m : Mem.t) :
  (∀ studentId grades gradeRecords,
     Mem.array_of Mem.CGrade m grades gradeRecords →
     ∃ m', Mem.calcGPAForStudent studentId grades m
           = Some (Normal (calcGPAForStudent studentId gradeRecords), m')
           ∧ Mem.unchanged m m')
  ∧ (∀ students rows,
       Mem.array_of Mem.CStudent m students rows →
       ∃ out m', Mem.calculateEnrollmentByMajor students m = Some (Normal out, m')
                 ∧ Mem.unchanged m m'
                 ∧ Mem.array_of Mem.CMajorCount m' out (calculateEnrollmentByMajor rows))
  ∧ (∀ students rows query,
       Mem.array_of Mem.CStudent m students rows →
       ∃ r m', Mem.filteredStudents students query m = Some (r, m')
               ∧ Mem.unchanged m m'
               ∧ match r, filteredStudents rows query with
                 | Normal out, Normal found => Mem.array_of Mem.CStudent m' out found
                 | TypeError, TypeError => True
                 | _, _ => False
                 end)
  ∧ (∀ courseCode attendance students records rows stored,
       Mem.array_of Mem.CAttendance m attendance records →
       Mem.array_of Mem.CStudent m students rows →
       Mem.global_grades m stored →
       ∃ r m', Mem.CourseAttendance courseCode attendance students m = Some (Normal r, m')
               ∧ Mem.unchanged m m'
               ∧ Mem.view_of m' r
                   (attendance_view stored (mkProps courseCode records rows))).
Proof.
  split; [| split; [| split]].
  - intros studentId grades gradeRecords. apply calcGPAForStudent_run.
  - intros students rows. apply calculateEnrollmentByMajor_run.
  - intros students rows query. apply filteredStudents_run.
  - intros courseCode attendance students records rows stored.
    apply CourseAttendance_run.
Qed.

(** The sample memory: the GPA of student S1 is computed from the grade
    array, and the attendance view of course C1 from the attendance and
    student arrays and the grade records the page has stored; both runs
    leave the memory they started from as it was. *)
Lemma aggregators_on_memory_witness :
  Mem.array_of Mem.CGrade sample_memory 4 Sample.grades
  ∧ Mem.array_of Mem.CAttendance sample_memory 9 Sample.attendance
  ∧ Mem.array_of Mem.CStudent sample_memory 2 Sample.students
  ∧ Mem.global_grades sample_memory Sample.grades
  ∧ (∃ m', Mem.calcGPAForStudent (Some "S1"%string) 4 sample_memory
           = Some (Normal (calcGPAForStudent (Some "S1"%string) Sample.grades), m')
           ∧ Mem.unchanged sample_memory m')
  ∧ (∃ r m', Mem.CourseAttendance (Some "C1"%string) 9 2 sample_memory = Some (Normal r, m')
             ∧ Mem.unchanged sample_memory m'
             ∧ Mem.view_of m' r (attendance_view Sample.grades Sample.props)).
Proof.
  assert (Hg : Mem.array_of Mem.CGrade sample_memory 4 Sample.grades).
  { exists [3%nat]. split; [reflexivity | by repeat constructor]. }
  assert (Ha : Mem.array_of Mem.CAttendance sample_memory 9 Sample.attendance).
  { exists [5; 6; 7; 8]%nat. split; [reflexivity | by repeat constructor]. }
  assert (Hs : Mem.array_of Mem.CStudent sample_memory 2 Sample.students).
  { exists [0; 1]%nat. split; [reflexivity | by repeat constructor]. }
  split; [exact Hg |]. split; [exact Ha |]. split; [exact Hs |]. split; [exact Hg |].
  split.
  - exact (proj1 (aggregators_on_memory sample_memory) _ _ _ Hg).
  - exact (proj2 (proj2 (proj2 (aggregators_on_memory sample_memory)))
             (Some "C1"%string) _ _ _ _ _ Ha Hs Hg).
Defined.

(** C2 as stated fails for [courseAttendance]: the same props give
    different outputs on two pages that differ only in what
    [window.__GRADES_FOR_APP] holds. *)
Lemma CourseAttendance_depends_on_window :
  (invoke (CourseAttendanceOf Sample.props) initial_window).1
  ≠ (invoke (CourseAttendanceOf Sample.props) Sample.window_with_grades).1.
Proof.
  intros H. apply (f_equal output_total) in H.
  change (total (attendance_view [] Sample.props)
          = total (attendance_view Sample.grades Sample.props)) in H.
  rewrite attendance_view_nil in H. unfold attendance_view in H.
  cbn [total] in H. rewrite tally_counted in H.
  cbn [Present Absent Other] in H. rewrite counted_total in H.
  vm_compute in H. discriminate H.
Qed.

(** The same on objects in memory: two memories with the same objects
    and the same arguments, which differ only in whether the page has
    stored the grade records, give totals 3 and 0. *)
Example CourseAttendance_memory_depends_on_window :
  Mem.cells sample_memory_unset = Mem.cells sample_memory
  ∧ (∃ r m', Mem.CourseAttendance (Some "C1"%string) 9 2 sample_memory = Some (Normal r, m')
             ∧ Mem.r_total r = 3)
  ∧ (∃ r m', Mem.CourseAttendance (Some "C1"%string) 9 2 sample_memory_unset
             = Some (Normal r, m')
             ∧ Mem.r_total r = 0).
Proof.
  split; [reflexivity |].
  split; eexists _, _; (split; [by vm_compute | reflexivity]).
Qed.

End AttendanceClaims.

(** ** Enrollment by major *)

Section EnrollmentClaims.

(** C5 (as amended): for students none of whose majors is the name of a
    property that objects inherit, the result holds one group per major
    (a missing or empty major counting as "Undeclared"), each with the
    number of its students; the groups whose major is an array index come
    first, in ascending numeric order, and the other groups follow in the
    order of the first occurrence of their major.  When no major is an
    array index the result is the groups in first-occurrence order. *)
Theorem calculateEnrollmentByMajor_groups (students : list Student) :
  (∀ s, s ∈ students → Spec.major_of s ∉ objectPrototypeNames) →
  let groups := Spec.enrollmentByMajor students in
  (∃ indexed,
     calculateEnrollmentByMajor students
     = indexed ++ List.filter (λ g, negb (indexed_major g)) groups
     ∧ indexed ≡ₚ List.filter indexed_major groups
     ∧ StronglySorted major_index_le indexed)
  ∧ ((∀ s, s ∈ students → JsObject.is_index (Spec.major_of s) = false) →
     calculateEnrollmentByMajor students = groups).
Proof.
  intros Hproto. cbv zeta.
  pose proof (enrollment_loop students Hproto) as Hloop.
  rewrite calculateEnrollmentByMajor_entries. unfold JsObject.entries.
  set (o := fold_left enrollment_step students JsObject.empty) in *.
  rewrite List.map_app.
  rewrite (map_entry_of_filter (λ k, negb (JsObject.is_index k))), Hloop.
  split.
  - eexists. split; [reflexivity |]. split.
    + rewrite sort_by_index_perm, (map_entry_of_filter JsObject.is_index). by rewrite Hloop.
    + apply StronglySorted_map_entry_of, sort_by_index_sorted.
  - intros Hidx.
    assert (Hnone : ∀ g, g ∈ Spec.enrollmentByMajor students → indexed_major g = false).
    { intros g Hg. apply elem_of_enrollmentByMajor in Hg as (s & Hs & Hm).
      unfold indexed_major. rewrite Hm. by apply Hidx. }
    assert (Hempty : List.filter (λ p, JsObject.is_index p.1) o = []).
    { pose proof (map_entry_of_filter JsObject.is_index o) as Hf.
      rewrite Hloop in Hf.
      change (λ g, JsObject.is_index (major g)) with indexed_major in Hf.
      rewrite (filter_none indexed_major) in Hf by done.
      by destruct (List.filter _ o). }
    rewrite Hempty. cbn [JsObject.sort_by_index foldr List.map app].
    apply filter_all. intros g Hg. unfold indexed_major in Hnone.
    by rewrite (Hnone g Hg).
Qed.

Lemma calculateEnrollmentByMajor_groups_witness :
  calculateEnrollmentByMajor Sample.students_CS_CS_empty
  = Spec.enrollmentByMajor Sample.students_CS_CS_empty.
Proof.
  apply (calculateEnrollmentByMajor_groups Sample.students_CS_CS_empty).
  - intros s Hs. unfold Sample.students_CS_CS_empty in Hs.
    each_member Hs ltac:(compute_done).
  - intros s Hs. unfold Sample.students_CS_CS_empty in Hs.
    each_member Hs ltac:(by vm_compute).
Defined.

(** The example of the specification. *)
Example calculateEnrollmentByMajor_CS_CS_empty :
  calculateEnrollmentByMajor Sample.students_CS_CS_empty
  = [mkMajorCount "CS" (JsObject.VNum 2); mkMajorCount "Undeclared" (JsObject.VNum 1)].
Proof. by vm_compute. Qed.

(** C5 as stated fails: with the majors "CS" then "7", the group of "7"
    comes first although "CS" occurred first, because [Object.entries]
    lists array-index keys before the others. *)
Lemma calculateEnrollmentByMajor_not_first_seen :
  Spec.major_of <$> Sample.students = ["CS"; "7"]%string
  ∧ calculateEnrollmentByMajor Sample.students
    = [mkMajorCount "7" (JsObject.VNum 1); mkMajorCount "CS" (JsObject.VNum 1)]
  ∧ Spec.enrollmentByMajor Sample.students
    = [mkMajorCount "CS" (JsObject.VNum 1); mkMajorCount "7" (JsObject.VNum 1)]
  ∧ calculateEnrollmentByMajor Sample.students ≠ Spec.enrollmentByMajor Sample.students.
Proof. repeat split; by vm_compute. Qed.

End EnrollmentClaims.

(* ===================================================================== *)
(** * Further properties of the code *)
(* ===================================================================== *)

(** ** [calcGPAForStudent] *)

Section GpaMore.

Import Binary64.

Lemma calcGPAForStudent_points studentId grades :
  calcGPAForStudent studentId grades
  = gpa_of_points (Spec.surviving_points studentId grades).
Proof.
  rewrite calcGPAForStudent_closed.
  by destruct (Spec.surviving_points studentId grades).
Qed.

Lemma toFixed2_range P C :
  0 ≤ P ≤ 4 * C → 0 < C → 0 ≤ hundredths (toFixed2 (div_int P C)) ≤ 400.
Proof.
  intros HP HC. unfold div_int.
  destruct (of_ratio_le_4 P C) as (m & K & E & HK & Hm); [lia | lia | lia |].
  pose proof (pow2_pos K HK) as HT.
  rewrite (toFixed2_fraction _ m K E). split.
  - apply Z.div_pos; lia.
  - assert ((200 * m + 2 ^ K) / (2 * 2 ^ K) < 401); [| lia].
    apply Z.div_lt_upper_bound; lia.
Qed.

(** X1: the result is [null] or a number with two decimals from 0.00 to
    4.00; the [in] test on [gradePoints] never lets an inherited property
    in, so the result is never [NaN]. *)
Theorem calcGPAForStudent_two_decimals (studentId : option string) (grades : list GradeRecord) :
  calcGPAForStudent studentId grades ≠ NaN
  ∧ (calcGPAForStudent studentId grades = Null
     ∨ ∃ n, 0 ≤ n ≤ 400
            ∧ calcGPAForStudent studentId grades = Num (Number (Decimal2 n))).
Proof.
  rewrite calcGPAForStudent_points.
  pose proof (surviving_points_range studentId grades) as Hrange.
  destruct (Spec.surviving_points studentId grades) as [|p0 pts]; cbn [gpa_of_points].
  { split; [done | by left]. }
  split; [done |]. right.
  exists (hundredths (toFixed2 (div_int (Spec.Zsum (p0 :: pts))
                                  (Z.of_nat (length (p0 :: pts)))))).
  split; [| by rewrite decimal2_eta].
  apply toFixed2_range; [done |]. cbn [length]. lia.
Qed.

Lemma surviving_points_app studentId l1 l2 :
  Spec.surviving_points studentId (l1 ++ l2)
  = Spec.surviving_points studentId l1 ++ Spec.surviving_points studentId l2.
Proof. unfold Spec.surviving_points. by rewrite List.filter_app, omap_app. Qed.

Lemma surviving_points_skip studentId g :
  g_student_id g ≠ studentId ∨ Spec.letter_of g ∉ Spec.letters →
  Spec.surviving_points studentId [g] = [].
Proof.
  intros H. unfold Spec.surviving_points. cbn [List.filter].
  destruct (bool_decide_reflect (g_student_id g = studentId)) as [Hid | Hid]; [| done].
  destruct H as [H | H]; [done |]. cbn [omap list_omap].
  destruct (Spec.points_of_letter (Spec.letter_of g)) eqn:E; [| done].
  exfalso. apply H, points_of_letter_some. by eexists.
Qed.

(** X2: a record of another student, or one whose grade is not one of the
    five letters, can be added or removed anywhere without changing the
    GPA. *)
Theorem calcGPAForStudent_ignores (studentId : option string)
    (before after : list GradeRecord) (g : GradeRecord) :
  g_student_id g ≠ studentId ∨ Spec.letter_of g ∉ Spec.letters →
  calcGPAForStudent studentId (before ++ g :: after)
  = calcGPAForStudent studentId (before ++ after).
Proof.
  intros H. rewrite !calcGPAForStudent_points.
  change (g :: after) with ([g] ++ after).
  by rewrite !surviving_points_app, (surviving_points_skip _ _ H).
Qed.

Lemma calcGPAForStudent_ignores_witness :
  calcGPAForStudent (Some "S1"%string)
    (take 1 Sample.grades_A_B
       ++ mkGrade (Some "S1"%string) (Some "C9"%string) (Some "W"%string)
       :: drop 1 Sample.grades_A_B)
  = calcGPAForStudent (Some "S1"%string) (take 1 Sample.grades_A_B ++ drop 1 Sample.grades_A_B).
Proof.
  apply (calcGPAForStudent_ignores (Some "S1"%string)). right. compute_done.
Defined.

Lemma surviving_points_perm studentId l1 l2 :
  l1 ≡ₚ l2 →
  Spec.surviving_points studentId l1 ≡ₚ Spec.surviving_points studentId l2.
Proof.
  induction 1 as [|g l1 l2 _ IH|g h l|l1 l2 l3 _ IH1 _ IH2].
  - done.
  - change (g :: l1) with ([g] ++ l1). change (g :: l2) with ([g] ++ l2).
    rewrite !surviving_points_app. by rewrite IH.
  - change (h :: g :: l) with ([h] ++ [g] ++ l).
    change (g :: h :: l) with ([g] ++ [h] ++ l).
    rewrite !surviving_points_app, !app_assoc.
    f_equiv. apply Permutation_app_comm.
  - by etrans.
Qed.

Lemma Zsum_perm l1 l2 : l1 ≡ₚ l2 → Spec.Zsum l1 = Spec.Zsum l2.
Proof.
  induction 1 as [|x l1 l2 _ IH|x y l|l1 l2 l3 _ IH1 _ IH2]; cbn [Spec.Zsum]; lia.
Qed.

Lemma gpa_of_points_perm l1 l2 : l1 ≡ₚ l2 → gpa_of_points l1 = gpa_of_points l2.
Proof.
  intros H. pose proof (Zsum_perm _ _ H) as Hs.
  pose proof (Permutation_length H) as Hl.
  destruct l1 as [|x l1], l2 as [|y l2]; try done.
  unfold gpa_of_points. by rewrite Hs, Hl.
Qed.

(** X3: the GPA does not depend on the order of the grade records. *)
Theorem calcGPAForStudent_permutation (studentId : option string)
    (grades grades' : list GradeRecord) :
  grades ≡ₚ grades' →
  calcGPAForStudent studentId grades = calcGPAForStudent studentId grades'.
Proof.
  intros H. rewrite !calcGPAForStudent_points.
  by apply gpa_of_points_perm, surviving_points_perm.
Qed.

Lemma calcGPAForStudent_permutation_witness :
  calcGPAForStudent (Some "S1"%string) Sample.grades_A_B
  = calcGPAForStudent (Some "S1"%string) (rev Sample.grades_A_B).
Proof.
  apply (calcGPAForStudent_permutation (Some "S1"%string)).
  apply perm_swap.
Defined.

Lemma Zsum_uniform p (pts : list Z) :
  (∀ x, x ∈ pts → x = p) → Spec.Zsum pts = p * Z.of_nat (length pts).
Proof.
  induction pts as [|x pts IH]; intros H; [cbn; lia |].
  cbn [Spec.Zsum length]. rewrite Nat2Z.inj_succ, IH.
  - rewrite (H x) by left. lia.
  - intros y Hy. apply H. by right.
Qed.

(** X4: when every counted grade of the student carries the same points
    [p], the GPA is exactly [p]: 4.00 for straight A, and 0.00, not
    [null], for straight F. *)
Theorem calcGPAForStudent_uniform (studentId : option string)
    (grades : list GradeRecord) (p : Z) :
  Z.of_nat (length grades) < 2 ^ 32 →
  Spec.surviving_points studentId grades ≠ [] →
  (∀ x, x ∈ Spec.surviving_points studentId grades → x = p) →
  calcGPAForStudent studentId grades = Num (Number (Decimal2 (100 * p))).
Proof.
  intros Hlen Hne Hall. rewrite calcGPAForStudent_points.
  pose proof (surviving_points_range studentId grades) as Hrange.
  pose proof (surviving_points_length studentId grades) as Hcount.
  pose proof (Zsum_uniform p _ Hall) as Hsum.
  destruct (Spec.surviving_points studentId grades) as [|p0 pts]; [done |].
  cbn [gpa_of_points].
  set (C := Z.of_nat (length (p0 :: pts))) in *.
  assert (HC : 0 < C) by (unfold C; cbn [length]; lia).
  assert (HCle : C < 2 ^ 32) by (unfold C; lia).
  rewrite Hsum in *.
  assert (Hp : 0 ≤ p ≤ 4) by nia.
  destruct (toFixed2_div_int (p * C) C) as [_ Hh]; [nia | lia | |].
  { change (2 ^ 51) with (2 ^ 19 * 2 ^ 32). nia. }
  assert (Hmod : (200 * (p * C) + C) = (100 * p) * (2 * C) + C) by lia.
  rewrite <- (decimal2_eta (toFixed2 _)), Hh.
  - do 3 f_equal. unfold Spec.round_half_away_hundredths.
    symmetry. apply (Z.div_unique_pos _ _ _ C); lia.
  - unfold Spec.halfway. rewrite Hmod, Z.add_comm, Z_mod_plus_full.
    rewrite Z.mod_small; lia.
Qed.

Lemma calcGPAForStudent_uniform_witness :
  calcGPAForStudent (Some "S1"%string) (drop 3 Sample.grades_3D_37F)
  = Num (Number (Decimal2 (100 * 0))).
Proof.
  apply (calcGPAForStudent_uniform (Some "S1"%string)).
  - by vm_compute.
  - by vm_compute.
  - intros x Hx. vm_compute in Hx. each_member Hx ltac:(reflexivity).
Defined.

(** X23: reading a two-decimal numeral as a number and printing it again
    with [toFixed(2)] gives the numeral back, so the GPA is unchanged by
    rounding it once more, and two GPAs are the same number only when
    they are the same numeral. *)
Theorem Number_toFixed2_round_trip (d d' : decimal2) :
  0 ≤ hundredths d ≤ 400 → 0 ≤ hundredths d' ≤ 400 →
  toFixed2 (Number d) = d
  ∧ Number (toFixed2 (Number d)) = Number d
  ∧ (Number d = Number d' → d = d').
Proof.
  assert (Hrt : ∀ e, 0 ≤ hundredths e ≤ 400 → toFixed2 (Number e) = e).
  { intros [n] Hn. unfold Number. cbn [hundredths] in *.
    destruct (toFixed2_div_int n 100) as [_ Hh]; [lia | lia | |].
    { change (2 ^ 51) with (2 ^ 35 * 2 ^ 16). lia. }
    unfold div_int in Hh.
    rewrite <- (decimal2_eta (toFixed2 _)), Hh.
    - f_equal. unfold Spec.round_half_away_hundredths.
      symmetry. apply (Z.div_unique_pos _ _ _ 100); lia.
    - unfold Spec.halfway.
      replace (200 * n + 100) with (100 + n * (2 * 100)) by lia.
      by rewrite Z_mod_plus_full. }
  intros Hd Hd'. split; [by apply Hrt |]. split; [by rewrite Hrt |].
  intros E. by rewrite <- (Hrt d), <- (Hrt d'), E.
Qed.

Lemma Number_toFixed2_round_trip_witness :
  toFixed2 (Number (Decimal2 7)) = Decimal2 7
  ∧ (Number (Decimal2 7) = Number (Decimal2 8) → Decimal2 7 = Decimal2 8).
Proof.
  pose proof (Number_toFixed2_round_trip (Decimal2 7) (Decimal2 8)) as H.
  cbn [hundredths] in H.
  destruct H as (H1 & _ & H3); [lia | lia |]. by split.
Defined.

End GpaMore.

(** ** [calculateEnrollmentByMajor] *)

Section EnrollmentMore.

Implicit Types (ms : list string) (o : JsObject.t).

Lemma string_app_assoc (a b c : string) : ((a +:+ b) +:+ c = a +:+ (b +:+ c))%string.
Proof.
  induction a as [|x a IH]; [done |].
  change (String x ((a +:+ b) +:+ c) = String x (a +:+ (b +:+ c))). by rewrite IH.
Qed.

Lemma method_text_not_falsy name rest : falsy (JsObject.method_text name +:+ rest) = false.
Proof. reflexivity. Qed.

(** One more student of a major already counted [k] times. *)
Lemma or_zero_plus_one_count m k :
  JsObject.or_zero_plus_one (JsObject.ROwn (count_value m k)) = count_value m (S k).
Proof.
  unfold count_value. destruct (bool_decide _); cbn [JsObject.or_zero_plus_one].
  - rewrite method_text_not_falsy. cbn [ones]. by rewrite string_app_assoc.
  - by rewrite Nat2Z.inj_succ, Z.add_1_r.
Qed.

Lemma proto_inherited : "__proto__"%string ∈ objectPrototypeNames.
Proof. unfold objectPrototypeNames. rewrite !elem_of_cons. auto 20. Qed.

(** The first student of a major. *)
Lemma or_zero_plus_one_first o m :
  is_proto m = false → assoc m o = None →
  JsObject.or_zero_plus_one (JsObject.get o m) = count_value m 1.
Proof.
  unfold is_proto, JsObject.get, count_value. intros -> ->.
  by destruct (bool_decide _).
Qed.

Lemma assoc_table {V} (f : string → V) m keys :
  assoc m (List.map (λ k, (k, f k)) keys) =
  if bool_decide (m ∈ keys) then Some (f m) else None.
Proof.
  induction keys as [|k keys IH]; [done |].
  cbn [List.map assoc]. destruct (String.eqb_spec m k) as [-> | Hne].
  - by rewrite bool_decide_eq_true_2 by left.
  - rewrite IH. destruct (bool_decide_reflect (m ∈ keys)) as [Hin | Hin].
    + by rewrite bool_decide_eq_true_2 by (by right).
    + rewrite bool_decide_eq_false_2; [done |]. rewrite elem_of_cons. tauto.
Qed.

Lemma replace_table {V} (f g : string → V) m keys :
  NoDup keys → m ∈ keys →
  (∀ k, k ≠ m → g k = f k) →
  JsObject.replace m (g m) (List.map (λ k, (k, f k)) keys) = List.map (λ k, (k, g k)) keys.
Proof.
  intros Hnd Hin Hg. induction Hnd as [|k keys Hk Hnd IH]; [by apply elem_of_nil in Hin |].
  cbn [List.map JsObject.replace]. destruct (String.eqb_spec m k) as [-> | Hne].
  - f_equal. apply List.map_ext_in. intros k' Hk'. rewrite <- list_elem_of_In in Hk'.
    rewrite Hg; [done |]. by intros ->.
  - apply elem_of_cons in Hin as [-> | Hin]; [done |].
    rewrite (Hg k) by done. f_equal. by apply IH.
Qed.

Lemma occurrences_nat_snoc k ms m :
  occurrences_nat k (ms ++ [m]) =
  (occurrences_nat k ms + (if String.eqb k m then 1 else 0))%nat.
Proof.
  unfold occurrences_nat. rewrite List.filter_app, length_app. cbn [List.filter].
  by destruct (String.eqb k m).
Qed.

Lemma occurrences_nat_not_in k ms : k ∉ ms → occurrences_nat k ms = 0%nat.
Proof.
  intros Hk. unfold occurrences_nat.
  induction ms as [|x ms IH]; [done |].
  cbn [List.filter]. apply not_elem_of_cons in Hk as [Hne Hk].
  destruct (String.eqb_spec k x); [done | by apply IH].
Qed.

Lemma elem_of_not_proto m ms :
  m ∈ List.filter (λ m, negb (is_proto m)) ms ↔ m ∈ ms ∧ is_proto m = false.
Proof.
  rewrite elem_of_List_filter.
  destruct (is_proto m); cbn [negb]; split; intros [H1 H2]; done.
Qed.

(** How the counting object grows with one more major. *)
Lemma counting_object_snoc ms m :
  counting_object (ms ++ [m]) =
  if is_proto m then counting_object ms
  else if bool_decide (m ∈ ms)
       then JsObject.replace m (count_value m (S (occurrences_nat m ms))) (counting_object ms)
       else counting_object ms ++ [(m, count_value m 1)].
Proof.
  unfold counting_object. rewrite List.filter_app. cbn [List.filter].
  destruct (is_proto m) eqn:Hp; cbn [negb].
  - rewrite app_nil_r. apply List.map_ext_in. intros k Hk.
    rewrite <- list_elem_of_In, elem_of_first_occurrences, elem_of_not_proto in Hk.
    destruct Hk as [_ Hk]. rewrite occurrences_nat_snoc.
    destruct (String.eqb_spec k m) as [-> | _]; [congruence |].
    by rewrite Nat.add_0_r.
  - rewrite first_occurrences_snoc.
    rewrite (bool_decide_ext _ (m ∈ ms)) by (rewrite elem_of_not_proto; tauto).
    destruct (bool_decide_reflect (m ∈ ms)) as [Hin | Hin].
    + rewrite <- (replace_table (λ k, count_value k (occurrences_nat k ms))
                   (λ k, count_value k (occurrences_nat k (ms ++ [m]))) m).
      * f_equal. rewrite occurrences_nat_snoc, String.eqb_refl. f_equal. lia.
      * apply NoDup_first_occurrences.
      * rewrite elem_of_first_occurrences, elem_of_not_proto. done.
      * intros k Hk. rewrite occurrences_nat_snoc.
        destruct (String.eqb_spec k m); [done |]. by rewrite Nat.add_0_r.
    + rewrite List.map_app. cbn [List.map]. f_equal.
      * apply List.map_ext_in. intros k Hk.
        rewrite <- list_elem_of_In, elem_of_first_occurrences, elem_of_not_proto in Hk.
        rewrite occurrences_nat_snoc.
        destruct (String.eqb_spec k m) as [-> | _]; [tauto |].
        by rewrite Nat.add_0_r.
      * by rewrite occurrences_nat_snoc, String.eqb_refl, occurrences_nat_not_in.
Qed.

Lemma assoc_counting_object m ms :
  is_proto m = false →
  assoc m (counting_object ms) =
  if bool_decide (m ∈ ms) then Some (count_value m (occurrences_nat m ms)) else None.
Proof.
  intros Hp. unfold counting_object. rewrite assoc_table.
  apply (f_equal (λ b : bool, if b then _ else _)), bool_decide_ext.
  rewrite elem_of_first_occurrences, elem_of_not_proto. tauto.
Qed.

(** One round of the loop on the counting object. *)
Lemma enrollment_step_counting ms s :
  enrollment_step (counting_object ms) s = counting_object (ms ++ [Spec.major_of s]).
Proof.
  rewrite counting_object_snoc. unfold enrollment_step.
  rewrite major_of_or_default. set (m := Spec.major_of s).
  unfold JsObject.set. fold (is_proto m).
  destruct (is_proto m) eqn:Hp; [done |].
  pose proof (assoc_counting_object m ms Hp) as Ha. rewrite Ha.
  destruct (bool_decide (m ∈ ms)).
  - f_equal. unfold JsObject.get. rewrite Ha. apply or_zero_plus_one_count.
  - by rewrite or_zero_plus_one_first.
Qed.

Lemma enrollment_loop_counting students :
  fold_left enrollment_step students JsObject.empty
  = counting_object (List.map Spec.major_of students).
Proof.
  induction students as [|s students IH] using rev_ind; [done |].
  rewrite fold_left_app, IH, List.map_app. cbn [fold_left List.map].
  apply enrollment_step_counting.
Qed.

Lemma enrollment_result_counting students :
  calculateEnrollmentByMajor students
  = List.map entry_of (JsObject.entries (counting_object (List.map Spec.major_of students))).
Proof. by rewrite calculateEnrollmentByMajor_entries, enrollment_loop_counting. Qed.

(** X5: for every list of students the result is [Object.entries] of an
    object with one property per distinct major other than "__proto__",
    created in the order of first occurrence, holding the number of
    students of that major, or, for a major that names an inherited
    method, the text of that method followed by one "1" per student. *)
Theorem calculateEnrollmentByMajor_counting (students : list Student) :
  calculateEnrollmentByMajor students
  = List.map entry_of (JsObject.entries (counting_object (List.map Spec.major_of students))).
Proof. by rewrite calculateEnrollmentByMajor_entries, enrollment_loop_counting. Qed.

(** An inherited method as a major: the count is text, and a major of
    "__proto__" leaves no group. *)
Example calculateEnrollmentByMajor_inherited :
  calculateEnrollmentByMajor
    [mkStudent None None (Some "toString"%string) None;
     mkStudent None None (Some "__proto__"%string) None;
     mkStudent None None (Some "toString"%string) None]
  = [mkMajorCount "toString"
       (JsObject.VStr "function toString() { [native code] }11")].
Proof. by vm_compute. Qed.

Lemma filter_partition_perm {A} (f : A → bool) (l : list A) :
  List.filter f l ++ List.filter (λ x, negb (f x)) l ≡ₚ l.
Proof.
  induction l as [|x l IH]; [done |].
  cbn [List.filter]. destruct (f x); cbn [negb app].
  - by rewrite IH.
  - by rewrite <- Permutation_middle, IH.
Qed.

(** [Object.entries] only reorders the properties. *)
Lemma entries_perm o : JsObject.entries o ≡ₚ o.
Proof.
  unfold JsObject.entries. rewrite sort_by_index_perm.
  apply (filter_partition_perm (λ p, JsObject.is_index p.1)).
Qed.

Lemma majors_of_result students :
  List.map major (calculateEnrollmentByMajor students)
  ≡ₚ Spec.first_occurrences
       (List.filter (λ m, negb (is_proto m)) (List.map Spec.major_of students)).
Proof.
  rewrite enrollment_result_counting, List.map_map.
  rewrite (Permutation_map _ (entries_perm _)).
  unfold counting_object. rewrite List.map_map. cbn [entry_of major fst].
  by rewrite List.map_id.
Qed.

Lemma length_first_occurrences ms :
  (length (Spec.first_occurrences ms) ≤ length ms)%nat.
Proof.
  induction ms as [|x ms IH]; [done |].
  cbn [Spec.first_occurrences length].
  pose proof (List.filter_length_le (λ y, negb (String.eqb y x)) (Spec.first_occurrences ms)).
  lia.
Qed.

(** X7: the result has one group per distinct major, whatever the order:
    no major occurs twice, a major has a group exactly when some student
    has it and it is not "__proto__", and there are at most as many groups
    as students. *)
Theorem calculateEnrollmentByMajor_majors (students : list Student) :
  NoDup (List.map major (calculateEnrollmentByMajor students))
  ∧ (∀ m, m ∈ List.map major (calculateEnrollmentByMajor students) ↔
          m ≠ "__proto__"%string ∧ ∃ s, s ∈ students ∧ Spec.major_of s = m)
  ∧ (length (calculateEnrollmentByMajor students) ≤ length students)%nat.
Proof.
  pose proof (majors_of_result students) as Hp. split; [| split].
  - rewrite Hp. apply NoDup_first_occurrences.
  - intros m. rewrite Hp, elem_of_first_occurrences, elem_of_not_proto.
    rewrite list_elem_of_In, List.in_map_iff. unfold is_proto.
    rewrite String.eqb_neq. split.
    + intros [(s & Hs & Hin) Hm]. split; [done |]. exists s.
      by rewrite list_elem_of_In.
    + intros [Hm (s & Hin & Hs)]. split; [| done]. exists s.
      by rewrite <- list_elem_of_In.
  - rewrite <- (length_map major), (Permutation_length Hp).
    etrans; [apply length_first_occurrences |].
    etrans; [apply List.filter_length_le |]. by rewrite length_map.
Qed.

Lemma enrollment_step_proto o s :
  is_proto (Spec.major_of s) = true → enrollment_step o s = o.
Proof.
  intros Hp. unfold enrollment_step, JsObject.set.
  rewrite major_of_or_default. fold (is_proto (Spec.major_of s)). by rewrite Hp.
Qed.

Lemma enrollment_loop_skips_proto students o :
  fold_left enrollment_step students o
  = fold_left enrollment_step
      (List.filter (λ s, negb (is_proto (Spec.major_of s))) students) o.
Proof.
  revert o. induction students as [|s students IH]; intros o; [done |].
  cbn [fold_left List.filter]. destruct (is_proto (Spec.major_of s)) eqn:Hp; cbn [negb].
  - rewrite enrollment_step_proto by done. apply IH.
  - cbn [fold_left]. apply IH.
Qed.

(** X8: students whose major is "__proto__" are not counted anywhere:
    leaving them out of the input gives the same result. *)
Theorem calculateEnrollmentByMajor_skips_proto (students : list Student) :
  calculateEnrollmentByMajor students
  = calculateEnrollmentByMajor
      (List.filter (λ s, negb (is_proto (Spec.major_of s))) students).
Proof.
  unfold calculateEnrollmentByMajor. by rewrite enrollment_loop_skips_proto.
Qed.

(** *** The counts add up *)

Lemma occurrences_nat_cons k x ms :
  occurrences_nat k (x :: ms) =
  ((if String.eqb k x then 1 else 0) + occurrences_nat k ms)%nat.
Proof. unfold occurrences_nat. cbn [List.filter]. by destruct (String.eqb k x). Qed.

Lemma Zsum_split (g : string → Z) x keys :
  NoDup keys →
  Spec.Zsum (List.map g keys)
  = Spec.Zsum (List.map g (List.filter (λ y, negb (String.eqb y x)) keys))
    + (if bool_decide (x ∈ keys) then g x else 0).
Proof.
  induction 1 as [|k keys Hk Hnd IH]; [done |].
  cbn [List.map List.filter Spec.Zsum]. rewrite IH.
  destruct (String.eqb_spec k x) as [-> | Hne]; cbn [negb List.map Spec.Zsum].
  - rewrite (bool_decide_eq_true_2 (x ∈ x :: keys)) by left.
    rewrite (bool_decide_eq_false_2 (x ∈ keys)) by done. lia.
  - rewrite (bool_decide_ext (x ∈ k :: keys) (x ∈ keys)); [lia |].
    rewrite elem_of_cons. split; [intros [-> | ?]; done | by right].
Qed.

(** Summing, over the distinct elements of a list, how often each occurs
    counts the list; restricted to the elements that satisfy [P], it
    counts those. *)
Lemma Zsum_occurrences (P : string → bool) ms :
  Spec.Zsum (List.map (λ m, if P m then Z.of_nat (occurrences_nat m ms) else 0)
               (Spec.first_occurrences ms))
  = Z.of_nat (length (List.filter P ms)).
Proof.
  induction ms as [|x ms IH]; [done |].
  cbn [Spec.first_occurrences List.map Spec.Zsum List.filter].
  rewrite occurrences_nat_cons, String.eqb_refl.
  rewrite (List.map_ext_in _
             (λ m, if P m then Z.of_nat (occurrences_nat m ms) else 0)).
  2:{ intros m Hm. rewrite <- list_elem_of_In, elem_of_List_filter in Hm.
      destruct Hm as [_ Hm]. rewrite occurrences_nat_cons.
      destruct (String.eqb m x); [done | done]. }
  pose proof (Zsum_split (λ m, if P m then Z.of_nat (occurrences_nat m ms) else 0)
                x _ (NoDup_first_occurrences ms)) as Hs.
  cbv beta in Hs. rewrite IH in Hs.
  assert (Hx : (if bool_decide (x ∈ Spec.first_occurrences ms)
                then if P x then Z.of_nat (occurrences_nat x ms) else 0 else 0)
               = if P x then Z.of_nat (occurrences_nat x ms) else 0).
  { destruct (bool_decide_reflect (x ∈ Spec.first_occurrences ms)) as [_ | Hn]; [done |].
    rewrite elem_of_first_occurrences in Hn.
    rewrite (occurrences_nat_not_in _ _ Hn). by destruct (P x). }
  rewrite Hx in Hs.
  destruct (P x); cbn [length]; lia.
Qed.

Lemma occurrences_nat_filter (Q : string → bool) m ms :
  Q m = true → occurrences_nat m (List.filter Q ms) = occurrences_nat m ms.
Proof.
  intros HQ. induction ms as [|x ms IH]; [done |].
  cbn [List.filter]. destruct (Q x) eqn:E.
  - by rewrite !occurrences_nat_cons, IH.
  - rewrite occurrences_nat_cons, IH.
    destruct (String.eqb_spec m x) as [-> | _]; [congruence | done].
Qed.

Lemma count_number_value m k :
  count_number (entry_of (m, count_value m k))
  = if not_inherited m then Z.of_nat k else 0.
Proof.
  unfold count_number, entry_of, count_value, not_inherited. cbn [count snd].
  by destruct (bool_decide _).
Qed.

Lemma not_inherited_not_proto m : not_inherited m = true → is_proto m = false.
Proof.
  unfold not_inherited, is_proto. intros H.
  destruct (String.eqb_spec m "__proto__") as [-> | _]; [| done].
  by rewrite bool_decide_eq_true_2 in H by apply proto_inherited.
Qed.

(** X6: the numeric counts of the groups add up to the number of students
    whose major is not the name of an inherited property; when no major
    is such a name they add up to the number of students. *)
Theorem calculateEnrollmentByMajor_total (students : list Student) :
  Spec.Zsum (List.map count_number (calculateEnrollmentByMajor students))
  = Z.of_nat (length (List.filter (λ s, not_inherited (Spec.major_of s)) students))
  ∧ ((∀ s, s ∈ students → Spec.major_of s ∉ objectPrototypeNames) →
     Spec.Zsum (List.map count_number (calculateEnrollmentByMajor students))
     = Z.of_nat (length students)).
Proof.
  assert (Hsum : Spec.Zsum (List.map count_number (calculateEnrollmentByMajor students))
    = Z.of_nat (length (List.filter (λ s, not_inherited (Spec.major_of s)) students))).
  { rewrite enrollment_result_counting, List.map_map.
    rewrite (Zsum_perm _ _ (Permutation_map _ (entries_perm _))).
    set (ms := List.map Spec.major_of students).
    unfold counting_object. rewrite List.map_map.
    set (F := List.filter (λ m, negb (is_proto m)) ms).
    rewrite (List.map_ext_in _
               (λ m, if not_inherited m then Z.of_nat (occurrences_nat m F) else 0)).
    2:{ intros m Hm. rewrite <- list_elem_of_In, elem_of_first_occurrences in Hm.
        apply elem_of_not_proto in Hm as [_ Hm]. rewrite count_number_value.
        unfold F. rewrite occurrences_nat_filter; [done | by rewrite Hm]. }
    rewrite Zsum_occurrences. f_equal. unfold F, ms.
    rewrite !List.filter_map_swap, length_map. f_equal. clear.
    induction students as [|s students IH]; [done |].
    cbn [List.filter]. destruct (not_inherited (Spec.major_of s)) eqn:E.
    - rewrite (not_inherited_not_proto _ E). cbn [negb List.filter].
      rewrite E. by rewrite IH.
    - destruct (negb (is_proto (Spec.major_of s))); cbn [List.filter]; [| done].
      by rewrite E. }
  split; [exact Hsum |]. intros Hall. rewrite Hsum. do 2 f_equal.
  apply filter_all. intros s Hs. unfold not_inherited.
  by rewrite bool_decide_eq_false_2 by (by apply Hall).
Qed.

Lemma calculateEnrollmentByMajor_total_witness :
  Spec.Zsum (List.map count_number (calculateEnrollmentByMajor Sample.students))
  = Z.of_nat (length Sample.students).
Proof.
  apply (calculateEnrollmentByMajor_total Sample.students).
  intros s Hs. unfold Sample.students in Hs. each_member Hs ltac:(compute_done).
Defined.

End EnrollmentMore.

(** ** The search filter *)

Section FilterMore.

Lemma filter_throwing_inv {A} (cb : A → completion bool) (f : A → bool) l r :
  (∀ x, cb x ≠ TypeError → cb x = Normal (f x)) →
  filter_throwing cb l = Normal r →
  (∀ x, x ∈ l → cb x ≠ TypeError) ∧ r = List.filter f l.
Proof.
  intros Hf Hr.
  assert (Hall : ∀ x, x ∈ l → cb x ≠ TypeError).
  { intros x Hx Hthrow.
    assert (filter_throwing cb l = TypeError) as Ht
      by (apply filter_throwing_throws; by exists x).
    congruence. }
  split; [done |].
  rewrite (filter_throwing_normal cb f) in Hr; [congruence |].
  intros x Hx. by apply Hf, Hall.
Qed.

Lemma matches_matchesb q s : matches q s ≠ TypeError → matches q s = Normal (matchesb q s).
Proof. unfold matchesb. by destruct (matches q s). Qed.

(** A search that completes is the list filter by the callback's
    verdict, and every student had a [student_id]. *)
Lemma filteredStudents_inv students query r :
  ¬ Spec.whitespace_only query →
  filteredStudents students query = Normal r →
  (∀ s, s ∈ students → is_Some (s_student_id s))
  ∧ r = List.filter (matchesb (normalized query)) students.
Proof.
  intros Hq Hr. rewrite filteredStudents_not_blank in Hr by done.
  apply (filter_throwing_inv _ (matchesb (normalized query))) in Hr as [Hall ->];
    [| apply matches_matchesb].
  split; [| done]. intros s Hs. specialize (Hall s Hs).
  destruct (s_student_id s) eqn:E; [by eexists |].
  exfalso. apply Hall. by apply matches_throws.
Qed.

Lemma filter_idem {A} (f : A → bool) (l : list A) :
  List.filter f (List.filter f l) = List.filter f l.
Proof.
  induction l as [|x l IH]; [done |].
  cbn [List.filter]. destruct (f x) eqn:E; [| done].
  cbn [List.filter]. by rewrite E, IH.
Qed.

(** X9: searching within a result for the same query changes nothing. *)
Theorem filteredStudents_idempotent (students r : list Student) (query : string) :
  filteredStudents students query = Normal r →
  filteredStudents r query = Normal r.
Proof.
  intros Hr.
  destruct (decide (falsy (toLowerCase (trim query)) = true)) as [Hb | Hb].
  - apply query_falsy in Hb. by apply filteredStudents_blank.
  - rewrite query_falsy in Hb.
    apply filteredStudents_inv in Hr as [Hids ->]; [| done].
    rewrite filteredStudents_not_blank by done.
    rewrite (filter_throwing_normal _ (matchesb (normalized query))).
    + by rewrite filter_idem.
    + intros s Hs. apply elem_of_List_filter in Hs as [Hs _].
      apply matches_normal. by apply Hids.
Qed.

Lemma filteredStudents_idempotent_witness :
  filteredStudents (drop 1 Sample.students) "s2" = Normal (drop 1 Sample.students).
Proof.
  apply (filteredStudents_idempotent Sample.students). by vm_compute.
Defined.

(** *** Normalising the query *)

Lemma normalized_upper query : normalized (toUpperCase query) = normalized query.
Proof.
  unfold normalized, toUpperCase. rewrite trim_map by apply is_white_upper.
  apply toLowerCase_toUpperCase.
Qed.

Lemma normalized_trim query : normalized (trim query) = normalized query.
Proof. unfold normalized. by rewrite trim_idem. Qed.

Lemma normalized_idem query : normalized (normalized query) = normalized query.
Proof.
  unfold normalized, toLowerCase at 2.
  rewrite trim_map by apply is_white_lower.
  fold (toLowerCase (trim (trim query))). by rewrite toLowerCase_idem, trim_idem.
Qed.

Lemma filteredStudents_normalized students q1 q2 :
  normalized q1 = normalized q2 →
  filteredStudents students q1 = filteredStudents students q2.
Proof. unfold filteredStudents, normalized. by intros ->. Qed.

(** X10: for a query written in ASCII, the case of the query and the
    white space around it do not matter: the query in upper case,
    trimmed, or already normalised gives the same result, thrown error
    included. *)
Theorem filteredStudents_query_normalized (students : list Student) (query : string) :
  is_ascii query = true →
  filteredStudents students (toUpperCase query) = filteredStudents students query
  ∧ filteredStudents students (trim query) = filteredStudents students query
  ∧ filteredStudents students (toLowerCase (trim query)) = filteredStudents students query.
Proof.
  intros _. split; [| split]; apply filteredStudents_normalized.
  - apply normalized_upper.
  - apply normalized_trim.
  - apply normalized_idem.
Qed.

Lemma filteredStudents_query_normalized_witness :
  is_ascii " Ann " = true
  ∧ filteredStudents Sample.students " ANN " = filteredStudents Sample.students " Ann "
  ∧ filteredStudents Sample.students "Ann" = filteredStudents Sample.students " Ann "
  ∧ filteredStudents Sample.students "ann" = filteredStudents Sample.students " Ann ".
Proof.
  split; [reflexivity |].
  exact (filteredStudents_query_normalized Sample.students " Ann " eq_refl).
Defined.

(** *** Narrowing a search *)

Lemma string_app_nil_r (a : string) : (a +:+ "" = a)%string.
Proof.
  induction a as [|x a IH]; [done |].
  change (String x (a +:+ "") = String x a). by rewrite IH.
Qed.

(** A substring of a substring is a substring. *)
Lemma includes_trans s q' q :
  includes s q' = true → includes q' q = true → includes s q = true.
Proof.
  rewrite !includes_correct. intros (a & b & ->) (c & d & ->).
  exists (a +:+ c)%string, (d +:+ b)%string. by rewrite !string_app_assoc.
Qed.

Lemma sublist_filter_impl {A} (f' f : A → bool) (l : list A) :
  (∀ x, x ∈ l → f' x = true → f x = true) →
  sublist (List.filter f' l) (List.filter f l).
Proof.
  induction l as [|x l IH]; intros H; [constructor |].
  assert (Hl : sublist (List.filter f' l) (List.filter f l))
    by (apply IH; intros y Hy; apply H; by right).
  cbn [List.filter]. destruct (f' x) eqn:E'.
  - rewrite (H x) by (done || left). by constructor.
  - destruct (f x); [by constructor | done].
Qed.

Lemma matchesb_narrow q' q s :
  includes q' q = true → matchesb q' s = true → matchesb q s = true.
Proof.
  intros Hq. unfold matchesb, matches.
  destruct (s_student_id s) as [id|]; [| done].
  rewrite !orb_true_iff. intros [H | H]; [left | right]; by eapply includes_trans.
Qed.

(** X11: a longer query narrows the result: when the normalised old query
    occurs in the normalised new one, the rows of the new result are among
    the rows of the old one, in the same order. *)
Theorem filteredStudents_narrows (students r r' : list Student) (query query' : string) :
  includes (normalized query') (normalized query) = true →
  filteredStudents students query = Normal r →
  filteredStudents students query' = Normal r' →
  sublist r' r.
Proof.
  intros Hinc Hr Hr'.
  destruct (decide (falsy (toLowerCase (trim query)) = true)) as [Hb | Hb].
  { apply query_falsy in Hb. rewrite filteredStudents_blank in Hr by done.
    injection Hr as <-.
    destruct (decide (falsy (toLowerCase (trim query')) = true)) as [Hb' | Hb'].
    - apply query_falsy in Hb'. rewrite filteredStudents_blank in Hr' by done.
      by injection Hr' as <-.
    - rewrite query_falsy in Hb'. apply filteredStudents_inv in Hr' as [_ ->]; [| done].
      apply filter_sublist. }
  rewrite query_falsy in Hb.
  assert (Hb' : ¬ Spec.whitespace_only query').
  { rewrite <- query_falsy. intros Hf. apply falsy_true in Hf.
    fold (normalized query') in Hf. rewrite Hf, includes_nil in Hinc.
    rewrite <- query_falsy in Hb. fold (normalized query) in Hb.
    by destruct (normalized query). }
  apply filteredStudents_inv in Hr as [_ ->]; [| done].
  apply filteredStudents_inv in Hr' as [_ ->]; [| done].
  apply sublist_filter_impl. intros s _. by apply matchesb_narrow.
Qed.

Lemma filteredStudents_narrows_witness :
  sublist (take 1 Sample.students) Sample.students.
Proof.
  apply (filteredStudents_narrows Sample.students Sample.students (take 1 Sample.students)
           "s" " S1 "); by vm_compute.
Defined.

(** *** Finding a student by id *)

Lemma trimStart_suffix s : ∃ pre, s = (pre +:+ trimStart s)%string.
Proof.
  induction s as [|c s [pre IH]]; [by exists ""%string |].
  cbn [trimStart]. destruct (is_white c).
  - exists (String c pre). change (String c s = String c (pre +:+ trimStart s)).
    by rewrite <- IH.
  - by exists ""%string.
Qed.

Lemma trimEnd_prefix s : ∃ post, s = (trimEnd s +:+ post)%string.
Proof.
  induction s as [|c s [post IH]]; [by exists ""%string |].
  rewrite trimEnd_cons. destruct (trimEnd s) as [|d t].
  - destruct (is_white c); [by exists (String c s) | by exists s].
  - exists post. change (String c s = String c (String d t +:+ post)).
    by rewrite <- IH.
Qed.

(** What [trim] keeps is a piece of the string. *)
Lemma trim_substring s : ∃ pre post, s = (pre +:+ trim s +:+ post)%string.
Proof.
  destruct (trimStart_suffix s) as [pre Hpre].
  destruct (trimEnd_prefix (trimStart s)) as [post Hpost].
  exists pre, post. unfold trim. by rewrite <- Hpost.
Qed.

(** X12: a student is found by typing the student's own id, written in
    ASCII, in any case and with white space around it, provided the id
    is not blank and every student has an id. *)
Theorem filteredStudents_finds_by_id (students : list Student) (s : Student) (id : string) :
  is_ascii id = true →
  s ∈ students →
  s_student_id s = Some id →
  ¬ Spec.whitespace_only id →
  (∀ s', s' ∈ students → is_Some (s_student_id s')) →
  ∃ r, filteredStudents students id = Normal r ∧ s ∈ r
       ∧ filteredStudents students (toUpperCase id) = Normal r.
Proof.
  intros _ Hs Hid Hq Hids.
  exists (List.filter (matchesb (normalized id)) students). split; [| split].
  - rewrite filteredStudents_not_blank by done.
    apply filter_throwing_normal. intros s' Hs'. by apply matches_normal, Hids.
  - apply elem_of_List_filter. split; [done |].
    unfold matchesb, matches. rewrite Hid. apply orb_true_iff. left.
    unfold normalized. apply includes_contains_ci.
    destruct (trim_substring id) as (pre & post & E).
    by exists pre, (trim id), post.
  - rewrite (filteredStudents_normalized _ _ id) by apply normalized_upper.
    rewrite filteredStudents_not_blank by done.
    apply filter_throwing_normal. intros s' Hs'. by apply matches_normal, Hids.
Qed.

Lemma filteredStudents_finds_by_id_witness :
  is_ascii "s2" = true
  ∧ ∃ r, filteredStudents
           [mkStudent (Some "S1") (Some "Ann Lee") None None;
            mkStudent (Some "s2") None None None]%string "s2" = Normal r
         ∧ mkStudent (Some "s2"%string) None None None ∈ r
         ∧ filteredStudents
             [mkStudent (Some "S1") (Some "Ann Lee") None None;
              mkStudent (Some "s2") None None None]%string "S2" = Normal r.
Proof.
  split; [reflexivity |].
  apply (filteredStudents_finds_by_id _ _ "s2" eq_refl).
  - right. left.
  - reflexivity.
  - by intros [? _].
  - intros s' Hs'. each_member Hs' ltac:(by eexists).
Defined.

End FilterMore.

(** ** [CourseAttendance] *)

Section AttendanceMore.

Implicit Types (ids : gset (option string)) (att : list AttendanceRecord).

Lemma length_take_le {A} (n : nat) (l : list A) : (length (take n l) ≤ n)%nat.
Proof. rewrite length_take. lia. Qed.

(** X16: the students listed as enrolled are exactly the students of the
    roster whose id has a grade record for the course among the grade
    records read from [window], in roster order; the sample shown is made
    of the first ten of them at most. *)
Theorem CourseAttendance_enrolled_students (p : Props) (w : Window) :
  let v := (CourseAttendance p w).1 in
  (∀ s, s ∈ enrolled v ↔
        s ∈ students p
        ∧ Spec.enrolled_in (courseCode p) (default [] (__internal_grades_for_app w))
            (s_student_id s))
  ∧ sublist (enrolled v) (students p)
  ∧ sample v `prefix_of` enrolled v
  ∧ length (sample v) = Nat.min 10 (length (enrolled v)).
Proof.
  cbv zeta.
  change (CourseAttendance p w).1
    with (attendance_view (default [] (__internal_grades_for_app w)) p).
  unfold attendance_view. cbn [enrolled sample].
  split; [| split; [| split]].
  - intros s. rewrite elem_of_List_filter, bool_decide_eq_true.
    by rewrite elem_of_build_enrolled.
  - apply filter_sublist.
  - apply prefix_take.
  - apply length_take.
Qed.

Lemma counted_nonneg ids b att : 0 ≤ Spec.counted ids b att.
Proof. unfold Spec.counted. lia. Qed.

Lemma filter_nil_iff {A} (f : A → bool) (l : list A) :
  List.filter f l = [] ↔ ∀ x, x ∈ l → f x = false.
Proof.
  split; [| apply filter_none].
  intros H x Hx. destruct (f x) eqn:E; [| done].
  assert (x ∈ List.filter f l) as Hin by (by apply elem_of_List_filter).
  rewrite H in Hin. by apply elem_of_nil in Hin.
Qed.

(** X17: the three counts are never negative, the total never exceeds
    the number of attendance records, and it is 0 exactly when no
    attendance record belongs to a student of the enrolled set. *)
Theorem tally_bounds (ids : gset (option string)) (att : list AttendanceRecord) :
  let st := tally ids att in
  0 ≤ Present st ∧ 0 ≤ Absent st ∧ 0 ≤ Other st
  ∧ Present st + Absent st + Other st ≤ Z.of_nat (length att)
  ∧ (Present st + Absent st + Other st = 0 ↔
     ∀ a, a ∈ att → a_student_id a ∉ ids).
Proof.
  cbv zeta. rewrite tally_counted. cbn [Present Absent Other].
  rewrite counted_total.
  repeat split; try apply counted_nonneg.
  - apply inj_le, List.filter_length_le.
  - intros H a Ha.
    assert (Hnil : List.filter (λ a, bool_decide (a_student_id a ∈ ids)) att = []).
    { destruct (List.filter _ att); [done | cbn [length] in H; lia]. }
    rewrite filter_nil_iff in Hnil. specialize (Hnil a Ha).
    by apply bool_decide_eq_false in Hnil.
  - intros H. rewrite (filter_none _ att); [done |].
    intros a Ha. apply bool_decide_eq_false. by apply H.
Qed.

Lemma counted_perm ids b att att' :
  att ≡ₚ att' → Spec.counted ids b att = Spec.counted ids b att'.
Proof.
  induction 1 as [|a l l' _ IH|a a' l|l1 l2 l3 _ IH1 _ IH2];
    rewrite ?counted_cons; lia.
Qed.

(** X18: tallies add up over a split of the attendance records, and the
    tally does not depend on the order of the records. *)
Theorem tally_append_permutation (ids : gset (option string))
    (att1 att2 : list AttendanceRecord) :
  tally ids (att1 ++ att2) = stats_add (tally ids att1) (tally ids att2)
  ∧ (∀ att', att1 ≡ₚ att' → tally ids att1 = tally ids att').
Proof.
  split.
  - rewrite !tally_counted, !counted_app. reflexivity.
  - intros att' H. rewrite !tally_counted.
    by rewrite !(counted_perm ids _ att1 att' H).
Qed.

Lemma counted_mono ids ids' b att :
  ids ⊆ ids' → Spec.counted ids b att ≤ Spec.counted ids' b att.
Proof.
  intros Hsub. induction att as [|a att IH]; [done |].
  rewrite !counted_cons.
  destruct (bool_decide_reflect (a_student_id a ∈ ids)) as [Hin | Hin].
  - rewrite (bool_decide_eq_true_2 (a_student_id a ∈ ids')) by (by apply Hsub). lia.
  - cbn [andb]. destruct (_ && _); lia.
Qed.

(** X19: enrolling more students never lowers a count. *)
Theorem tally_monotone (ids ids' : gset (option string)) (att : list AttendanceRecord) :
  ids ⊆ ids' →
  Present (tally ids att) ≤ Present (tally ids' att)
  ∧ Absent (tally ids att) ≤ Absent (tally ids' att)
  ∧ Other (tally ids att) ≤ Other (tally ids' att).
Proof.
  intros Hsub. rewrite !tally_counted. cbn [Present Absent Other].
  repeat split; by apply counted_mono.
Qed.

Lemma tally_monotone_witness :
  Present (tally ∅ Sample.attendance) ≤ Present (tally {[ Some "S1"%string ]} Sample.attendance)
  ∧ Absent (tally ∅ Sample.attendance) ≤ Absent (tally {[ Some "S1"%string ]} Sample.attendance)
  ∧ Other (tally ∅ Sample.attendance) ≤ Other (tally {[ Some "S1"%string ]} Sample.attendance).
Proof.
  apply (tally_monotone ∅ {[ Some "S1"%string ]} Sample.attendance).
  apply empty_subseteq.
Defined.

(** X20: once grade records have been stored through the setter of
    [__GRADES_FOR_APP], the component computes from them: its enrolled
    set is the set of ids graded in the course among the stored records,
    whatever [window] held before. *)
Theorem CourseAttendance_after_set (g : list GradeRecord) (p : Props) (w : Window) :
  let w' := (set___GRADES_FOR_APP g w).2 in
  (CourseAttendance p w').1 = attendance_view g p
  ∧ (∀ id, id ∈ enrolledStudentIds (CourseAttendance p w').1 ↔
           Spec.enrolled_in (courseCode p) g id)
  ∧ (CourseAttendance p w').2 = w'.
Proof.
  cbv zeta. split; [reflexivity |]. split; [| reflexivity].
  intros id. apply elem_of_build_enrolled.
Qed.

End AttendanceMore.

(** ** [StudentDetail] *)

Section DetailMore.

Lemma slice_last_split {A} (n : nat) (l : list A) :
  l = take (length l - n) l ++ slice_last n l.
Proof. unfold slice_last. by rewrite take_drop. Qed.

Lemma length_slice_last {A} (n : nat) (l : list A) :
  length (slice_last n l) = Nat.min n (length l).
Proof. unfold slice_last. rewrite length_drop. lia. Qed.

(** X13: the attendance shown in the detail panel is the last ten
    records of the student at most, newest first: reversed, it is the end
    of the student's records in file order, and all of them when the
    student has ten or fewer. *)
Theorem StudentDetail_recent (p : Detail.props) :
  let id := s_student_id (Detail.student p) in
  let own := List.filter (λ a, bool_decide (a_student_id a = id)) (Detail.attendance p) in
  let shown := Detail.recent (StudentDetail p) in
  length shown = Nat.min 10 (length own)
  ∧ (∃ older, own = older ++ rev shown)
  ∧ (∀ a, a ∈ shown → a ∈ Detail.attendance p ∧ a_student_id a = id)
  ∧ ((length own ≤ 10)%nat → shown = rev own).
Proof.
  cbv zeta. unfold StudentDetail. cbn [Detail.recent].
  set (own := List.filter _ (Detail.attendance p)).
  split; [| split; [| split]].
  - by rewrite length_rev, length_slice_last.
  - exists (take (length own - 10) own). rewrite rev_involutive.
    apply slice_last_split.
  - intros a Ha. rewrite list_elem_of_In, <- List.in_rev, <- list_elem_of_In in Ha.
    assert (Hown : a ∈ own).
    { rewrite (slice_last_split 10 own). apply elem_of_app. by right. }
    apply elem_of_List_filter in Hown as [Hin Hid].
    by apply bool_decide_eq_true in Hid.
  - intros Hle. unfold slice_last.
    replace (length own - 10)%nat with 0%nat by lia. done.
Qed.

Lemma surviving_points_own studentId grades :
  Spec.surviving_points studentId
    (List.filter (λ g, bool_decide (g_student_id g = studentId)) grades)
  = Spec.surviving_points studentId grades.
Proof. unfold Spec.surviving_points. by rewrite filter_idem. Qed.

(** X14: the GPA of the detail panel is the GPA of the rows of the grades
    table shown with it: those rows are the grade records of the student,
    in file order, and the GPA computed from them alone is the GPA
    computed from all records. *)
Theorem StudentDetail_gpa_of_rows (p : Detail.props) :
  let v := StudentDetail p in
  let id := s_student_id (Detail.student p) in
  Detail.gpa_shown v = calcGPAForStudent id (Detail.sGrades v)
  ∧ sublist (Detail.sGrades v) (Detail.grades p)
  ∧ (∀ g, g ∈ Detail.sGrades v ↔ g ∈ Detail.grades p ∧ g_student_id g = id)
  ∧ List.map Detail.row_grade (Detail.grade_rows v) = List.map g_grade (Detail.sGrades v)
  ∧ List.map Detail.row_course_code (Detail.grade_rows v)
    = List.map g_course_code (Detail.sGrades v).
Proof.
  cbv zeta. unfold StudentDetail.
  cbn [Detail.gpa_shown Detail.sGrades Detail.grade_rows].
  split; [| split; [| split; [| split]]].
  - by rewrite !calcGPAForStudent_points, surviving_points_own.
  - apply filter_sublist.
  - intros g. by rewrite elem_of_List_filter, bool_decide_eq_true.
  - by rewrite List.map_map.
  - by rewrite List.map_map.
Qed.

Lemma find_first {A} (f : A → bool) (l : list A) (x : A) :
  List.find f l = Some x →
  ∃ before after, l = before ++ x :: after ∧ f x = true
                  ∧ ∀ y, y ∈ before → f y = false.
Proof.
  induction l as [|y l IH]; [done |].
  cbn [List.find]. destruct (f y) eqn:E.
  - intros [= ->]. exists [], l. split; [done |]. split; [done |].
    intros z Hz. by apply elem_of_nil in Hz.
  - intros H. destruct (IH H) as (before & after & -> & Hx & Hb).
    exists (y :: before), after. split; [done |]. split; [done |].
    intros z Hz. apply elem_of_cons in Hz as [-> | Hz]; [done | by apply Hb].
Qed.

Lemma find_none {A} (f : A → bool) (l : list A) :
  (∀ y, y ∈ l → f y = false) → List.find f l = None.
Proof.
  induction l as [|y l IH]; intros H; [done |].
  cbn [List.find]. rewrite (H y) by left. apply IH. intros z Hz. apply H. by right.
Qed.

Lemma find_split {A} (f : A → bool) (before after : list A) (x : A) :
  f x = true → (∀ y, y ∈ before → f y = false) →
  List.find f (before ++ x :: after) = Some x.
Proof.
  intros Hx. induction before as [|y before IH]; intros Hb.
  - cbn [app List.find]. by rewrite Hx.
  - cbn [app List.find]. rewrite (Hb y) by left.
    apply IH. intros z Hz. apply Hb. by right.
Qed.

(** X15: the course name shown beside a grade is [n] exactly when [n] is
    the non-empty name of the first course, in file order, with the
    grade's course code; a first such course without a name, or with an
    empty one, hides the names of later courses with that code, and a
    grade whose course code no course has is shown without a name. *)
Theorem course_name_first_match (courses : list Course) (g : GradeRecord) :
  (∀ n, Detail.course_name courses g = Some n
        ↔ n ≠ ""%string
          ∧ ∃ before c after,
              courses = before ++ c :: after
              ∧ c_course_code c = g_course_code g ∧ c_name c = Some n
              ∧ ∀ c', c' ∈ before → c_course_code c' ≠ g_course_code g)
  ∧ (∀ before c after,
       courses = before ++ c :: after →
       c_course_code c = g_course_code g →
       (∀ c', c' ∈ before → c_course_code c' ≠ g_course_code g) →
       c_name c = None ∨ c_name c = Some ""%string →
       Detail.course_name courses g = None)
  ∧ ((∀ c, c ∈ courses → c_course_code c ≠ g_course_code g) →
     Detail.course_name courses g = None).
Proof.
  unfold Detail.course_name. split; [| split].
  - intros n. split.
    + destruct (List.find _ courses) as [c|] eqn:E; [| done].
      apply find_first in E as (before & after & -> & Hc & Hb).
      apply bool_decide_eq_true in Hc.
      destruct (c_name c) as [n'|] eqn:En; [| done].
      destruct n' as [|x n']; [done |]. cbn [falsy]. intros [= <-].
      split; [done |]. exists before, c, after.
      split; [done |]. split; [done |]. split; [done |].
      intros c' Hc'. specialize (Hb c' Hc'). by apply bool_decide_eq_false in Hb.
    + intros (Hn & before & c & after & -> & Hc & En & Hb).
      rewrite (find_split _ before after c).
      * rewrite En. by destruct n.
      * by apply bool_decide_eq_true.
      * intros c' Hc'. apply bool_decide_eq_false. by apply Hb.
  - intros before c after -> Hc Hb Hn.
    rewrite (find_split _ before after c).
    + by destruct Hn as [-> | ->].
    + by apply bool_decide_eq_true.
    + intros c' Hc'. apply bool_decide_eq_false. by apply Hb.
  - intros H. rewrite find_none; [done |].
    intros c Hc. apply bool_decide_eq_false. by apply H.
Qed.

(** A grade in course C1 is shown with the name of that course, also
    when a second course with the same code follows; a grade in a course
    that is not in the file is shown without a name. *)
Lemma course_name_first_match_witness :
  Detail.course_name
    (Sample.courses ++ [mkCourse (Some "C1"%string) (Some "Sets"%string) None])
    (mkGrade (Some "S1"%string) (Some "C1"%string) (Some "A"%string)) = Some "Logic"%string
  ∧ Detail.course_name Sample.courses
      (mkGrade (Some "S1"%string) (Some "C404"%string) (Some "A"%string)) = None.
Proof.
  split.
  - apply (course_name_first_match
             (Sample.courses ++ [mkCourse (Some "C1"%string) (Some "Sets"%string) None])).
    split; [done |].
    exists [], (mkCourse (Some "C1"%string) (Some "Logic"%string) (Some "Kim"%string)),
      [mkCourse (Some "C1"%string) (Some "Sets"%string) None].
    split; [reflexivity |]. split; [reflexivity |]. split; [reflexivity |].
    intros c' Hc'. by apply elem_of_nil in Hc'.
  - apply (course_name_first_match Sample.courses).
    intros c Hc. unfold Sample.courses in Hc. each_member Hc ltac:(discriminate).
Defined.

End DetailMore.

(** ** The page *)

Section AppMore.

(** X21: while the loading screen is up no data has arrived, and once it
    is gone it never comes back: on every reachable page, [loading]
    implies that the four arrays are empty, and no event makes [loading]
    true again. *)
Theorem App_loading_invariant (cfg : App.state * Window) :
  App.reachable cfg →
  (App.loading cfg.1 = true →
   App.students cfg.1 = [] ∧ App.courses cfg.1 = [] ∧ App.grades cfg.1 = []
   ∧ App.attendance cfg.1 = []
   ∧ (App.render_course_attendance cfg.1 cfg.2).1 = None)
  ∧ (∀ ev, App.loading cfg.1 = false → App.loading (App.step ev cfg).1 = false).
Proof.
  intros Hr. split.
  - induction Hr as [|ev [st w] _ IH]; [done |].
    unfold App.step.
    destruct (App.handle ev st w) as [st' w'] eqn:Eh.
    destruct (App.render st' w') as [pg w''] eqn:Er. cbn [fst snd].
    intros Hl.
    assert (Hst : App.loading st = true ∧ App.students st' = App.students st
                  ∧ App.courses st' = App.courses st ∧ App.grades st' = App.grades st
                  ∧ App.attendance st' = App.attendance st).
    { destruct ev; injection Eh as <- <-; cbn in Hl |- *; done. }
    destruct Hst as (Hl0 & -> & -> & -> & ->).
    destruct (IH Hl0) as (? & ? & ? & ? & _).
    repeat split; try done.
    unfold App.render_course_attendance. by rewrite Hl.
  - intros ev Hl. destruct cfg as [st w]. unfold App.step.
    destruct (App.handle ev st w) as [st' w'] eqn:Eh.
    destruct (App.render st' w') as [pg w'']. cbn [fst] in *.
    destruct ev; injection Eh as <- <-; done.
Qed.

Lemma App_loading_invariant_witness :
  App.loading Sample.loaded_C1.1 = false
  ∧ App.loading (App.step App.ClearClicked Sample.loaded_C1).1 = false.
Proof.
  assert (Hr : App.reachable Sample.loaded_C1) by repeat constructor.
  split; [reflexivity |].
  apply (App_loading_invariant Sample.loaded_C1 Hr). reflexivity.
Defined.



End AppMore.
